(** * Realtime hub of clock-synchronization-world: room manager, rate limiter,
      cursor batcher and time exchange, embedded from the TypeScript sources.

    - Numbers.  JavaScript numbers that carry fractions (seconds,
      percentages) are the exact rationals [Qc]; millisecond timestamps
      returned by [Date.now()] are integers [Z].  NaN and rounding are
      outside the model.
    - State.  The module-level [Map]s of the Node process, the data of the
      Redis server behind the client, the clock and the messages handed to
      socket.io form one [World].  Every [async] function is a computation
      in the state monad [M] over worlds, run to completion without
      interleaving.
    - Clock.  [Date.now()] is an oracle: the [n]-th call returns [clock n],
      whatever that sequence is.  A function that reads the clock several
      times gets several readings.
    - Objects.  A state object obtained from [localVideoStates] is the
      stored object itself; the sources assign to its fields and then store
      an object with the same fields through [setVideoState], so the stored
      value at the end of each function is the one computed here. *)

From Stdlib Require Import ZArith QArith Qcanon Lqa.
From stdpp Require Import base numbers option list strings gmap fin_maps.

Local Open Scope Z_scope.

(* ================================================================== *)
(** ** JavaScript arithmetic used by the sources *)
(* ================================================================== *)

Module Math.

(** [Math.min] and [Math.max] on (non-NaN) numbers. *)
Definition min (x y : Qc) : Qc := if decide (x ≤ y)%Qc then x else y.
Definition max (x y : Qc) : Qc := if decide (x ≤ y)%Qc then y else x.

(** [Math.ceil (n / d)] for integers [n] and [d > 0]. *)
Definition ceil_div (n d : Z) : Z := - ((- n) / d).

(** [Math.max] on integers ([config.max - count] is integral). *)
Definition maxZ (x y : Z) : Z := Z.max x y.

End Math.

(** [ms / 1000] as a number of seconds. *)
Definition seconds_of_ms (ms : Z) : Qc := (Qc_of_Z ms / Qc_of_Z 1000)%Qc.

(* ================================================================== *)
(** ** Data model (lib/roomManager.ts, TYPES) *)
(* ================================================================== *)

Module Room.
Record t := mk {
  id : string;
  name : string;
  createdBy : string;
  createdAt : Z;
  maxUsers : Z;
  isPublic : bool;
}.
End Room.

Module RoomOptions.
Record t := mk {
  name : option string;
  maxUsers : option Z;
  isPublic : option bool;
}.
(** The default argument [options = {}]. *)
Definition empty : t := mk None None None.
End RoomOptions.

Module User.
Record t := mk {
  id : string;
  city : string;
  timezone : string;
  flag : string;
  connectedAt : Z;
  lastSeen : Z;
  instance : option string;
}.
End User.

Module VideoState.
Record t := mk {
  isPlaying : bool;
  currentTime : Qc;
  duration : Qc;
  serverTimestamp : Z;
  lastUpdateTime : Z;
}.

(** [Partial<VideoState>]: every field may be missing. *)
Record partial := mkPartial {
  p_isPlaying : option bool;
  p_currentTime : option Qc;
  p_duration : option Qc;
  p_serverTimestamp : option Z;
  p_lastUpdateTime : option Z;
}.

(** A complete state passed where a partial one is expected. *)
Definition full (s : t) : partial :=
  mkPartial (Some (isPlaying s)) (Some (currentTime s)) (Some (duration s))
            (Some (serverTimestamp s)) (Some (lastUpdateTime s)).

(** Object spread [{...a, ...b}]: the fields present in [b] win. *)
Definition spread (a : t) (b : partial) : t :=
  mk (default (isPlaying a) (p_isPlaying b))
     (default (currentTime a) (p_currentTime b))
     (default (duration a) (p_duration b))
     (default (serverTimestamp a) (p_serverTimestamp b))
     (default (lastUpdateTime a) (p_lastUpdateTime b)).

(** Field assignments [state.f = v] on a state object. *)
Definition set_isPlaying (v : bool) (s : t) : t :=
  mk v (currentTime s) (duration s) (serverTimestamp s) (lastUpdateTime s).
Definition set_currentTime (v : Qc) (s : t) : t :=
  mk (isPlaying s) v (duration s) (serverTimestamp s) (lastUpdateTime s).
Definition set_serverTimestamp (v : Z) (s : t) : t :=
  mk (isPlaying s) (currentTime s) (duration s) v (lastUpdateTime s).
Definition set_lastUpdateTime (v : Z) (s : t) : t :=
  mk (isPlaying s) (currentTime s) (duration s) (serverTimestamp s) v.
End VideoState.

Module CursorData.
Record t := mk {
  userId : string;
  city : string;
  flag : string;
  x : Qc;
  y : Qc;
  timestamp : Z;
}.
End CursorData.

(** Documents that the process serialises with [JSON.stringify] and reads
    back with [JSON.parse(...) as T]. *)
Inductive JSONDoc :=
| JRoom (r : Room.t)
| JUser (u : User.t)
| JVideo (v : VideoState.t)
| JCursor (c : CursorData.t).

(** The generic parameter [<T>] of the Redis helpers. *)
Class Serializable (T : Type) := {
  stringify : T → JSONDoc;
  parse : JSONDoc → option T;
  parse_stringify : ∀ x, parse (stringify x) = Some x;
}.

#[export] Instance Room_serializable : Serializable Room.t :=
  {| stringify := JRoom;
     parse d := match d with JRoom r => Some r | _ => None end;
     parse_stringify := λ _, eq_refl |}.

#[export] Instance User_serializable : Serializable User.t :=
  {| stringify := JUser;
     parse d := match d with JUser u => Some u | _ => None end;
     parse_stringify := λ _, eq_refl |}.

#[export] Instance VideoState_serializable : Serializable VideoState.t :=
  {| stringify := JVideo;
     parse d := match d with JVideo v => Some v | _ => None end;
     parse_stringify := λ _, eq_refl |}.

#[export] Instance CursorData_serializable : Serializable CursorData.t :=
  {| stringify := JCursor;
     parse d := match d with JCursor c => Some c | _ => None end;
     parse_stringify := λ _, eq_refl |}.

(* ================================================================== *)
(** ** The Redis server as seen through the node-redis client *)
(* ================================================================== *)

(** One keyspace per Redis type.  The key builders of the repository give
    every family of keys its own shape ([room:<id>:meta], [rooms:all],
    [ratelimit:<action>:<user>], ...), so a key never changes type.  Every
    key carries the time-to-live (seconds) last attached to it; the server
    dropping a key whose time-to-live has run out is [Redis.expired]. *)
Module Redis.

Record Db := mkDb {
  strings : gmap string (JSONDoc * option Z);
  counters : gmap string (Z * option Z);
  hashes : gmap string (gmap string JSONDoc * option Z);
}.

Definition empty : Db := mkDb ∅ ∅ ∅.

(** [SET key value EX seconds] *)
Definition set_ex (key : string) (v : JSONDoc) (seconds : Z) (d : Db) : Db :=
  mkDb (<[key := (v, Some seconds)]> (strings d)) (counters d) (hashes d).

(** [GET key] *)
Definition get (key : string) (d : Db) : option JSONDoc :=
  fst <$> strings d !! key.

(** [DEL key] *)
Definition del (key : string) (d : Db) : Db :=
  mkDb (delete key (strings d)) (delete key (counters d)) (delete key (hashes d)).

(** [HSET key field value]: creates the hash when missing, keeps its
    time-to-live otherwise. *)
Definition hSet (key field : string) (v : JSONDoc) (d : Db) : Db :=
  let '(h, t) := default (∅, None) (hashes d !! key) in
  mkDb (strings d) (counters d) (<[key := (<[field := v]> h, t)]> (hashes d)).

(** [HGETALL key]: the empty object for a missing key. *)
Definition hGetAll (key : string) (d : Db) : gmap string JSONDoc :=
  from_option fst ∅ (hashes d !! key).

(** [HDEL key field]: a hash that loses its last field disappears. *)
Definition hDel (key field : string) (d : Db) : Db :=
  match hashes d !! key with
  | None => d
  | Some (h, t) =>
      let h' := delete field h in
      mkDb (strings d) (counters d)
           (if decide (size h' = 0%nat) then delete key (hashes d)
            else <[key := (h', t)]> (hashes d))
  end.

(** [HLEN key] *)
Definition hLen (key : string) (d : Db) : Z := Z.of_nat (size (hGetAll key d)).

(** [INCR key]: a missing counter counts from 0; the time-to-live of an
    existing counter is kept. *)
Definition incr (key : string) (d : Db) : Z * Db :=
  let '(n, t) := default (0, None) (counters d !! key) in
  (n + 1, mkDb (strings d) (<[key := (n + 1, t)]> (counters d)) (hashes d)).

(** [EXPIRE key seconds]: no effect on a missing key. *)
Definition touch {V : Type} (key : string) (seconds : Z)
    (m : gmap string (V * option Z)) : gmap string (V * option Z) :=
  match m !! key with
  | Some (v, _) => <[key := (v, Some seconds)]> m
  | None => m
  end.

Definition expire (key : string) (seconds : Z) (d : Db) : Db :=
  mkDb (touch key seconds (strings d)) (touch key seconds (counters d))
       (touch key seconds (hashes d)).

(** The server drops [key] when its time-to-live has elapsed. *)
Definition expired (key : string) (d : Db) : Db := del key d.

Record Client := mkClient {
  isOpen : bool;
  db : Db;
}.

Definition on_db (f : Db → Db) (c : Client) : Client := mkClient (isOpen c) (f (db c)).

End Redis.

(* ================================================================== *)
(** ** JavaScript [Map] with its insertion order *)
(* ================================================================== *)

Module JSMap.

Definition t (V : Type) : Type := list (string * V).

Fixpoint get {V : Type} (k : string) (m : t V) : option V :=
  match m with
  | [] => None
  | (k', v) :: m' => if decide (k' = k) then Some v else get k m'
  end.

Definition has {V : Type} (k : string) (m : t V) : bool := bool_decide (is_Some (get k m)).

(** [m.set(k, v)]: an existing key keeps its position, a new key goes last. *)
Fixpoint set {V : Type} (k : string) (v : V) (m : t V) : t V :=
  match m with
  | [] => [(k, v)]
  | (k', v') :: m' => if decide (k' = k) then (k, v) :: m' else (k', v') :: set k v m'
  end.

Definition keys {V : Type} (m : t V) : list string := fst <$> m.
Definition values {V : Type} (m : t V) : list V := snd <$> m.
Definition size {V : Type} (m : t V) : nat := length m.

End JSMap.

(* ================================================================== *)
(** ** The process state *)
(* ================================================================== *)

(** lib/rateLimiter.ts, [LocalBucket] *)
Module LocalBucket.
Record t := mk {
  count : Z;
  resetAt : Z;
}.
End LocalBucket.

(** Messages handed to socket.io: [io.to(roomId).emit(event, payload)]. *)
Inductive Payload :=
| VideoStateMsg (s : VideoState.t)
| CursorsBatchMsg (cs : list CursorData.t).

Inductive Emission :=
| ToRoom (roomId : string) (p : Payload).

Record World := mkWorld {
  (** the [n]-th call of [Date.now()] and how many calls were made *)
  clock : nat → Z;
  reads : nat;
  (** lib/redis.ts *)
  redisClient : option Redis.Client;
  isConnectedFlag : bool;
  (** lib/roomManager.ts *)
  localRooms : gmap string Room.t;
  localRoomUsers : gmap string (gmap string User.t);
  localVideoStates : gmap string VideoState.t;
  (** lib/rateLimiter.ts *)
  localBuckets : gmap string LocalBucket.t;
  connectionAttempts : gmap string (list Z);
  (** server.ts *)
  cursorBatches : JSMap.t (JSMap.t CursorData.t);
  emitted : list Emission;
}.

Definition with_reads (n : nat) (w : World) : World :=
  mkWorld (clock w) n (redisClient w) (isConnectedFlag w) (localRooms w)
    (localRoomUsers w) (localVideoStates w) (localBuckets w)
    (connectionAttempts w) (cursorBatches w) (emitted w).
Definition with_redisClient (c : option Redis.Client) (w : World) : World :=
  mkWorld (clock w) (reads w) c (isConnectedFlag w) (localRooms w)
    (localRoomUsers w) (localVideoStates w) (localBuckets w)
    (connectionAttempts w) (cursorBatches w) (emitted w).
Definition with_localRooms (m : gmap string Room.t) (w : World) : World :=
  mkWorld (clock w) (reads w) (redisClient w) (isConnectedFlag w) m
    (localRoomUsers w) (localVideoStates w) (localBuckets w)
    (connectionAttempts w) (cursorBatches w) (emitted w).
Definition with_localRoomUsers (m : gmap string (gmap string User.t)) (w : World) : World :=
  mkWorld (clock w) (reads w) (redisClient w) (isConnectedFlag w) (localRooms w)
    m (localVideoStates w) (localBuckets w)
    (connectionAttempts w) (cursorBatches w) (emitted w).
Definition with_localVideoStates (m : gmap string VideoState.t) (w : World) : World :=
  mkWorld (clock w) (reads w) (redisClient w) (isConnectedFlag w) (localRooms w)
    (localRoomUsers w) m (localBuckets w)
    (connectionAttempts w) (cursorBatches w) (emitted w).
Definition with_localBuckets (m : gmap string LocalBucket.t) (w : World) : World :=
  mkWorld (clock w) (reads w) (redisClient w) (isConnectedFlag w) (localRooms w)
    (localRoomUsers w) (localVideoStates w) m
    (connectionAttempts w) (cursorBatches w) (emitted w).
Definition with_connectionAttempts (m : gmap string (list Z)) (w : World) : World :=
  mkWorld (clock w) (reads w) (redisClient w) (isConnectedFlag w) (localRooms w)
    (localRoomUsers w) (localVideoStates w) (localBuckets w)
    m (cursorBatches w) (emitted w).
Definition with_cursorBatches (m : JSMap.t (JSMap.t CursorData.t)) (w : World) : World :=
  mkWorld (clock w) (reads w) (redisClient w) (isConnectedFlag w) (localRooms w)
    (localRoomUsers w) (localVideoStates w) (localBuckets w)
    (connectionAttempts w) m (emitted w).
Definition with_emitted (l : list Emission) (w : World) : World :=
  mkWorld (clock w) (reads w) (redisClient w) (isConnectedFlag w) (localRooms w)
    (localRoomUsers w) (localVideoStates w) (localBuckets w)
    (connectionAttempts w) (cursorBatches w) l.

(** A fresh process: nothing stored, no Redis client, no clock read yet. *)
Definition boot (clk : nat → Z) : World :=
  mkWorld clk 0 None false ∅ ∅ ∅ ∅ ∅ [] [].

(** *** The state monad of the process *)

Definition M (A : Type) : Type := World → A * World.

#[export] Instance M_ret : MRet M := λ A a w, (a, w).
#[export] Instance M_bind : MBind M := λ A B f m w, let '(a, w') := m w in f a w'.

Definition gets {A : Type} (f : World → A) : M A := λ w, (f w, w).
Definition modify (f : World → World) : M unit := λ w, ((), f w).

(** The value returned by a computation, and the world it leaves. *)
Definition result {A : Type} (m : M A) (w : World) : A := fst (m w).
Definition after {A : Type} (m : M A) (w : World) : World := snd (m w).

(** [for (const x of xs) body(x)] *)
Fixpoint forEach {A : Type} (body : A → M unit) (xs : list A) : M unit :=
  match xs with
  | [] => mret ()
  | x :: xs' => _ ← body x; forEach body xs'
  end.

(** [Date.now()] *)
Definition Date_now : M Z :=
  λ w, (clock w (reads w), with_reads (S (reads w)) w).

(** [io.to(roomId).emit(event, payload)] *)
Definition emit (e : Emission) : M unit :=
  modify (λ w, with_emitted (emitted w ++ [e]) w).

(* ================================================================== *)
(** ** lib/redis.ts *)
(* ================================================================== *)

(** [reconnectStrategy(retries)] of the main client in [initRedis]: [None]
    is the [Error] that ends the reconnection attempts, [Some d] a delay of
    [d] milliseconds before the next attempt. *)
Definition reconnectStrategy (retries : Z) : option Z :=
  if decide (10 < retries) then None
  else Some (Z.min (retries * 100) 3000).

(** [getRedisClient()] *)
Definition getRedisClient : M (option Redis.Client) := gets redisClient.

(** [redisClient?.isOpen] *)
Definition clientIsOpen (w : World) : bool :=
  from_option Redis.isOpen false (redisClient w).

(** [isRedisConnected()]: [isConnectedFlag && (redisClient?.isOpen ?? false)] *)
Definition isRedisConnected : M bool :=
  gets (λ w, isConnectedFlag w && clientIsOpen w).

(** A command sent through the client object: it acts on the server's data. *)
Definition command (f : Redis.Db → Redis.Db) : M unit :=
  modify (λ w, with_redisClient (Redis.on_db f <$> redisClient w) w).

(** A query sent through the client object. *)
Definition query {A : Type} (f : Redis.Db → A) : M A :=
  gets (λ w, f (from_option Redis.db Redis.empty (redisClient w))).

(** A command whose reply is used. *)
Definition request {A : Type} (f : Redis.Db → A * Redis.Db) : M A :=
  reply ← query (λ d, (f d).1);
  _ ← command (λ d, (f d).2);
  mret reply.

(** [setWithExpiry(key, value, expirySeconds)] *)
Definition setWithExpiry {T : Type} `{Serializable T}
    (key : string) (value : T) (expirySeconds : Z) : M bool :=
  open ← gets clientIsOpen;
  if negb open then mret false
  else
    _ ← command (Redis.set_ex key (stringify value) expirySeconds);
    mret true.

(** [getJSON<T>(key)] *)
Definition getJSON {T : Type} `{Serializable T} (key : string) : M (option T) :=
  open ← gets clientIsOpen;
  if negb open then mret None
  else
    value ← query (Redis.get key);
    mret (value ≫= parse).

(** [setHash(key, field, value)] *)
Definition setHash {T : Type} `{Serializable T}
    (key field : string) (value : T) : M bool :=
  open ← gets clientIsOpen;
  if negb open then mret false
  else
    _ ← command (Redis.hSet key field (stringify value));
    mret true.

(** [getHashAll<T>(key)]; every field holds a document the process wrote
    with [JSON.stringify], so the [catch] around [JSON.parse] is not taken. *)
Definition getHashAll {T : Type} `{Serializable T} (key : string) : M (gmap string T) :=
  open ← gets clientIsOpen;
  if negb open then mret ∅
  else
    hash ← query (Redis.hGetAll key);
    mret (omap parse hash).

(** [deleteHashField(key, field)] *)
Definition deleteHashField (key field : string) : M bool :=
  open ← gets clientIsOpen;
  if negb open then mret false
  else
    _ ← command (Redis.hDel key field);
    mret true.

(** [incrementWithExpiry(key, expirySeconds)] *)
Definition incrementWithExpiry (key : string) (expirySeconds : Z) : M Z :=
  open ← gets clientIsOpen;
  if negb open then mret 0
  else
    count ← request (Redis.incr key);
    _ ← (if decide (count = 1) then command (Redis.expire key expirySeconds) else mret ());
    mret count.

(* ================================================================== *)
(** ** lib/roomManager.ts *)
(* ================================================================== *)

(** Room TTL (24 hours) *)
Definition ROOM_TTL : Z := 60 * 60 * 24.

Module KEYS.
Definition roomMeta (roomId : string) : string := "room:" +:+ roomId +:+ ":meta".
Definition roomUsers (roomId : string) : string := "room:" +:+ roomId +:+ ":users".
Definition roomVideo (roomId : string) : string := "room:" +:+ roomId +:+ ":video".
Definition roomCursors (roomId : string) : string := "room:" +:+ roomId +:+ ":cursors".
Definition allRooms : string := "rooms:all".
End KEYS.

(** [options.name || `Room ${roomId}`]: the empty string is falsy. *)
Definition name_or (o : option string) (dflt : string) : string :=
  match o with
  | Some s => if decide (s = "") then dflt else s
  | None => dflt
  end.

(** [options.maxUsers || 10000]: zero is falsy. *)
Definition number_or (o : option Z) (dflt : Z) : Z :=
  match o with
  | Some n => if decide (n = 0) then dflt else n
  | None => dflt
  end.

(** [options.isPublic !== false] *)
Definition not_false (o : option bool) : bool :=
  match o with
  | Some false => false
  | _ => true
  end.

(** [createRoom(roomId, creatorId, options)] *)
Definition createRoom (roomId creatorId : string) (options : RoomOptions.t) : M Room.t :=
  now ← Date_now;
  let roomData :=
    Room.mk roomId
            (name_or (RoomOptions.name options) ("Room " +:+ roomId))
            creatorId
            now
            (number_or (RoomOptions.maxUsers options) 10000)
            (not_false (RoomOptions.isPublic options)) in
  connected ← isRedisConnected;
  _ ← (if (connected : bool) then
         redis ← getRedisClient;
         match redis with
         | Some _ =>
             _ ← command (Redis.hSet KEYS.allRooms roomId (stringify roomData));
             _ ← setWithExpiry (KEYS.roomMeta roomId) roomData ROOM_TTL;
             mret ()
         | None => mret ()
         end
       else
         modify (λ w, with_localRooms (<[roomId := roomData]> (localRooms w)) w));
  mret roomData.

(** [getRoom(roomId)] *)
Definition getRoom (roomId : string) : M (option Room.t) :=
  connected ← isRedisConnected;
  if (connected : bool) then getJSON (KEYS.roomMeta roomId)
  else gets (λ w, localRooms w !! roomId).

(** [getAllRooms()].  The rooms are those of the reply of [HGETALL],
    respectively of the local [Map]; both are kept as finite maps, so the
    array is enumerated in the order of the map and not in the order of
    insertion.  What is proved about it concerns its elements, or follows
    the enumeration itself. *)
Definition getAllRooms : M (list Room.t) :=
  connected ← isRedisConnected;
  redis ← getRedisClient;
  match connected, redis with
  | true, Some _ =>
      rooms ← query (Redis.hGetAll KEYS.allRooms);
      mret (omap parse (snd <$> map_to_list rooms))
  | _, _ => gets (λ w, snd <$> map_to_list (localRooms w))
  end.

(** [deleteRoom(roomId)] *)
Definition deleteRoom (roomId : string) : M unit :=
  connected ← isRedisConnected;
  if (connected : bool) then
    redis ← getRedisClient;
    match redis with
    | Some _ =>
        _ ← command (Redis.hDel KEYS.allRooms roomId);
        _ ← command (Redis.del (KEYS.roomMeta roomId));
        _ ← command (Redis.del (KEYS.roomUsers roomId));
        _ ← command (Redis.del (KEYS.roomVideo roomId));
        command (Redis.del (KEYS.roomCursors roomId))
    | None => mret ()
    end
  else
    _ ← modify (λ w, with_localRooms (delete roomId (localRooms w)) w);
    _ ← modify (λ w, with_localRoomUsers (delete roomId (localRoomUsers w)) w);
    modify (λ w, with_localVideoStates (delete roomId (localVideoStates w)) w).

(** [addUserToRoom(roomId, userData)] *)
Definition addUserToRoom (roomId : string) (userData : User.t) : M unit :=
  connected ← isRedisConnected;
  if (connected : bool) then
    _ ← setHash (KEYS.roomUsers roomId) (User.id userData) userData;
    redis ← getRedisClient;
    match redis with
    | Some _ => command (Redis.expire (KEYS.roomUsers roomId) ROOM_TTL)
    | None => mret ()
    end
  else
    modify (λ w,
      let users := default ∅ (localRoomUsers w !! roomId) in
      with_localRoomUsers
        (<[roomId := <[User.id userData := userData]> users]> (localRoomUsers w)) w).

(** [removeUserFromRoom(roomId, userId)];
    [localRoomUsers.get(roomId)?.delete(userId)] does nothing for a room
    without a user map and keeps a map that becomes empty. *)
Definition removeUserFromRoom (roomId userId : string) : M unit :=
  connected ← isRedisConnected;
  if (connected : bool) then
    _ ← deleteHashField (KEYS.roomUsers roomId) userId;
    _ ← deleteHashField (KEYS.roomCursors roomId) userId;
    mret ()
  else
    modify (λ w,
      match localRoomUsers w !! roomId with
      | Some users =>
          with_localRoomUsers (<[roomId := delete userId users]> (localRoomUsers w)) w
      | None => w
      end).

(** [getRoomUsers(roomId)] *)
Definition getRoomUsers (roomId : string) : M (gmap string User.t) :=
  connected ← isRedisConnected;
  if (connected : bool) then getHashAll (KEYS.roomUsers roomId)
  else gets (λ w, default ∅ (localRoomUsers w !! roomId)).

(** [getRoomUserCount(roomId)] *)
Definition getRoomUserCount (roomId : string) : M Z :=
  connected ← isRedisConnected;
  redis ← getRedisClient;
  match connected, redis with
  | true, Some _ => query (Redis.hLen (KEYS.roomUsers roomId))
  | _, _ => gets (λ w, Z.of_nat (size (default ∅ (localRoomUsers w !! roomId))))
  end.

(** [getDefaultVideoState()]; 596 is the Big Buck Bunny duration. *)
Definition getDefaultVideoState : M VideoState.t :=
  serverTimestamp ← Date_now;
  lastUpdateTime ← Date_now;
  mret (VideoState.mk false 0%Qc (Qc_of_Z 596) serverTimestamp lastUpdateTime).

(** [getVideoState(roomId)] *)
Definition getVideoState (roomId : string) : M VideoState.t :=
  connected ← isRedisConnected;
  state ← (if (connected : bool) then getJSON (KEYS.roomVideo roomId)
           else gets (λ w, localVideoStates w !! roomId));
  match state with
  | Some s => mret s
  | None => getDefaultVideoState
  end.

(** [setVideoState(roomId, state)] *)
Definition setVideoState (roomId : string) (state : VideoState.partial) : M VideoState.t :=
  currentState ← getVideoState roomId;
  now ← Date_now;
  let videoState :=
    VideoState.set_serverTimestamp now (VideoState.spread currentState state) in
  connected ← isRedisConnected;
  _ ← (if (connected : bool) then
         _ ← setWithExpiry (KEYS.roomVideo roomId) videoState ROOM_TTL; mret ()
       else
         modify (λ w, with_localVideoStates (<[roomId := videoState]> (localVideoStates w)) w));
  mret videoState.

(** The body of [if (state.isPlaying) { ... }] in [updateVideoTime]. *)
Definition advance (now : Z) (state : VideoState.t) : VideoState.t :=
  let elapsed := seconds_of_ms (now - VideoState.lastUpdateTime state) in
  let state :=
    VideoState.set_currentTime
      (Math.min (VideoState.currentTime state + elapsed)%Qc (VideoState.duration state))
      state in
  let state := VideoState.set_lastUpdateTime now state in
  (* Loop video when it ends *)
  if decide (VideoState.duration state ≤ VideoState.currentTime state)%Qc
  then VideoState.set_currentTime 0%Qc state
  else state.

(** [updateVideoTime(roomId)].  In standalone mode [state] is the very
    object held by [localVideoStates]; the assignments write through to
    it, and [setVideoState] then replaces it by an object with the same
    fields, which is the state this definition stores. *)
Definition updateVideoTime (roomId : string) : M VideoState.t :=
  state ← getVideoState roomId;
  state ← (if VideoState.isPlaying state then
             now ← Date_now;
             mret (advance now state)
           else mret state);
  now ← Date_now;
  let state := VideoState.set_serverTimestamp now state in
  _ ← setVideoState roomId (VideoState.full state);
  mret state.

(** [updateCursor(roomId, userId, cursorData)] *)
Definition updateCursor (roomId userId : string) (cursorData : CursorData.t) : M unit :=
  connected ← isRedisConnected;
  if (connected : bool) then
    _ ← setHash (KEYS.roomCursors roomId) userId cursorData; mret ()
  else mret ().

(** [getRoomCursors(roomId)] *)
Definition getRoomCursors (roomId : string) : M (gmap string CursorData.t) :=
  connected ← isRedisConnected;
  if (connected : bool) then getHashAll (KEYS.roomCursors roomId)
  else mret ∅.

(** [removeCursor(roomId, userId)] *)
Definition removeCursor (roomId userId : string) : M unit :=
  connected ← isRedisConnected;
  if (connected : bool) then
    _ ← deleteHashField (KEYS.roomCursors roomId) userId; mret ()
  else mret ().

(** [cleanupEmptyRooms()]; [Date.now()] is read only when [roomData] is
    not null. *)
Definition cleanupEmptyRooms : M unit :=
  rooms ← getAllRooms;
  forEach (λ room,
    userCount ← getRoomUserCount (Room.id room);
    if decide (userCount = 0) then
      roomData ← getRoom (Room.id room);
      match roomData with
      | Some roomData =>
          now ← Date_now;
          if decide (60000 < now - Room.createdAt roomData)
          then deleteRoom (Room.id room)
          else mret ()
      | None => mret ()
      end
    else mret ()) rooms.

Definition DEFAULT_ROOM_ID : string := "main-lobby".

(** [ensureDefaultRoom()] *)
Definition ensureDefaultRoom : M unit :=
  existing ← getRoom DEFAULT_ROOM_ID;
  match existing with
  | Some _ => mret ()
  | None =>
      _ ← createRoom DEFAULT_ROOM_ID "system"
            (RoomOptions.mk (Some "Main Lobby") (Some 100000) (Some true));
      mret ()
  end.

(* ================================================================== *)
(** ** lib/rateLimiter.ts *)
(* ================================================================== *)

Inductive RateLimitAction :=
| cursor | reaction | sync | message | roomJoin | videoControl.

(** The string of an action inside a template literal. *)
Definition action_name (a : RateLimitAction) : string :=
  match a with
  | cursor => "cursor"
  | reaction => "reaction"
  | sync => "sync"
  | message => "message"
  | roomJoin => "roomJoin"
  | videoControl => "videoControl"
  end.

Module RateLimitConfig.
Record t := mk {
  max : Z;
  windowMs : Z;
}.
End RateLimitConfig.

Module RateLimitResult.
Record t := mk {
  allowed : bool;
  remaining : Z;
  resetIn : Z;
  count : Z;
}.
End RateLimitResult.

(** Rate limit configurations.  [LIMITS[action]] is defined for every
    member of the type, so the [if (!config)] branch of [checkRateLimit]
    is never taken. *)
Definition LIMITS (action : RateLimitAction) : RateLimitConfig.t :=
  match action with
  | cursor => RateLimitConfig.mk 20 1000
  | reaction => RateLimitConfig.mk 5 1000
  | sync => RateLimitConfig.mk 10 1000
  | message => RateLimitConfig.mk 30 1000
  | roomJoin => RateLimitConfig.mk 5 10000
  | videoControl => RateLimitConfig.mk 10 1000
  end.

(** [`ratelimit:${action}:${userId}`] *)
Definition rateLimitKey (userId : string) (action : RateLimitAction) : string :=
  "ratelimit:" +:+ action_name action +:+ ":" +:+ userId.

(** [incrementLocalBucket(key, windowMs)]; [bucket.count++] updates the
    object held by the map. *)
Definition incrementLocalBucket (key : string) (windowMs : Z) : M Z :=
  now ← Date_now;
  bucket ← gets (λ w, localBuckets w !! key);
  let fresh :=
    _ ← modify (λ w, with_localBuckets
                       (<[key := LocalBucket.mk 1 (now + windowMs)]> (localBuckets w)) w);
    mret 1 in
  match bucket with
  | None => fresh
  | Some b =>
      if decide (LocalBucket.resetAt b < now) then fresh
      else
        let b' := LocalBucket.mk (LocalBucket.count b + 1) (LocalBucket.resetAt b) in
        _ ← modify (λ w, with_localBuckets (<[key := b']> (localBuckets w)) w);
        mret (LocalBucket.count b')
  end.

(** [checkRateLimit(userId, action)] *)
Definition checkRateLimit (userId : string) (action : RateLimitAction) : M RateLimitResult.t :=
  let config := LIMITS action in
  let key := rateLimitKey userId action in
  let windowSeconds := Math.ceil_div (RateLimitConfig.windowMs config) 1000 in
  connected ← isRedisConnected;
  count ← (if (connected : bool) then incrementWithExpiry key windowSeconds
           else incrementLocalBucket key (RateLimitConfig.windowMs config));
  let allowed := bool_decide (count ≤ RateLimitConfig.max config) in
  let remaining := Math.maxZ 0 (RateLimitConfig.max config - count) in
  let resetIn := RateLimitConfig.windowMs config in
  mret (RateLimitResult.mk allowed remaining resetIn count).

(** [cleanupLocalBuckets()] *)
Definition cleanupLocalBuckets : M unit :=
  now ← Date_now;
  modify (λ w, with_localBuckets
                 (filter (λ kb, ¬ (LocalBucket.resetAt kb.2 < now)) (localBuckets w)) w).

(** [attempts.filter((t) => now - t < 60000)] *)
Definition recentAttempts (now : Z) (attempts : list Z) : list Z :=
  filter (λ t, now - t < 60000) attempts.

(** [checkConnectionLimit(ip, maxPerMinute = 10)]; [None] is the call that
    leaves the second argument out. *)
Definition checkConnectionLimit (ip : string) (maxPerMinute : option Z) : M bool :=
  let maxPerMinute := default 10 maxPerMinute in
  now ← Date_now;
  let key := "conn:" +:+ ip in
  attempts ← gets (λ w, default [] (connectionAttempts w !! key));
  (* Remove old attempts (older than 1 minute) *)
  let recent := recentAttempts now attempts in
  if decide (maxPerMinute ≤ Z.of_nat (length recent)) then mret false
  else
    _ ← modify (λ w, with_connectionAttempts
                       (<[key := recent ++ [now]]> (connectionAttempts w)) w);
    mret true.

(** The body of the [setInterval(..., 60000)] that cleans up connection
    attempts. *)
Definition sweepConnectionAttempts : M unit :=
  now ← Date_now;
  modify (λ w, with_connectionAttempts
                 (filter (λ ka, ka.2 ≠ []) (recentAttempts now <$> connectionAttempts w)) w).

(** [class TokenBucket].  A bucket is an object; its methods are given the
    object and return it as they leave it.  [refillInterval] is a positive
    number of milliseconds wherever the sources build a bucket; a division
    by zero is outside the model. *)
Module TokenBucket.
Record t := mk {
  maxTokens : Qc;
  tokens : Qc;
  refillRate : Qc;
  refillInterval : Z;
  lastRefill : Z;
}.

(** [new TokenBucket(maxTokens, refillRate, refillInterval = 1000)] *)
Definition new (maxTokens refillRate : Qc) (refillInterval : option Z) : M t :=
  lastRefill ← Date_now;
  mret (mk maxTokens maxTokens refillRate (default 1000 refillInterval) lastRefill).

(** [refill()] *)
Definition refill (b : t) : M t :=
  now ← Date_now;
  let elapsed := now - lastRefill b in
  let tokensToAdd :=
    (Qc_of_Z elapsed / Qc_of_Z (refillInterval b) * refillRate b)%Qc in
  mret (mk (maxTokens b) (Math.min (maxTokens b) (tokens b + tokensToAdd)%Qc)
           (refillRate b) (refillInterval b) now).

(** [consume()] *)
Definition consume (b : t) : M (bool * t) :=
  b ← refill b;
  if decide (1 ≤ tokens b)%Qc then
    mret (true, mk (maxTokens b) (tokens b - 1)%Qc (refillRate b) (refillInterval b)
                   (lastRefill b))
  else mret (false, b).

(** [getTokens()] *)
Definition getTokens (b : t) : M (Qc * t) :=
  b ← refill b;
  mret (tokens b, b).
End TokenBucket.

(** [`${action}:${userId}`] *)
Definition userBucketKey (userId : string) (action : RateLimitAction) : string :=
  action_name action +:+ ":" +:+ userId.

(** [getUserBucket(userId, action)]; the module-level [userBuckets] is
    passed in and returned. *)
Definition getUserBucket (userId : string) (action : RateLimitAction)
    (userBuckets : gmap string TokenBucket.t)
    : M (TokenBucket.t * gmap string TokenBucket.t) :=
  let key := userBucketKey userId action in
  match userBuckets !! key with
  | Some bucket => mret (bucket, userBuckets)
  | None =>
      let config := LIMITS action in
      bucket ← TokenBucket.new (Qc_of_Z (RateLimitConfig.max config * 2))
                               (Qc_of_Z (RateLimitConfig.max config))
                               (Some (RateLimitConfig.windowMs config));
      mret (bucket, <[key := bucket]> userBuckets)
  end.

(** [checkTokenBucket(userId, action)]; [consume] updates the bucket object
    that [userBuckets] holds. *)
Definition checkTokenBucket (userId : string) (action : RateLimitAction)
    (userBuckets : gmap string TokenBucket.t)
    : M (bool * gmap string TokenBucket.t) :=
  '(bucket, userBuckets) ← getUserBucket userId action userBuckets;
  '(ok, bucket) ← TokenBucket.consume bucket;
  mret (ok, <[userBucketKey userId action := bucket]> userBuckets).

(* ================================================================== *)
(** ** server.ts *)
(* ================================================================== *)

Module SocketData.
Record t := mk {
  userId : string;
  userData : User.t;
  currentRoom : option string;
}.
End SocketData.

(** [if (!roomId) return;] on a [string | null]: [null] and the empty
    string are falsy. *)
Definition truthy (roomId : option string) : option string :=
  match roomId with
  | Some r => if decide (r = "") then None else Some r
  | None => None
  end.

(** [batchCursorUpdate(roomId, cursorData)] *)
Definition batchCursorUpdate (roomId : string) (cursorData : CursorData.t) : M unit :=
  _ ← modify (λ w,
        if JSMap.has roomId (cursorBatches w) then w
        else with_cursorBatches (JSMap.set roomId [] (cursorBatches w)) w);
  modify (λ w,
    let cursors := default [] (JSMap.get roomId (cursorBatches w)) in
    with_cursorBatches
      (JSMap.set roomId (JSMap.set (CursorData.userId cursorData) cursorData cursors)
                 (cursorBatches w)) w).

(** The body of the cursor flush interval: one [cursors:batch] per room
    with a non-empty accumulator; [cursors.clear()] then empties the map
    object held under [roomId]. *)
Definition flushCursorBatches : M unit :=
  entries ← gets cursorBatches;
  forEach (λ '(roomId, cursors),
    if decide (0 < JSMap.size cursors)%nat then
      _ ← emit (ToRoom roomId (CursorsBatchMsg (JSMap.values cursors)));
      modify (λ w, with_cursorBatches (JSMap.set roomId [] (cursorBatches w)) w)
    else mret ()) entries.

(** [io.on("connection")]: the admission check at the top. *)
Definition admitConnection (clientIP : string) : M bool :=
  checkConnectionLimit clientIP (Some 20).

(** [socket.on("video:play")] *)
Definition onVideoPlay (sock : SocketData.t) : M unit :=
  match truthy (SocketData.currentRoom sock) with
  | None => mret ()
  | Some roomId =>
      rateCheck ← checkRateLimit (SocketData.userId sock) videoControl;
      if negb (RateLimitResult.allowed rateCheck) then mret ()
      else
        state ← updateVideoTime roomId;
        let state := VideoState.set_isPlaying true state in
        now ← Date_now;
        let state := VideoState.set_lastUpdateTime now state in
        _ ← setVideoState roomId (VideoState.full state);
        emit (ToRoom roomId (VideoStateMsg state))
  end.

(** [socket.on("video:pause")] *)
Definition onVideoPause (sock : SocketData.t) : M unit :=
  match truthy (SocketData.currentRoom sock) with
  | None => mret ()
  | Some roomId =>
      rateCheck ← checkRateLimit (SocketData.userId sock) videoControl;
      if negb (RateLimitResult.allowed rateCheck) then mret ()
      else
        state ← updateVideoTime roomId;
        let state := VideoState.set_isPlaying false state in
        _ ← setVideoState roomId (VideoState.full state);
        emit (ToRoom roomId (VideoStateMsg state))
  end.

(** [Math.max(0, Math.min(time, state.duration))] *)
Definition clampSeek (time duration : Qc) : Qc :=
  Math.max 0%Qc (Math.min time duration).

(** [socket.on("video:seek")] *)
Definition onVideoSeek (sock : SocketData.t) (time : Qc) : M unit :=
  match truthy (SocketData.currentRoom sock) with
  | None => mret ()
  | Some roomId =>
      rateCheck ← checkRateLimit (SocketData.userId sock) videoControl;
      if negb (RateLimitResult.allowed rateCheck) then mret ()
      else
        state ← getVideoState roomId;
        let state :=
          VideoState.set_currentTime (clampSeek time (VideoState.duration state)) state in
        now ← Date_now;
        let state := VideoState.set_lastUpdateTime now state in
        _ ← setVideoState roomId (VideoState.full state);
        emit (ToRoom roomId (VideoStateMsg state))
  end.

(** [socket.on("cursor:move")] *)
Definition onCursorMove (sock : SocketData.t) (x y : Qc) : M unit :=
  match truthy (SocketData.currentRoom sock) with
  | None => mret ()
  | Some roomId =>
      rateCheck ← checkRateLimit (SocketData.userId sock) cursor;
      if negb (RateLimitResult.allowed rateCheck) then mret ()
      else
        now ← Date_now;
        let userData := SocketData.userData sock in
        let cursorData :=
          CursorData.mk (User.id userData) (User.city userData) (User.flag userData)
                        x y now in
        _ ← batchCursorUpdate roomId cursorData;
        updateCursor roomId (SocketData.userId sock) cursorData
  end.

(** The body of the 500 ms interval: update and broadcast the video state
    of every room. *)
Definition videoTick : M unit :=
  rooms ← getAllRooms;
  forEach (λ room,
    state ← updateVideoTime (Room.id room);
    emit (ToRoom (Room.id room) (VideoStateMsg state))) rooms.

Module Reaction.
Record t := mk {
  id : string;
  userId : string;
  city : string;
  flag : string;
  emoji : string;
  x : Qc;
  y : Qc;
  videoTime : Qc;
  timestamp : Z;
}.
End Reaction.

(** [batchReaction(roomId, reaction)]; the module-level [reactionBatches]
    is passed in and returned. *)
Definition batchReaction (roomId : string) (reaction : Reaction.t)
    (reactionBatches : JSMap.t (list Reaction.t)) : JSMap.t (list Reaction.t) :=
  let reactionBatches :=
    if JSMap.has roomId reactionBatches then reactionBatches
    else JSMap.set roomId [] reactionBatches in
  JSMap.set roomId (default [] (JSMap.get roomId reactionBatches) ++ [reaction])
            reactionBatches.

(** The body of the reaction flush interval: the [reactions:batch]
    messages handed to [io.to(roomId)], in order, and [reactionBatches] as
    the loop leaves it. *)
Definition flushReactionBatches (reactionBatches : JSMap.t (list Reaction.t))
    : list (string * list Reaction.t) * JSMap.t (list Reaction.t) :=
  foldl (λ '(sent, batches) '(roomId, reactions),
           if decide (0 < length reactions)%nat
           then (sent ++ [(roomId, reactions)], JSMap.set roomId [] batches)
           else (sent, batches))
        ([], reactionBatches) reactionBatches.

(** The payloads of the events a session sends to clients. *)
Inductive ClientEvent :=
| RoomJoined (roomId : string) (room : Room.t) (videoState : VideoState.t)
             (users : list User.t)
| UserJoined (userData : User.t)
| UsersList (users : list User.t)
| UserLeft (userId : string)
| CursorRemove (userId : string)
| RateLimitError (action : string) (retryIn : Z).

(** What a connection handler asks of its socket and of the server. *)
Inductive SocketCall :=
| SocketJoin (roomId : string)                       (* socket.join(roomId) *)
| SocketLeave (roomId : string)                      (* socket.leave(roomId) *)
| SocketEmit (e : ClientEvent)                       (* socket.emit(...) *)
| SocketToRoom (roomId : string) (e : ClientEvent)   (* socket.to(roomId).emit(...) *)
| IoToRoom (roomId : string) (e : ClientEvent).      (* io.to(roomId).emit(...) *)

(** One connection: [socket.data] (with the [userData] object of the
    closure) and the calls made so far, oldest first. *)
Module Session.
Record t := mk {
  data : SocketData.t;
  calls : list SocketCall;
}.
End Session.

Definition socketCall (c : SocketCall) (s : Session.t) : Session.t :=
  Session.mk (Session.data s) (Session.calls s ++ [c]).

(** [data.currentRoom = r] *)
Definition setCurrentRoom (r : option string) (s : Session.t) : Session.t :=
  Session.mk
    (SocketData.mk (SocketData.userId (Session.data s))
                   (SocketData.userData (Session.data s)) r)
    (Session.calls s).

(** [Object.values(users)].  The object is kept as a finite map, which does
    not record the order in which its keys were inserted: the list has the
    values [Object.values] returns, enumerated in the order of the map.
    What is proved about it concerns its elements, not their order. *)
Definition Object_values {V : Type} (o : gmap string V) : list V :=
  snd <$> map_to_list o.

(** [leaveRoom(roomId)] of a connection *)
Definition leaveRoom (roomId : option string) (s : Session.t) : M Session.t :=
  match truthy roomId with
  | None => mret s
  | Some roomId =>
      let userId := SocketData.userId (Session.data s) in
      let s := socketCall (SocketLeave roomId) s in
      _ ← removeUserFromRoom roomId userId;
      _ ← removeCursor roomId userId;
      (* Notify others *)
      let s := socketCall (SocketToRoom roomId (UserLeft userId)) s in
      let s := socketCall (SocketToRoom roomId (CursorRemove userId)) s in
      (* Update user list *)
      users ← getRoomUsers roomId;
      let s := socketCall (IoToRoom roomId (UsersList (Object_values users))) s in
      mret (setCurrentRoom None s)
  end.

(** [joinRoom(roomId)] of a connection *)
Definition joinRoom (roomId : string) (s : Session.t) : M (bool * Session.t) :=
  let userId := SocketData.userId (Session.data s) in
  let userData := SocketData.userData (Session.data s) in
  (* Leave current room if any *)
  s ← (match truthy (SocketData.currentRoom (Session.data s)) with
       | Some _ => leaveRoom (SocketData.currentRoom (Session.data s)) s
       | None => mret s
       end);
  (* Rate limit room joins *)
  rateCheck ← checkRateLimit userId roomJoin;
  if negb (RateLimitResult.allowed rateCheck) then
    mret (false,
          socketCall (SocketEmit (RateLimitError "roomJoin"
                                    (RateLimitResult.resetIn rateCheck))) s)
  else
    (* Ensure room exists *)
    room ← getRoom roomId;
    room ← (match room with
            | Some room => mret room
            | None => createRoom roomId userId RoomOptions.empty
            end);
    let s := socketCall (SocketJoin roomId) s in
    let s := setCurrentRoom (Some roomId) s in
    _ ← addUserToRoom roomId userData;
    (* Get current room state *)
    videoState ← getVideoState roomId;
    users ← getRoomUsers roomId;
    let s := socketCall (SocketEmit (RoomJoined roomId room videoState
                                       (Object_values users))) s in
    let s := socketCall (SocketToRoom roomId (UserJoined userData)) s in
    let s := socketCall (IoToRoom roomId (UsersList (Object_values users))) s in
    mret (true, s).

(** [socket.on("room:join")]: [roomId || DEFAULT_ROOM_ID] *)
Definition onRoomJoin (roomId : option string) (s : Session.t) : M Session.t :=
  r ← joinRoom (name_or roomId DEFAULT_ROOM_ID) s;
  mret r.2.

(** [socket.on("room:leave")] and [socket.on("disconnect")] *)
Definition onRoomLeave (s : Session.t) : M Session.t :=
  leaveRoom (SocketData.currentRoom (Session.data s)) s.

Definition onDisconnect (s : Session.t) : M Session.t :=
  leaveRoom (SocketData.currentRoom (Session.data s)) s.

(** [socket.on("heartbeat")]; the assignment to [userData.lastSeen] is
    seen by every later use of [userData]. *)
Definition onHeartbeat (s : Session.t) : M Session.t :=
  match truthy (SocketData.currentRoom (Session.data s)) with
  | None => mret s
  | Some roomId =>
      now ← Date_now;
      let u := SocketData.userData (Session.data s) in
      let userData :=
        User.mk (User.id u) (User.city u) (User.timezone u) (User.flag u)
                (User.connectedAt u) now (User.instance u) in
      let s :=
        Session.mk
          (SocketData.mk (SocketData.userId (Session.data s)) userData
                         (SocketData.currentRoom (Session.data s)))
          (Session.calls s) in
      _ ← addUserToRoom roomId userData;
      mret s
  end.

(* ================================================================== *)
(** ** app/api/time/route.ts *)
(* ================================================================== *)

(** A parsed JSON text. *)
#[local] Unset Elimination Schemes.
Inductive JSONValue :=
| JNull
| JBool (b : bool)
| JNumber (n : Qc)
| JString (s : string)
| JArray (items : list JSONValue)
| JObject (members : list (string * JSONValue)).
#[local] Set Elimination Schemes.

(** [value[key]] on what [JSON.parse] built: the last member of that name
    for an object, [undefined] for the other non-null values. *)
Fixpoint member (key : string) (members : list (string * JSONValue)) : option JSONValue :=
  match members with
  | [] => None
  | (k, v) :: rest =>
      match member key rest with
      | Some v' => Some v'
      | None => if decide (k = key) then Some v else None
      end
  end.

(** [const { clientSendTime } = body]: a [TypeError] ([None]) on [null],
    otherwise the property or [undefined] (inner [None]). *)
Definition destructure (key : string) (body : JSONValue) : option (option JSONValue) :=
  match body with
  | JNull => None
  | JObject members => Some (member key members)
  | _ => Some None
  end.

Module TimeResponse.
(** The object given to [NextResponse.json]; an [undefined] property is
    left out of the serialised body. *)
Record t := mk {
  clientSendTime : option JSONValue;
  serverReceiveTime : Z;
  serverSendTime : Z;
  serverProcessingTime : Z;
}.
End TimeResponse.

Inductive Response :=
| Ok200 (body : TimeResponse.t)
| BadRequest400 (error : string).

(** [POST(request)]; [body] is [None] when [request.json()] rejects. *)
Definition POST (body : option JSONValue) : M Response :=
  serverReceiveTime ← Date_now;
  match body ≫= destructure "clientSendTime" with
  | Some clientSendTime =>
      serverSendTime ← Date_now;
      mret (Ok200 (TimeResponse.mk clientSendTime serverReceiveTime serverSendTime
                     (serverSendTime - serverReceiveTime)))
  | None => mret (BadRequest400 "Invalid request body")
  end.

Module TimeInfo.
Record t := mk {
  serverReceiveTime : Z;
  serverSendTime : Z;
  serverTime : Z;
  serverProcessingTime : Z;
}.
End TimeInfo.

(** [GET()] *)
Definition GET : M TimeInfo.t :=
  serverReceiveTime ← Date_now;
  serverSendTime ← Date_now;
  mret (TimeInfo.mk serverReceiveTime serverSendTime serverSendTime
                    (serverSendTime - serverReceiveTime)).

(* ================================================================== *)
(** ** app/hooks/useTimeSync.ts *)
(* ================================================================== *)

Module SyncMeasurement.
Record t := mk {
  timestamp : Z;
  offset : Qc;
  roundTripTime : Z;
  t1 : Z;
  t2 : Z;
  t3 : Z;
  t4 : Z;
}.
End SyncMeasurement.

(** [performSync()] in the browser.  [t1], [t4] and [stamp] are the three
    readings of the browser's [Date.now()], in this order; [response] is
    what [fetch] resolved to, [None] when it rejected.  A response that is
    not [ok] throws, and the [catch] returns [null]. *)
Definition performSync (t1 t4 stamp : Z) (response : option Response)
    : option SyncMeasurement.t :=
  match response with
  | Some (Ok200 data) =>
      let t2 := TimeResponse.serverReceiveTime data in
      let t3 := TimeResponse.serverSendTime data in
      let offset := (Qc_of_Z ((t2 - t1) + (t3 - t4)) / Qc_of_Z 2)%Qc in
      let roundTripTime := (t4 - t1) - (t3 - t2) in
      Some (SyncMeasurement.mk stamp offset roundTripTime t1 t2 t3 t4)
  | _ => None
  end.

(** The request body [JSON.stringify({ clientSendTime: t1 })] as the
    server parses it. *)
Definition syncRequest (t1 : Z) : JSONValue :=
  JObject [("clientSendTime", JNumber (Qc_of_Z t1))].

(* ================================================================== *)
(** ** Vocabulary of the statements *)
(* ================================================================== *)

(** *** Storage and clock *)

(** The value [isRedisConnected()] has in a world. *)
Definition connected (w : World) : bool := isConnectedFlag w && clientIsOpen w.

(** The data of the Redis server behind the client, if there is a client. *)
Definition redisDb (w : World) : Redis.Db :=
  from_option Redis.db Redis.empty (redisClient w).

(** The video state persisted for a room: the document under
    [room:<id>:video] in cluster mode, the entry of [localVideoStates] in
    standalone mode. *)
Definition storedVideo (roomId : string) (w : World) : option VideoState.t :=
  if connected w then
    e ← Redis.strings (redisDb w) !! KEYS.roomVideo roomId;
    parse e.1
  else localVideoStates w !! roomId.

(** The [k]-th reading of [Date.now()] counted from world [w]. *)
Definition reading (w : World) (k : nat) : Z := clock w (reads w + k)%nat.

(** [Date.now()] never goes back. *)
Definition nondecreasing (clk : nat → Z) : Prop := ∀ n, clk n ≤ clk (S n).

(** The position a playing video has moved to at time [now]. *)
Definition moved (now : Z) (st : VideoState.t) : Qc :=
  (VideoState.currentTime st + seconds_of_ms (now - VideoState.lastUpdateTime st))%Qc.

(** A video playing at 10 s and a video paused at 42 s, both last updated
    at 1000 ms. *)
Definition demoPlaying : VideoState.t :=
  VideoState.mk true (Qc_of_Z 10) (Qc_of_Z 596) 0 1000.
Definition demoPaused : VideoState.t :=
  VideoState.mk false (Qc_of_Z 42) (Qc_of_Z 596) 0 1000.

(** A standalone process holding them for "lobby1" and "lobby2"; its clock
    reads 3000, 3001, 3002, ... *)
Definition demoWorld : World :=
  with_localVideoStates {[ "lobby1" := demoPlaying; "lobby2" := demoPaused ]}
    (boot (λ n, 3000 + Z.of_nat n)).

(** What [setVideoState] writes, as a function on worlds. *)
Definition putVideo (roomId : string) (s : VideoState.t) (w : World) : World :=
  if connected w then
    with_redisClient
      (Redis.on_db (Redis.set_ex (KEYS.roomVideo roomId) (JVideo s) ROOM_TTL)
         <$> redisClient w) w
  else with_localVideoStates (<[roomId := s]> (localVideoStates w)) w.

(** The room holds [st], up to the time stamp of the last write. *)
Definition holdsUpToStamp (roomId : string) (st : VideoState.t) (w : World) : Prop :=
  ∃ ts, storedVideo roomId w = Some (VideoState.set_serverTimestamp ts st).

(** *** Rooms *)

(** The room persisted under an id: the document under [room:<id>:meta] in
    cluster mode, the entry of [localRooms] in standalone mode. *)
Definition storedRoom (roomId : string) (w : World) : option Room.t :=
  if connected w then
    e ← Redis.strings (redisDb w) !! KEYS.roomMeta roomId;
    parse e.1
  else localRooms w !! roomId.

(** The enumeration behind [getAllRooms]: the hash [rooms:all] in cluster
    mode, [localRooms] in standalone mode. *)
Definition roomIndex (w : World) : gmap string Room.t :=
  if connected w then omap parse (Redis.hGetAll KEYS.allRooms (redisDb w))
  else localRooms w.

(** Every room of the enumeration is filed under its own id, as
    [createRoom] files it. *)
Definition indexedById (w : World) : Prop :=
  ∀ k room, roomIndex w !! k = Some room → Room.id room = k.

(** What [deleteRoom] does to the data of the Redis server. *)
Definition deleteRoomCommands (roomId : string) (d : Redis.Db) : Redis.Db :=
  Redis.del (KEYS.roomCursors roomId)
    (Redis.del (KEYS.roomVideo roomId)
      (Redis.del (KEYS.roomUsers roomId)
        (Redis.del (KEYS.roomMeta roomId)
          (Redis.hDel KEYS.allRooms roomId d)))).
Arguments deleteRoomCommands : simpl never.

(** A standalone process in which alice has created room "r". *)
Definition demoRooms : World :=
  after (createRoom "r" "alice" RoomOptions.empty) (boot (λ n, 1000 * (1 + Z.of_nat n))).

(** *** Rate limits and connection attempts *)

(** The counter of the current window in cluster mode: value and
    time-to-live (seconds) of the Redis key. *)
Definition redisCounter (key : string) (w : World) : option (Z * option Z) :=
  Redis.counters (redisDb w) !! key.

(** A process connected to an empty Redis server; its clock reads 5000,
    5001, ... *)
Definition demoCluster : World :=
  mkWorld (λ n, 5000 + Z.of_nat n) 0 (Some (Redis.mkClient true Redis.empty)) true
    ∅ ∅ ∅ ∅ ∅ [] [].

(** The attempts recorded for an address. *)
Definition attemptsOf (ip : string) (w : World) : list Z :=
  default [] (connectionAttempts w !! ("conn:" +:+ ip)).

(** How many recorded attempts of the address are less than 60 s old at
    time [now]. *)
Definition recentCount (now : Z) (ip : string) (w : World) : Z :=
  Z.of_nat (length (recentAttempts now (attemptsOf ip w))).

(** An address with ten attempts recorded at 0 ms, seen at 1000 ms. *)
Definition demoTenAttempts : World :=
  with_connectionAttempts {[ "conn:10.0.0.1" := replicate 10 0 ]} (boot (λ _, 1000)).

(** *** Cursor batches *)

(** A run of [batchCursorUpdate] calls, oldest first. *)
Definition enqueueAll (qs : list (string * CursorData.t)) : M unit :=
  forEach (λ '(roomId, cursorData), batchCursorUpdate roomId cursorData) qs.

(** The most recent cursor enqueued for a user of a room in such a run. *)
Fixpoint lastCursor (qs : list (string * CursorData.t)) (roomId userId : string)
    : option CursorData.t :=
  match qs with
  | [] => None
  | (r, c) :: qs' =>
      match lastCursor qs' roomId userId with
      | Some c' => Some c'
      | None =>
          if decide (r = roomId ∧ CursorData.userId c = userId) then Some c else None
      end
  end.

(** Every accumulator is empty, as after a flush or at start. *)
Definition flushed (w : World) : Prop :=
  ∀ roomId cursors, JSMap.get roomId (cursorBatches w) = Some cursors → cursors = [].

(** A [Map] holds each key once. *)
Definition wellKeyed (w : World) : Prop := NoDup (JSMap.keys (cursorBatches w)).

(** What one [batchCursorUpdate] does to [cursorBatches]. *)
Definition enqueue (roomId : string) (c : CursorData.t)
    (cb : JSMap.t (JSMap.t CursorData.t)) : JSMap.t (JSMap.t CursorData.t) :=
  let cb' := if JSMap.has roomId cb then cb else JSMap.set roomId [] cb in
  JSMap.set roomId
    (JSMap.set (CursorData.userId c) c (default [] (JSMap.get roomId cb'))) cb'.

(** The accumulator of a room after a run of enqueues. *)
Definition accumulate (roomId : string) (qs : list (string * CursorData.t))
    (init : JSMap.t CursorData.t) : JSMap.t CursorData.t :=
  foldl (λ m q, if decide (q.1 = roomId) then JSMap.set (CursorData.userId q.2) q.2 m else m)
        init qs.

(** The message a flush sends for one entry of [cursorBatches]. *)
Definition batchMessage (entry : string * JSMap.t CursorData.t) : option Emission :=
  if decide (0 < JSMap.size entry.2)%nat
  then Some (ToRoom entry.1 (CursorsBatchMsg (JSMap.values entry.2)))
  else None.

Definition emissionRoom (e : Emission) : string :=
  match e with ToRoom roomId _ => roomId end.

(** Every entry of an accumulator sits under the user id it carries. *)
Definition keyedByUser (m : JSMap.t CursorData.t) : Prop :=
  ∀ k c, (k, c) ∈ m → CursorData.userId c = k.

(** What the flush does to [cursorBatches] for one entry. *)
Definition clearEntry (cb : JSMap.t (JSMap.t CursorData.t))
    (entry : string * JSMap.t CursorData.t) : JSMap.t (JSMap.t CursorData.t) :=
  if decide (0 < JSMap.size entry.2)%nat then JSMap.set entry.1 [] cb else cb.

Definition demoCursor (userId : string) (x : Z) (timestamp : Z) : CursorData.t :=
  CursorData.mk userId "Berlin" "DE" (Qc_of_Z x) (Qc_of_Z 50) timestamp.

(** alice moves, bob moves, alice moves again, all in "lobby1". *)
Definition demoMoves : list (string * CursorData.t) :=
  [("lobby1", demoCursor "alice" 10 1);
   ("lobby1", demoCursor "bob" 20 2);
   ("lobby1", demoCursor "alice" 30 3)].

(** *** The hub as a transition system over video states *)







(** The world moved on: same clock, no fewer readings taken. *)
Definition later (w w' : World) : Prop :=
  clock w' = clock w ∧ (reads w ≤ reads w')%nat.


(** A session in room "lobby1". *)
Definition demoSock : SocketData.t :=
  SocketData.mk "user_abc1234"
    (User.mk "user_abc1234" "Berlin" "Europe/Berlin" "DE" 0 0 (Some "instance-1"))
    (Some "lobby1").


(** *** Windows of the rate limiter *)

(** No counter of a current window is held for (action, user): no Redis
    counter in cluster mode; in standalone mode no bucket, or one whose
    window ended before the next clock reading. *)
Definition noOpenWindow (userId : string) (action : RateLimitAction) (w : World) : Prop :=
  if connected w then redisCounter (rateLimitKey userId action) w = None
  else match localBuckets w !! rateLimitKey userId action with
       | Some b => LocalBucket.resetAt b < reading w 0
       | None => True
       end.

(** A standalone process in which "u1" asked for a room join at 0 ms (a
    window of 10 s, open until 10000) and moved the cursor at 1000 ms (a
    window of 1 s, ended at 2000), seen from 5000 ms on. *)
Definition demoTwoBuckets : World :=
  after (checkRateLimit "u1" cursor)
    (after (checkRateLimit "u1" roomJoin)
       (boot (λ n, match n with 0%nat => 0 | 1%nat => 1000 | _ => 5000 end))).

(** A process whose clock reads 1000, 41000, 81000, ... in which 10.0.0.2
    connected at 1000 ms and 10.0.0.1 at 41000 ms and at 81000 ms; the next
    reading is 121000. *)
Definition demoStaleAttempts : World :=
  after (checkConnectionLimit "10.0.0.1" None)
    (after (checkConnectionLimit "10.0.0.1" None)
       (after (checkConnectionLimit "10.0.0.2" None)
          (boot (λ n, 1000 + 40000 * Z.of_nat n)))).

(** *** Token buckets *)

(** [0 <= tokens <= maxTokens] *)
Definition bucketInRange (b : TokenBucket.t) : Prop :=
  (0 ≤ TokenBucket.tokens b)%Qc ∧ (TokenBucket.tokens b ≤ TokenBucket.maxTokens b)%Qc.

(** What the calls keep: the parameters of the bucket, its range, and a
    [lastRefill] that is not later than the next clock reading. *)
Definition bucketSettled (w : World) (b : TokenBucket.t) : Prop :=
  bucketInRange b
  ∧ (0 ≤ TokenBucket.refillRate b)%Qc
  ∧ 0 < TokenBucket.refillInterval b
  ∧ TokenBucket.lastRefill b ≤ reading w 0.

(** The public methods of a bucket that change it. *)
Inductive BucketCall := Consume | GetTokens.

Definition bucketCall (c : BucketCall) (b : TokenBucket.t) : M TokenBucket.t :=
  match c with
  | Consume => r ← TokenBucket.consume b; mret r.2
  | GetTokens => r ← TokenBucket.getTokens b; mret r.2
  end.

(** A run of method calls on one bucket, oldest first. *)
Fixpoint bucketCalls (cs : list BucketCall) (b : TokenBucket.t) : M TokenBucket.t :=
  match cs with
  | [] => mret b
  | c :: cs' => b ← bucketCall c b; bucketCalls cs' b
  end.

(** [n] calls of [checkTokenBucket] in a row: the answers, oldest first,
    and [userBuckets] as the last call leaves it. *)
Fixpoint checkTokenBucketTimes (n : nat) (userId : string) (action : RateLimitAction)
    (userBuckets : gmap string TokenBucket.t) : M (list bool * gmap string TokenBucket.t) :=
  match n with
  | O => mret ([], userBuckets)
  | S n' =>
      '(ok, userBuckets) ← checkTokenBucket userId action userBuckets;
      '(oks, userBuckets) ← checkTokenBucketTimes n' userId action userBuckets;
      mret (ok :: oks, userBuckets)
  end.

(** Every reading of the clock from [w] on is [c]. *)
Definition frozen (w : World) (c : Z) : Prop := ∀ k, reading w k = c.

(** *** Members and cursors of a room *)

(** A command sent to the Redis server, as a function on worlds. *)
Definition redisCommand (f : Redis.Db → Redis.Db) (w : World) : World :=
  with_redisClient (Redis.on_db f <$> redisClient w) w.

(** The fields of the hash [room:<id>:users], respectively the keys of the
    user map of the room in [localRoomUsers]: the ids under which a member
    is stored. *)
Definition memberIds (roomId : string) (w : World) : gset string :=
  if connected w then dom (Redis.hGetAll (KEYS.roomUsers roomId) (redisDb w))
  else dom (default ∅ (localRoomUsers w !! roomId)).

(** What [getRoomUsers], [getRoomCursors] and [getRoomUserCount] return. *)
Definition usersOf (roomId : string) (w : World) : gmap string User.t :=
  if connected w then omap parse (Redis.hGetAll (KEYS.roomUsers roomId) (redisDb w))
  else default ∅ (localRoomUsers w !! roomId).

Definition cursorsOf (roomId : string) (w : World) : gmap string CursorData.t :=
  if connected w then omap parse (Redis.hGetAll (KEYS.roomCursors roomId) (redisDb w))
  else ∅.

Definition userCountOf (roomId : string) (w : World) : Z :=
  Z.of_nat (size (memberIds roomId w)).

(** Everything the room manager keeps for a room. *)
Record RoomView := mkRoomView {
  viewRoom : option Room.t;
  viewListed : option Room.t;
  viewUsers : gmap string User.t;
  viewMembers : gset string;
  viewCursors : gmap string CursorData.t;
  viewVideo : option VideoState.t;
}.

Definition roomView (roomId : string) (w : World) : RoomView :=
  mkRoomView (storedRoom roomId w) (roomIndex w !! roomId) (usersOf roomId w)
    (memberIds roomId w) (cursorsOf roomId w) (storedVideo roomId w).

(** The same, read off the data of the Redis server and off the maps of
    the process. *)
Definition dbView (roomId : string) (d : Redis.Db) : RoomView :=
  mkRoomView (Redis.get (KEYS.roomMeta roomId) d ≫= parse)
    (omap parse (Redis.hGetAll KEYS.allRooms d) !! roomId)
    (omap parse (Redis.hGetAll (KEYS.roomUsers roomId) d))
    (dom (Redis.hGetAll (KEYS.roomUsers roomId) d))
    (omap parse (Redis.hGetAll (KEYS.roomCursors roomId) d))
    (Redis.get (KEYS.roomVideo roomId) d ≫= parse).

Definition localView (roomId : string) (w : World) : RoomView :=
  mkRoomView (localRooms w !! roomId) (localRooms w !! roomId)
    (default ∅ (localRoomUsers w !! roomId))
    (dom (default ∅ (localRoomUsers w !! roomId)))
    ∅ (localVideoStates w !! roomId).

(** Nothing is kept for the room. *)
Definition noRoom : RoomView := mkRoomView None None ∅ ∅ ∅ None.

(** The body of the loop of [cleanupEmptyRooms]. *)
Definition reapIfEmpty (room : Room.t) : M unit :=
  userCount ← getRoomUserCount (Room.id room);
  if decide (userCount = 0) then
    roomData ← getRoom (Room.id room);
    match roomData with
    | Some roomData =>
        now ← Date_now;
        if decide (60000 < now - Room.createdAt roomData)
        then deleteRoom (Room.id room)
        else mret ()
    | None => mret ()
    end
  else mret ().

(** A process connected to a Redis server in which alice created room "r"
    and the server has since dropped the expired [room:r:meta]. *)
Definition demoExpiredMeta : World :=
  redisCommand (Redis.expired (KEYS.roomMeta "r"))
    (after (createRoom "r" "alice" RoomOptions.empty) demoCluster).

(** The standalone process of [demoRooms] a hundred clock readings (100 s)
    later. *)
Definition demoOldRoom : World := with_reads 100 demoRooms.

(** *** Events of a session that are subject to a rate limit *)

Inductive LimitedEvent :=
| PlayEvent | PauseEvent | SeekEvent (time : Qc) | CursorMoveEvent (x y : Qc).

Definition limitedHandler (e : LimitedEvent) (sock : SocketData.t) : M unit :=
  match e with
  | PlayEvent => onVideoPlay sock
  | PauseEvent => onVideoPause sock
  | SeekEvent time => onVideoSeek sock time
  | CursorMoveEvent x y => onCursorMove sock x y
  end.

(** The limit a handler checks before it acts. *)
Definition limitOf (e : LimitedEvent) : RateLimitAction :=
  match e with
  | CursorMoveEvent _ _ => cursor
  | _ => videoControl
  end.

(** *** Reaction batches *)

(** A run of [batchReaction] calls, oldest first. *)
Definition batchReactions (qs : list (string * Reaction.t))
    (reactionBatches : JSMap.t (list Reaction.t)) : JSMap.t (list Reaction.t) :=
  foldl (λ batches q, batchReaction q.1 q.2 batches) reactionBatches qs.

(** The reactions of a run that were sent in a room, in the order of the
    run. *)
Definition reactionsIn (roomId : string) (qs : list (string * Reaction.t)) : list Reaction.t :=
  snd <$> filter (λ q, q.1 = roomId) qs.

Definition demoReaction (id : string) (timestamp : Z) : Reaction.t :=
  Reaction.mk id "alice" "Berlin" "DE" "heart" (Qc_of_Z 10) (Qc_of_Z 20) (Qc_of_Z 42) timestamp.

(** *** Sessions *)

(** The first step of [joinRoom]: leave the current room, if any. *)
Definition leaveCurrent (s : Session.t) : M Session.t :=
  match truthy (SocketData.currentRoom (Session.data s)) with
  | Some _ => leaveRoom (SocketData.currentRoom (Session.data s)) s
  | None => mret s
  end.

(** The connection of [demoSock] before it has joined a room. *)
Definition demoSession : Session.t :=
  Session.mk
    (SocketData.mk (SocketData.userId demoSock) (SocketData.userData demoSock) None) [].

(** The same connection after five joins. *)
Definition demoFiveJoins : Session.t * World :=
  Nat.iter 5 (λ sw, ((joinRoom "lobby1" sw.1 sw.2).1.2, (joinRoom "lobby1" sw.1 sw.2).2))
    (demoSession, boot (λ _, 7000)).

(** The body of the loop of [videoTick]. *)
Definition tickRoom (room : Room.t) : M unit :=
  state ← updateVideoTime (Room.id room);
  emit (ToRoom (Room.id room) (VideoStateMsg state)).

(** An emission that carries a video state. *)
Definition isVideoState (e : Emission) : Prop :=
  ∃ roomId s, e = ToRoom roomId (VideoStateMsg s).

(* ================================================================== *)
(** ** Running the monad *)
(* ================================================================== *)

Ltac unfold_M :=
  unfold request in *;
  unfold result, after, mbind, M_bind, mret, M_ret, gets, modify, query, command,
    Date_now, emit in *.

Ltac unfold_redis :=
  unfold isRedisConnected, getRedisClient, getJSON, setWithExpiry, setHash,
    getHashAll, deleteHashField, incrementWithExpiry, connected, redisDb,
    clientIsOpen in *.

Lemma bind_run {A B : Type} (m : M A) (f : A → M B) (w : World) :
  (m ≫= f) w = f (m w).1 (m w).2.
Proof. unfold mbind, M_bind. by destruct (m w). Qed.

Lemma getVideoState_stored roomId st w :
  storedVideo roomId w = Some st →
  getVideoState roomId w = (st, w).
Proof.
  unfold storedVideo, getVideoState. unfold_redis. unfold_M.
  destruct w as [clk n rc flag lr lu lv lb ca cb em]; cbn.
  intros H.
  destruct flag, rc as [[[] d]|]; cbn in *; rewrite ?H; try done.
  unfold Redis.get. destruct (Redis.strings d !! _) as [[? ?]|]; cbn in *; [|done].
  by rewrite H.
Qed.

Lemma storedVideo_putVideo roomId s w :
  storedVideo roomId (putVideo roomId s w) = Some s.
Proof.
  unfold storedVideo, putVideo. unfold_redis.
  destruct w as [clk n rc flag lr lu lv lb ca cb em]; cbn.
  destruct flag, rc as [[[] d]|]; cbn; rewrite ?lookup_insert_eq; done.
Qed.

Lemma storedVideo_with_reads roomId n w :
  storedVideo roomId (with_reads n w) = storedVideo roomId w.
Proof. done. Qed.

Lemma setVideoState_stored roomId st s w :
  storedVideo roomId w = Some st →
  setVideoState roomId (VideoState.full s) w =
    (VideoState.set_serverTimestamp (reading w 0) s,
     putVideo roomId (VideoState.set_serverTimestamp (reading w 0) s)
       (with_reads (S (reads w)) w)).
Proof.
  intros H. unfold setVideoState.
  rewrite bind_run, (getVideoState_stored _ _ _ H). cbn [fst snd].
  unfold putVideo, reading. unfold_redis. unfold_M.
  rewrite Nat.add_0_r.
  destruct w as [clk n rc flag lr lu lv lb ca cb em]; cbn.
  destruct flag, rc as [[[] d]|]; cbn; done.
Qed.

Lemma min_reaches (p d : Qc) :
  (d ≤ Math.min p d)%Qc ↔ (d ≤ p)%Qc.
Proof.
  unfold Math.min. case_decide; [done|].
  split; intros _; [|done]. by apply Qclt_le_weak, Qclt_nge.
Qed.

Lemma advance_eq now st :
  advance now st =
    VideoState.mk (VideoState.isPlaying st)
      (if decide (VideoState.duration st ≤ moved now st)%Qc then 0%Qc else moved now st)
      (VideoState.duration st) (VideoState.serverTimestamp st) now.
Proof.
  unfold advance. fold (moved now st). cbn.
  pose proof (min_reaches (moved now st) (VideoState.duration st)) as [Hmin1 Hmin2].
  destruct (decide (VideoState.duration st ≤ Math.min _ _)%Qc) as [Hd|Hd];
    destruct (decide (VideoState.duration st ≤ moved now st)%Qc) as [Hm|Hm];
    cbn; try done.
  - by destruct (Hm (Hmin1 Hd)).
  - by destruct (Hd (Hmin2 Hm)).
  - unfold Math.min. case_decide; [done|].
    destruct Hm. by apply Qclt_le_weak, Qclt_nge.
Qed.

Lemma updateVideoTime_run roomId st w :
  storedVideo roomId w = Some st →
  updateVideoTime roomId w =
    if VideoState.isPlaying st then
      let ret := VideoState.set_serverTimestamp (reading w 1) (advance (reading w 0) st) in
      (ret, putVideo roomId (VideoState.set_serverTimestamp (reading w 2) ret)
              (with_reads (3 + reads w) w))
    else
      let ret := VideoState.set_serverTimestamp (reading w 0) st in
      (ret, putVideo roomId (VideoState.set_serverTimestamp (reading w 1) ret)
              (with_reads (2 + reads w) w)).
Proof.
  intros H. unfold updateVideoTime.
  rewrite bind_run, (getVideoState_stored _ _ _ H). cbn [fst snd].
  destruct (VideoState.isPlaying st) eqn:Hp.
  - rewrite !bind_run. cbn [Date_now mret M_ret fst snd].
    erewrite setVideoState_stored by (rewrite !storedVideo_with_reads; exact H).
    cbn [fst snd]. unfold reading. cbn.
    by rewrite !Nat.add_0_r, Nat.add_1_r, (Nat.add_comm _ 2).
  - rewrite !bind_run. cbn [Date_now mret M_ret fst snd].
    erewrite setVideoState_stored by (rewrite !storedVideo_with_reads; exact H).
    cbn [fst snd]. unfold reading. cbn.
    by rewrite !Nat.add_0_r, Nat.add_1_r.
Qed.

(* ================================================================== *)
(** ** updateVideoTime *)
(* ================================================================== *)

(** C1.  For every room and every video state [st] stored for it,
    [updateVideoTime] does the following.  When [st] is playing, it adds
    [(now - lastUpdateTime) / 1000] to [currentTime], clamps the sum to
    [duration], puts [currentTime] back to 0 when the clamped value reaches
    [duration], and sets [lastUpdateTime] to [now], the reading of
    [Date.now()] taken in that branch; when [st] is paused these fields are
    kept.  In all cases [isPlaying] and [duration] are kept, [serverTimestamp]
    is set to the reading taken next, and the resulting state is persisted
    under the room, stamped with the reading taken at the write, and is
    what [getVideoState] returns next; when the clock stands still during
    the call the persisted state is exactly the returned one. *)
Theorem updateVideoTime_advances_clamps_loops_persists roomId st w :
  storedVideo roomId w = Some st →
  let ret := result (updateVideoTime roomId) w in
  let w' := after (updateVideoTime roomId) w in
  let now := reading w 0 in
  let advanced :=
    (VideoState.currentTime st
     + Qc_of_Z (now - VideoState.lastUpdateTime st) / Qc_of_Z 1000)%Qc in
  let clamped :=
    if decide (advanced ≤ VideoState.duration st)%Qc then advanced
    else VideoState.duration st in
  (VideoState.isPlaying st = true →
     VideoState.currentTime ret =
       (if decide (VideoState.duration st ≤ clamped)%Qc then 0%Qc else clamped)
     ∧ VideoState.lastUpdateTime ret = now
     ∧ VideoState.serverTimestamp ret = reading w 1
     ∧ reads w' = (reads w + 3)%nat)
  ∧ (VideoState.isPlaying st = false →
     VideoState.currentTime ret = VideoState.currentTime st
     ∧ VideoState.lastUpdateTime ret = VideoState.lastUpdateTime st
     ∧ VideoState.serverTimestamp ret = now
     ∧ reads w' = (reads w + 2)%nat)
  ∧ VideoState.isPlaying ret = VideoState.isPlaying st
  ∧ VideoState.duration ret = VideoState.duration st
  ∧ storedVideo roomId w' =
      Some (VideoState.set_serverTimestamp (clock w (reads w' - 1)) ret)
  ∧ result (getVideoState roomId) w' =
      VideoState.set_serverTimestamp (clock w (reads w' - 1)) ret
  ∧ ((∀ k, reading w k = now) → storedVideo roomId w' = Some ret).
Proof.
  intros H ret w' now advanced clamped.
  cut ((VideoState.isPlaying st = true →
          VideoState.currentTime ret =
            (if decide (VideoState.duration st ≤ clamped)%Qc then 0%Qc else clamped)
          ∧ VideoState.lastUpdateTime ret = now
          ∧ VideoState.serverTimestamp ret = reading w 1
          ∧ reads w' = (reads w + 3)%nat)
       ∧ (VideoState.isPlaying st = false →
          VideoState.currentTime ret = VideoState.currentTime st
          ∧ VideoState.lastUpdateTime ret = VideoState.lastUpdateTime st
          ∧ VideoState.serverTimestamp ret = now
          ∧ reads w' = (reads w + 2)%nat)
       ∧ VideoState.isPlaying ret = VideoState.isPlaying st
       ∧ VideoState.duration ret = VideoState.duration st
       ∧ storedVideo roomId w' =
           Some (VideoState.set_serverTimestamp (clock w (reads w' - 1)) ret)
       ∧ ((∀ k, reading w k = now) → storedVideo roomId w' = Some ret)).
  { intros (? & ? & ? & ? & Hstored & ?). split_and!; try done.
    unfold result. by rewrite (getVideoState_stored _ _ _ Hstored). }
  subst ret w'. unfold result, after.
  rewrite (updateVideoTime_run _ _ _ H).
  destruct (VideoState.isPlaying st) eqn:Hp; cbn [fst snd].
  - rewrite storedVideo_putVideo.
    assert (reads (putVideo roomId
              (VideoState.set_serverTimestamp (reading w 2)
                 (VideoState.set_serverTimestamp (reading w 1) (advance (reading w 0) st)))
              (with_reads (3 + reads w) w)) = (reads w + 3)%nat) as Hr.
    { unfold putVideo. case_match; [|by rewrite Nat.add_comm].
      cbn. by rewrite Nat.add_comm. }
    rewrite Hr. clear Hr.
    split_and!; try done.
    + intros _. cbn. unfold advance, seconds_of_ms, Math.min; cbn.
      fold now. fold advanced. fold clamped.
      split_and!; try done.
      * by destruct (decide (VideoState.duration st ≤ clamped)%Qc).
      * by destruct (decide (VideoState.duration st ≤ clamped)%Qc).
    + unfold advance; cbn. by case_decide.
    + unfold advance; cbn. by case_decide.
    + do 3 f_equal. unfold reading. f_equal. lia.
    + intros Hk. by rewrite (Hk 2%nat), <- (Hk 1%nat).
  - rewrite storedVideo_putVideo.
    assert (reads (putVideo roomId
              (VideoState.set_serverTimestamp (reading w 1)
                 (VideoState.set_serverTimestamp (reading w 0) st))
              (with_reads (2 + reads w) w)) = (reads w + 2)%nat) as Hr.
    { unfold putVideo. case_match; [|by rewrite Nat.add_comm].
      cbn. by rewrite Nat.add_comm. }
    rewrite Hr. clear Hr.
    split_and!; try done.
    + do 3 f_equal. unfold reading. f_equal. lia.
    + intros Hk. by rewrite (Hk 1%nat).
Qed.

Lemma updateVideoTime_advances_witness :
  storedVideo "lobby1" demoWorld = Some demoPlaying
  ∧ VideoState.currentTime demoPlaying = Qc_of_Z 10
  ∧ reading demoWorld 0 - VideoState.lastUpdateTime demoPlaying = 2000
  ∧ VideoState.currentTime (result (updateVideoTime "lobby1") demoWorld) = Qc_of_Z 12
  ∧ VideoState.lastUpdateTime (result (updateVideoTime "lobby1") demoWorld) = 3000.
Proof.
  assert (storedVideo "lobby1" demoWorld = Some demoPlaying) as H by reflexivity.
  destruct (proj1
    (updateVideoTime_advances_clamps_loops_persists "lobby1" demoPlaying demoWorld H)
    eq_refl) as (Hpos & Hlast & _).
  split_and!; [exact H|reflexivity|reflexivity| |exact Hlast].
  rewrite Hpos. apply Qc_is_canon. reflexivity.
Defined.

Example updateVideoTime_demo :
  result (updateVideoTime "lobby1") demoWorld
  = VideoState.mk true (Qc_of_Z 12) (Qc_of_Z 596) 3001 3000.
Proof.
  unfold result.
  rewrite (updateVideoTime_run "lobby1" demoPlaying) by reflexivity.
  cbn [VideoState.isPlaying demoPlaying fst]. rewrite advance_eq.
  assert (moved (reading demoWorld 0) demoPlaying = Qc_of_Z 12) as ->
    by (apply Qc_is_canon; reflexivity).
  case_decide as Hle; [by vm_compute in Hle|]. reflexivity.
Qed.

(** *** Keys of different rooms are different *)

Lemma length_append (s t : string) :
  String.length (s +:+ t) = (String.length s + String.length t)%nat.
Proof. induction s as [|c s IH]; simpl; [done|]. by f_equal. Qed.

Lemma append_inj_r (t s1 s2 : string) : s1 +:+ t = s2 +:+ t → s1 = s2.
Proof.
  revert s2. induction s1 as [|c s1 IH]; intros [|c' s2] Heq; simpl in Heq.
  - done.
  - apply (f_equal String.length) in Heq.
    rewrite ?length_append in Heq. simpl in Heq. rewrite ?length_append in Heq. lia.
  - apply (f_equal String.length) in Heq.
    rewrite ?length_append in Heq. simpl in Heq. rewrite ?length_append in Heq. lia.
  - injection Heq as -> Heq. f_equal. by apply IH.
Qed.

Lemma roomVideo_inj (a b : string) : KEYS.roomVideo a = KEYS.roomVideo b → a = b.
Proof.
  unfold KEYS.roomVideo. intros Heq.
  apply (String.app_inj "room:") in Heq. by apply append_inj_r in Heq.
Qed.

Lemma storedVideo_putVideo_ne roomId other s w :
  other ≠ roomId →
  storedVideo roomId (putVideo other s w) = storedVideo roomId w.
Proof.
  intros Hne. unfold storedVideo, putVideo. unfold_redis.
  destruct w as [clk n rc flag lr lu lv lb ca cb em]; cbn.
  destruct flag, rc as [[[] d]|]; cbn; try done;
    rewrite lookup_insert_ne; try done.
  intros Heq. by apply roomVideo_inj in Heq.
Qed.

Lemma storedVideo_with_emitted roomId l w :
  storedVideo roomId (with_emitted l w) = storedVideo roomId w.
Proof. done. Qed.

(** *** [updateVideoTime] on a room without a stored state *)

Lemma getVideoState_absent roomId w :
  storedVideo roomId w = None →
  getVideoState roomId w =
    (VideoState.mk false 0%Qc (Qc_of_Z 596) (reading w 0) (reading w 1),
     with_reads (2 + reads w) w).
Proof.
  unfold storedVideo, getVideoState, getDefaultVideoState, reading.
  unfold_redis. unfold_M.
  destruct w as [clk n rc flag lr lu lv lb ca cb em]; cbn.
  intros H. rewrite Nat.add_0_r, Nat.add_1_r.
  destruct flag, rc as [[[] d]|]; cbn in *; rewrite ?H; try done.
  unfold Redis.get. destruct (Redis.strings d !! _) as [[? ?]|]; cbn in *; [|done].
  by rewrite H.
Qed.

Lemma setVideoState_absent roomId s w :
  storedVideo roomId w = None →
  setVideoState roomId (VideoState.full s) w =
    (VideoState.set_serverTimestamp (reading w 2) s,
     putVideo roomId (VideoState.set_serverTimestamp (reading w 2) s)
       (with_reads (3 + reads w) w)).
Proof.
  intros H. unfold setVideoState.
  rewrite bind_run, (getVideoState_absent _ _ H). cbn [fst snd].
  unfold putVideo, reading. unfold_redis. unfold_M.
  destruct w as [clk n rc flag lr lu lv lb ca cb em]; cbn.
  rewrite (Nat.add_comm n 2).
  destruct flag, rc as [[[] d]|]; cbn; done.
Qed.

Lemma updateVideoTime_run_absent roomId w :
  storedVideo roomId w = None →
  updateVideoTime roomId w =
    let ret := VideoState.mk false 0%Qc (Qc_of_Z 596) (reading w 2) (reading w 1) in
    (ret, putVideo roomId (VideoState.set_serverTimestamp (reading w 5) ret)
            (with_reads (6 + reads w) w)).
Proof.
  intros H. unfold updateVideoTime.
  rewrite bind_run, (getVideoState_absent _ _ H). cbn [fst snd VideoState.isPlaying].
  rewrite !bind_run. cbn [Date_now mret M_ret fst snd].
  rewrite setVideoState_absent by (rewrite !storedVideo_with_reads; exact H).
  cbn [fst snd]. unfold reading. cbn.
  by rewrite !(Nat.add_comm (reads w)).
Qed.

(** The world [updateVideoTime] leaves: a write of the room's state into the
    world it started from, some clock readings later. *)
Lemma updateVideoTime_after roomId w :
  ∃ s k, (reads w < k)%nat ∧
    after (updateVideoTime roomId) w = putVideo roomId s (with_reads k w).
Proof.
  unfold after. destruct (storedVideo roomId w) as [st|] eqn:H.
  - rewrite (updateVideoTime_run _ _ _ H).
    destruct (VideoState.isPlaying st); cbn [snd]; eexists _, _; (split; [|done]); lia.
  - rewrite (updateVideoTime_run_absent _ _ H). cbn [snd].
    eexists _, _; (split; [|done]); lia.
Qed.

(** *** The periodic tick on a paused room *)

Lemma forEach_invariant {A : Type} (P : World → Prop) (body : A → M unit) (xs : list A) :
  (∀ x w, P w → P (after (body x) w)) →
  ∀ w, P w → P (after (forEach body xs) w).
Proof.
  intros Hbody. induction xs as [|x xs IH]; intros w Hw; [done|].
  unfold after in *. cbn [forEach]. rewrite bind_run. apply IH, Hbody, Hw.
Qed.

Lemma getAllRooms_world w : (getAllRooms w).2 = w.
Proof.
  unfold getAllRooms. unfold_redis. unfold_M.
  destruct w as [clk n rc flag lr lu lv lb ca cb em]; cbn.
  by destruct flag, rc as [[[] d]|].
Qed.

Lemma updateVideoTime_keeps_paused roomId st other w :
  VideoState.isPlaying st = false →
  holdsUpToStamp roomId st w →
  holdsUpToStamp roomId st (after (updateVideoTime other) w).
Proof.
  intros Hp [ts H]. destruct (decide (other = roomId)) as [->|Hne].
  - unfold holdsUpToStamp, after. rewrite (updateVideoTime_run _ _ _ H).
    cbn [VideoState.isPlaying VideoState.set_serverTimestamp]. rewrite Hp. cbn [snd].
    rewrite storedVideo_putVideo. by eexists.
  - unfold holdsUpToStamp.
    destruct (updateVideoTime_after other w) as (s & k & _ & ->).
    rewrite storedVideo_putVideo_ne, storedVideo_with_reads by done. by exists ts.
Qed.

Lemma videoTick_keeps_paused roomId st w :
  VideoState.isPlaying st = false →
  holdsUpToStamp roomId st w →
  holdsUpToStamp roomId st (after videoTick w).
Proof.
  intros Hp H. unfold after, videoTick. rewrite bind_run, getAllRooms_world.
  apply (forEach_invariant (holdsUpToStamp roomId st)); [|done].
  clear w H. intros room w H. unfold after. rewrite bind_run.
  apply (updateVideoTime_keeps_paused _ _ (Room.id room)) in H; [|done].
  unfold after in H. destruct H as [ts H]. exists ts. by unfold_M.
Qed.

(** C9.  For every room whose stored video state [st] is paused,
    [updateVideoTime] returns and persists [st] with only [serverTimestamp]
    replaced by a clock reading: [currentTime], [duration], [lastUpdateTime]
    and [isPlaying] are unchanged.  Hence after any number of periodic ticks
    the room still holds [st] up to [serverTimestamp]: the position of a
    paused room does not drift. *)
Theorem updateVideoTime_paused_only_stamps roomId st w :
  storedVideo roomId w = Some st →
  VideoState.isPlaying st = false →
  result (updateVideoTime roomId) w = VideoState.set_serverTimestamp (reading w 0) st
  ∧ storedVideo roomId (after (updateVideoTime roomId) w)
    = Some (VideoState.set_serverTimestamp (reading w 1) st)
  ∧ ∀ n, ∃ ts, storedVideo roomId (Nat.iter n (after videoTick) w)
               = Some (VideoState.set_serverTimestamp ts st).
Proof.
  intros H Hp. unfold result, after at 1.
  rewrite (updateVideoTime_run _ _ _ H), Hp. cbn [fst snd].
  rewrite storedVideo_putVideo. split_and!; [done..|].
  intros n. induction n as [|n IH].
  - exists (VideoState.serverTimestamp st). by destruct st.
  - cbn [Nat.iter]. by apply videoTick_keeps_paused.
Qed.

Lemma updateVideoTime_paused_witness :
  storedVideo "lobby2" demoWorld = Some demoPaused
  ∧ result (updateVideoTime "lobby2") demoWorld
    = VideoState.mk false (Qc_of_Z 42) (Qc_of_Z 596) 3000 1000.
Proof.
  assert (storedVideo "lobby2" demoWorld = Some demoPaused) as H by reflexivity.
  split; [exact H|].
  exact (proj1 (updateVideoTime_paused_only_stamps "lobby2" demoPaused demoWorld H eq_refl)).
Defined.

(* ================================================================== *)
(** ** createRoom *)
(* ================================================================== *)

Lemma getRoom_run roomId w : getRoom roomId w = (storedRoom roomId w, w).
Proof.
  unfold storedRoom, getRoom. unfold_redis. unfold_M.
  destruct w as [clk n rc flag lr lu lv lb ca cb em]; cbn.
  destruct flag, rc as [[[] d]|]; cbn in *; try done.
  unfold Redis.get. by destruct (Redis.strings d !! _) as [[? ?]|].
Qed.

Lemma createRoom_run roomId creatorId options w :
  let roomData :=
    Room.mk roomId (name_or (RoomOptions.name options) ("Room " +:+ roomId))
      creatorId (reading w 0) (number_or (RoomOptions.maxUsers options) 10000)
      (not_false (RoomOptions.isPublic options)) in
  result (createRoom roomId creatorId options) w = roomData
  ∧ storedRoom roomId (after (createRoom roomId creatorId options) w) = Some roomData
  ∧ reads (after (createRoom roomId creatorId options) w) = S (reads w)
  ∧ clock (after (createRoom roomId creatorId options) w) = clock w.
Proof.
  unfold storedRoom, createRoom, reading. unfold_redis. unfold_M.
  destruct w as [clk n rc flag lr lu lv lb ca cb em]; cbn.
  rewrite Nat.add_0_r.
  destruct flag, rc as [[[] d]|]; cbn; rewrite ?lookup_insert_eq; done.
Qed.

(** Whatever the world, two calls of [createRoom] for the same id leave the
    room of the second call under that id: its creator, its options and its
    [createdAt], which is the clock reading of the second call. *)
Lemma createRoom_twice_keeps_second roomId creator1 creator2 options1 options2 w :
  let w1 := after (createRoom roomId creator1 options1) w in
  let first := result (createRoom roomId creator1 options1) w in
  let second := result (createRoom roomId creator2 options2) w1 in
  let w2 := after (createRoom roomId creator2 options2) w1 in
  result (getRoom roomId) w2 = Some second
  ∧ Room.createdBy second = creator2
  ∧ Room.createdAt second = reading w 1
  ∧ Room.createdAt first = reading w 0.
Proof.
  intros w1 first second w2. subst w1 first second w2.
  destruct (createRoom_run roomId creator1 options1 w) as (Hr1 & _ & Hn1 & Hc1).
  destruct (createRoom_run roomId creator2 options2
              (after (createRoom roomId creator1 options1) w)) as (Hr2 & Hs2 & _ & _).
  cbv zeta in *. unfold result at 1. rewrite getRoom_run. cbn [fst].
  rewrite Hs2, Hr2, Hr1. cbn. split_and!; try done.
  unfold reading. rewrite Hn1, Hc1. f_equal. lia.
Qed.

(** C2 (the code departs from the claim, which asks that the first writer
    wins).  On a fresh standalone process alice creates room "r" when the
    clock reads 1000 and bob creates it again when the clock reads 2000:
    after the first call the room carries alice and [createdAt = 1000], after
    the second call it carries bob and [createdAt = 2000].  [createRoom]
    overwrites; the guard that keeps the first room is in its callers
    ([joinRoom], [ensureDefaultRoom]). *)
Theorem createRoom_twice_second_writer_wins :
  let w0 := boot (λ n, 1000 * (1 + Z.of_nat n)) in
  let w1 := after (createRoom "r" "alice" RoomOptions.empty) w0 in
  let w2 := after (createRoom "r" "bob" RoomOptions.empty) w1 in
  result (getRoom "r") w1 = Some (Room.mk "r" "Room r" "alice" 1000 10000 true)
  ∧ result (getRoom "r") w2 = Some (Room.mk "r" "Room r" "bob" 2000 10000 true).
Proof. split; reflexivity. Qed.

(** The guarded creation of the callers does keep the first room. *)
Lemma ensureDefaultRoom_keeps_existing room w :
  storedRoom DEFAULT_ROOM_ID w = Some room →
  after ensureDefaultRoom w = w.
Proof.
  intros H. unfold after, ensureDefaultRoom.
  by rewrite bind_run, getRoom_run; cbn [fst snd]; rewrite H.
Qed.

(* ================================================================== *)
(** ** deleteRoom *)
(* ================================================================== *)

Lemma hGetAll_hDel key field d :
  Redis.hGetAll key (Redis.hDel key field d) = delete field (Redis.hGetAll key d).
Proof.
  unfold Redis.hGetAll, Redis.hDel.
  destruct (Redis.hashes d !! key) as [[h t]|] eqn:Hk; cbn.
  - case_decide as Hsz; cbn.
    + rewrite lookup_delete_eq. cbn. symmetry. by apply map_size_empty_inv.
    + by rewrite lookup_insert_eq.
  - rewrite Hk. cbn. by rewrite delete_empty.
Qed.

Lemma hGetAll_del key k d :
  Redis.hGetAll key (Redis.del k d)
  = if decide (k = key) then ∅ else Redis.hGetAll key d.
Proof.
  unfold Redis.hGetAll, Redis.del. cbn. rewrite lookup_delete.
  by case_decide.
Qed.

Lemma getAllRooms_run w :
  getAllRooms w = ((map_to_list (roomIndex w)).*2, w)
  ∨ (connected w = true ∧
     getAllRooms w
     = (omap parse (map_to_list (Redis.hGetAll KEYS.allRooms (redisDb w))).*2, w)).
Proof.
  unfold getAllRooms, roomIndex. unfold_redis. unfold_M.
  destruct w as [clk n rc flag lr lu lv lb ca cb em]; cbn.
  destruct flag, rc as [[[] d]|]; cbn; auto.
Qed.

Lemma elem_of_getAllRooms room w :
  room ∈ result getAllRooms w → ∃ k, roomIndex w !! k = Some room.
Proof.
  unfold result. destruct (getAllRooms_run w) as [->|[Hc ->]]; cbn [fst].
  - intros ([k r] & -> & Hin)%list_elem_of_fmap.
    apply elem_of_map_to_list in Hin. by exists k.
  - intros (d & Hin & Hp)%list_elem_of_omap.
    apply list_elem_of_fmap in Hin as ([k d'] & -> & Hin).
    apply elem_of_map_to_list in Hin. exists k.
    unfold roomIndex. rewrite Hc, lookup_omap, Hin. done.
Qed.

Lemma deleteRoom_run roomId w :
  after (deleteRoom roomId) w =
    if connected w then
      with_redisClient (Redis.on_db (deleteRoomCommands roomId) <$> redisClient w) w
    else
      with_localVideoStates (delete roomId (localVideoStates w))
        (with_localRoomUsers (delete roomId (localRoomUsers w))
          (with_localRooms (delete roomId (localRooms w)) w)).
Proof.
  unfold deleteRoom, deleteRoomCommands. unfold_redis. unfold_M.
  destruct w as [clk n rc flag lr lu lv lb ca cb em]; cbn.
  by destruct flag, rc as [[[] d]|].
Qed.

Lemma strings_deleteRoomCommands roomId key d :
  key ∈ [KEYS.roomMeta roomId; KEYS.roomVideo roomId] →
  Redis.strings (deleteRoomCommands roomId d) !! key = None.
Proof.
  intros Hkey. unfold deleteRoomCommands, Redis.del; cbn.
  rewrite !lookup_delete_None.
  apply list_elem_of_In in Hkey. cbn in Hkey.
  destruct Hkey as [<-|[<-|[]]]; auto.
Qed.

Lemma hGetAll_deleteRoomCommands_own roomId key d :
  key ∈ [KEYS.roomUsers roomId; KEYS.roomCursors roomId] →
  Redis.hGetAll key (deleteRoomCommands roomId d) = ∅.
Proof.
  intros Hkey. unfold deleteRoomCommands.
  rewrite !hGetAll_del. apply list_elem_of_In in Hkey. cbn in Hkey.
  destruct Hkey as [<-|[<-|[]]]; repeat case_decide; done.
Qed.

Lemma hGetAll_deleteRoomCommands_index roomId d k doc :
  Redis.hGetAll KEYS.allRooms (deleteRoomCommands roomId d) !! k = Some doc →
  k ≠ roomId ∧ Redis.hGetAll KEYS.allRooms d !! k = Some doc.
Proof.
  unfold deleteRoomCommands. rewrite !hGetAll_del, hGetAll_hDel.
  repeat case_decide; rewrite ?lookup_empty; try done.
  by intros [? ?]%lookup_delete_Some.
Qed.

Lemma roomIndex_deleteRoom roomId w k room :
  roomIndex (after (deleteRoom roomId) w) !! k = Some room →
  k ≠ roomId ∧ roomIndex w !! k = Some room.
Proof.
  rewrite deleteRoom_run. unfold roomIndex. unfold_redis.
  destruct w as [clk n rc flag lr lu lv lb ca cb em]; cbn.
  destruct flag, rc as [[[] d]|]; cbn; try by intros [? ?]%lookup_delete_Some.
  rewrite !lookup_omap.
  destruct (Redis.hGetAll KEYS.allRooms (deleteRoomCommands roomId d) !! k)
    as [doc|] eqn:Hk; [|done].
  apply hGetAll_deleteRoomCommands_index in Hk as [Hne ->]. done.
Qed.

(** C6.  For every room [r] and every world, once [deleteRoom(r)] has
    completed: [getRoom(r)] returns null; [getRoomUsers(r)] and
    [getRoomCursors(r)] return empty mappings; no video state is stored for
    [r], so [getVideoState(r)] yields the default state (paused, position 0,
    duration 596, stamped with the clock readings of that call); and [r] is
    no longer a field of the enumeration behind [getAllRooms], so that, the
    rooms being filed under their own ids, no room returned by
    [getAllRooms] has id [r]. *)
Theorem deleteRoom_leaves_nothing roomId w :
  let w' := after (deleteRoom roomId) w in
  result (getRoom roomId) w' = None
  ∧ result (getRoomUsers roomId) w' = ∅
  ∧ result (getRoomCursors roomId) w' = ∅
  ∧ storedVideo roomId w' = None
  ∧ result (getVideoState roomId) w'
    = VideoState.mk false 0%Qc (Qc_of_Z 596) (reading w' 0) (reading w' 1)
  ∧ roomIndex w' !! roomId = None
  ∧ (indexedById w →
     ∀ room, room ∈ result getAllRooms w' → Room.id room ≠ roomId).
Proof.
  intros w'.
  assert (storedVideo roomId w' = None) as Hvideo.
  { subst w'. rewrite deleteRoom_run. unfold storedVideo. unfold_redis.
    destruct w as [clk n rc flag lr lu lv lb ca cb em]; cbn.
    destruct flag, rc as [[[] d]|]; cbn; rewrite ?lookup_delete_eq; try done.
    rewrite strings_deleteRoomCommands; [done|]. set_solver. }
  assert (roomIndex w' !! roomId = None) as Hindex.
  { destruct (roomIndex w' !! roomId) as [room|] eqn:Hk; [|done].
    by apply roomIndex_deleteRoom in Hk as [? _]. }
  split_and!; try done.
  - unfold result. rewrite getRoom_run. cbn [fst].
    subst w'. rewrite deleteRoom_run. unfold storedRoom. unfold_redis.
    destruct w as [clk n rc flag lr lu lv lb ca cb em]; cbn.
    destruct flag, rc as [[[] d]|]; cbn; rewrite ?lookup_delete_eq; try done.
    rewrite strings_deleteRoomCommands; [done|]. set_solver.
  - subst w'. rewrite deleteRoom_run. unfold result, getRoomUsers.
    unfold_redis. unfold_M.
    destruct w as [clk n rc flag lr lu lv lb ca cb em]; cbn.
    destruct flag, rc as [[[] d]|]; cbn; rewrite ?lookup_delete_eq; try done.
    rewrite hGetAll_deleteRoomCommands_own; [by rewrite omap_empty|]. set_solver.
  - subst w'. rewrite deleteRoom_run. unfold result, getRoomCursors.
    unfold_redis. unfold_M.
    destruct w as [clk n rc flag lr lu lv lb ca cb em]; cbn.
    destruct flag, rc as [[[] d]|]; cbn; try done.
    rewrite hGetAll_deleteRoomCommands_own; [by rewrite omap_empty|]. set_solver.
  - unfold result. by rewrite (getVideoState_absent _ _ Hvideo).
  - intros Hwf room Hin. apply elem_of_getAllRooms in Hin as [k Hk].
    apply roomIndex_deleteRoom in Hk as [Hne Hk].
    by rewrite (Hwf _ _ Hk).
Qed.

Lemma hGetAll_hSet key field doc d :
  Redis.hGetAll key (Redis.hSet key field doc d) = <[field := doc]> (Redis.hGetAll key d).
Proof.
  unfold Redis.hGetAll, Redis.hSet.
  destruct (Redis.hashes d !! key) as [[h t]|]; cbn; by rewrite lookup_insert_eq.
Qed.

Lemma roomIndex_createRoom roomId creatorId options w :
  roomIndex (after (createRoom roomId creatorId options) w)
  = <[roomId := result (createRoom roomId creatorId options) w]> (roomIndex w).
Proof.
  unfold roomIndex, createRoom. unfold_redis. unfold_M.
  destruct w as [clk n rc flag lr lu lv lb ca cb em];
    cbn -[Redis.hSet Redis.set_ex Redis.hGetAll].
  destruct flag, rc as [[[] d]|]; cbn -[Redis.hSet Redis.set_ex Redis.hGetAll]; try done.
  change (Redis.hGetAll KEYS.allRooms (Redis.set_ex ?k ?v ?t ?d'))
    with (Redis.hGetAll KEYS.allRooms d').
  rewrite hGetAll_hSet. apply map_eq. intros k.
  rewrite lookup_omap, !lookup_insert. case_decide; [done|].
  by rewrite lookup_omap.
Qed.

Lemma indexedById_boot clk : indexedById (boot clk).
Proof. intros k room. unfold roomIndex. cbn. by rewrite lookup_empty. Qed.

Lemma indexedById_createRoom roomId creatorId options w :
  indexedById w → indexedById (after (createRoom roomId creatorId options) w).
Proof.
  intros Hwf k room. rewrite roomIndex_createRoom.
  rewrite lookup_insert. case_decide as Hk.
  - intros [= <-]. subst k.
    by destruct (createRoom_run roomId creatorId options w) as [-> _].
  - apply Hwf.
Qed.

Lemma deleteRoom_leaves_nothing_witness :
  indexedById demoRooms
  ∧ ∀ room, room ∈ result getAllRooms (after (deleteRoom "r") demoRooms) →
            Room.id room ≠ "r".
Proof.
  assert (indexedById demoRooms) as Hwf
    by apply indexedById_createRoom, indexedById_boot.
  split; [exact Hwf|].
  exact (proj2 (proj2 (proj2 (proj2 (proj2 (proj2
    (deleteRoom_leaves_nothing "r" demoRooms)))))) Hwf).
Defined.

(* ================================================================== *)
(** ** checkRateLimit *)
(* ================================================================== *)

Lemma rateLimitKey_inj userId1 action1 userId2 action2 :
  rateLimitKey userId1 action1 = rateLimitKey userId2 action2 →
  userId1 = userId2 ∧ action1 = action2.
Proof.
  unfold rateLimitKey. intros Heq.
  apply (String.app_inj "ratelimit:") in Heq.
  destruct action1, action2; simpl in Heq; by simplify_eq.
Qed.

Lemma incr_count key d :
  (Redis.incr key d).1 = (default (0, None) (Redis.counters d !! key)).1 + 1.
Proof. unfold Redis.incr. by destruct (default _ _). Qed.

Lemma counters_incr key d k :
  Redis.counters (Redis.incr key d).2 !! k
  = if decide (key = k)
    then Some ((default (0, None) (Redis.counters d !! key)).1 + 1,
               (default (0, None) (Redis.counters d !! key)).2)
    else Redis.counters d !! k.
Proof.
  unfold Redis.incr. destruct (default _ _) as [n t]. cbn.
  by rewrite lookup_insert.
Qed.

Lemma counters_expire key seconds d k :
  Redis.counters (Redis.expire key seconds d) !! k
  = if decide (key = k)
    then (λ e, (e.1, Some seconds)) <$> Redis.counters d !! key
    else Redis.counters d !! k.
Proof.
  unfold Redis.expire, Redis.touch. cbn.
  destruct (Redis.counters d !! key) as [[v t]|] eqn:Hk.
  - rewrite lookup_insert. by case_decide.
  - case_decide; [by subst|done].
Qed.

Lemma checkRateLimit_cluster userId action w :
  connected w = true →
  let key := rateLimitKey userId action in
  let config := LIMITS action in
  let res := result (checkRateLimit userId action) w in
  let w' := after (checkRateLimit userId action) w in
  let windowSeconds := Math.ceil_div (RateLimitConfig.windowMs config) 1000 in
  let old := default (0, None) (redisCounter key w) in
  RateLimitResult.count res = old.1 + 1
  ∧ redisCounter key w'
    = Some (old.1 + 1, if decide (old.1 + 1 = 1) then Some windowSeconds else old.2)
  ∧ (∀ k, k ≠ key → redisCounter k w' = redisCounter k w)
  ∧ localBuckets w' = localBuckets w.
Proof.
  unfold checkRateLimit, redisCounter, incrementLocalBucket. unfold_redis. unfold_M.
  destruct w as [clk m rc flag lr lu lv lb ca cb em]; cbn -[Redis.incr Redis.expire].
  destruct flag, rc as [[[] d]|]; cbn -[Redis.incr Redis.expire]; try done. intros _.
  rewrite incr_count.
  set (old := default (0, None) (Redis.counters d !! rateLimitKey userId action)).
  case_decide as H1; cbn -[Redis.incr Redis.expire].
  - split_and!; try done.
    + rewrite counters_expire, decide_True by done.
      rewrite counters_incr, decide_True by done. done.
    + intros k Hne.
      rewrite counters_expire, decide_False by done.
      by rewrite counters_incr, decide_False.
  - split_and!; try done.
    + by rewrite counters_incr, decide_True.
    + intros k Hne. by rewrite counters_incr, decide_False.
Qed.

Lemma checkRateLimit_standalone userId action w :
  connected w = false →
  let key := rateLimitKey userId action in
  let config := LIMITS action in
  let res := result (checkRateLimit userId action) w in
  let w' := after (checkRateLimit userId action) w in
  let now := reading w 0 in
  let fresh := LocalBucket.mk 1 (now + RateLimitConfig.windowMs config) in
  let bucket' :=
    match localBuckets w !! key with
    | Some b =>
        if decide (LocalBucket.resetAt b < now) then fresh
        else LocalBucket.mk (LocalBucket.count b + 1) (LocalBucket.resetAt b)
    | None => fresh
    end in
  RateLimitResult.count res = LocalBucket.count bucket'
  ∧ localBuckets w' !! key = Some bucket'
  ∧ (∀ k, k ≠ key → localBuckets w' !! k = localBuckets w !! k)
  ∧ redisClient w' = redisClient w.
Proof.
  unfold checkRateLimit, incrementLocalBucket, reading. unfold_redis. unfold_M.
  destruct w as [clk m rc flag lr lu lv lb ca cb em]; cbn.
  rewrite Nat.add_0_r. intros Hc.
  assert ((flag && from_option Redis.isOpen false rc) = false) as -> by done.
  cbn.
  destruct (lb !! rateLimitKey userId action) as [b|]; [case_decide|]; cbn;
    rewrite lookup_insert_eq; split_and!; try done;
    intros k Hne; by rewrite lookup_insert_ne.
Qed.

(** C4.  For every user id and every action, with the table cursor 20/1s,
    reaction 5/1s, sync 10/1s, message 30/1s, roomJoin 5/10s, videoControl
    10/1s: [checkRateLimit] increments the fixed-window counter kept under
    the key of (action, user id) and leaves every other counter alone; the
    first increment of a window gives the counter a time-to-live of
    [ceil(windowMs / 1000)] seconds (cluster mode: the Redis key starts at 1
    and gets that TTL; standalone mode: the bucket starts at 1 and resets
    [windowMs = 1000 * ceil(windowMs / 1000)] milliseconds after the clock
    reading), later increments keep the time-to-live; the call reports
    allowed exactly when the count after the increment is at most the
    action's max; and the reported [resetIn], in particular on denial, is
    the action's [windowMs].  The key of (action, user id) is the string
    [ratelimit:<action>:<user id>], and the counter of any other pair of
    user and action is left as it was: every user has a counter of its own
    for every action. *)
Theorem checkRateLimit_fixed_window userId action w :
  let key := rateLimitKey userId action in
  let config := LIMITS action in
  let res := result (checkRateLimit userId action) w in
  let w' := after (checkRateLimit userId action) w in
  let windowSeconds := Math.ceil_div (RateLimitConfig.windowMs config) 1000 in
  (RateLimitConfig.max config, RateLimitConfig.windowMs config, windowSeconds)
    = match action with
      | cursor => (20, 1000, 1)
      | reaction => (5, 1000, 1)
      | sync => (10, 1000, 1)
      | message => (30, 1000, 1)
      | roomJoin => (5, 10000, 10)
      | videoControl => (10, 1000, 1)
      end
  ∧ (RateLimitResult.allowed res = true
     ↔ RateLimitResult.count res ≤ RateLimitConfig.max config)
  ∧ (RateLimitResult.allowed res = false
     → RateLimitResult.resetIn res = RateLimitConfig.windowMs config)
  ∧ (connected w = true →
     match redisCounter key w with
     | None =>
         RateLimitResult.count res = 1
         ∧ redisCounter key w' = Some (1, Some windowSeconds)
     | Some (n, ttl) =>
         RateLimitResult.count res = n + 1
         ∧ redisCounter key w'
           = Some (n + 1, if decide (n + 1 = 1) then Some windowSeconds else ttl)
     end
     ∧ ∀ k, k ≠ key → redisCounter k w' = redisCounter k w)
  ∧ (connected w = false →
     let now := reading w 0 in
     match localBuckets w !! key with
     | Some b =>
         if decide (LocalBucket.resetAt b < now) then
           RateLimitResult.count res = 1
           ∧ localBuckets w' !! key
             = Some (LocalBucket.mk 1 (now + 1000 * windowSeconds))
         else
           RateLimitResult.count res = LocalBucket.count b + 1
           ∧ localBuckets w' !! key
             = Some (LocalBucket.mk (LocalBucket.count b + 1) (LocalBucket.resetAt b))
     | None =>
         RateLimitResult.count res = 1
         ∧ localBuckets w' !! key
           = Some (LocalBucket.mk 1 (now + 1000 * windowSeconds))
     end
     ∧ ∀ k, k ≠ key → localBuckets w' !! k = localBuckets w !! k)
  ∧ key = match action with
          | cursor => "ratelimit:cursor:"
          | reaction => "ratelimit:reaction:"
          | sync => "ratelimit:sync:"
          | message => "ratelimit:message:"
          | roomJoin => "ratelimit:roomJoin:"
          | videoControl => "ratelimit:videoControl:"
          end +:+ userId
  ∧ (∀ userId' action', (userId', action') ≠ (userId, action) →
       redisCounter (rateLimitKey userId' action') w'
       = redisCounter (rateLimitKey userId' action') w
       ∧ localBuckets w' !! rateLimitKey userId' action'
         = localBuckets w !! rateLimitKey userId' action').
Proof.
  intros key config res w' windowSeconds.
  assert (1000 * windowSeconds = RateLimitConfig.windowMs config) as Hms
    by (subst windowSeconds config; by destruct action).
  assert (∀ userId' action', (userId', action') ≠ (userId, action) →
            rateLimitKey userId' action' ≠ key) as Hkeys.
  { intros userId' action' Hne Heq. apply Hne.
    apply rateLimitKey_inj in Heq as [-> ->]. done. }
  split_and!.
  - subst windowSeconds config. by destruct action.
  - subst res. unfold result, checkRateLimit. rewrite !bind_run. cbn.
    by rewrite bool_decide_eq_true.
  - intros _. subst res. unfold result, checkRateLimit. by rewrite !bind_run.
  - intros Hc.
    destruct (checkRateLimit_cluster userId action w Hc) as (Hcount & Hkey & Hother & _).
    fold key res w' in Hcount, Hkey, Hother. split; [|done].
    destruct (redisCounter key w) as [[n ttl]|]; cbn in *; done.
  - intros Hc now.
    destruct (checkRateLimit_standalone userId action w Hc) as (Hcount & Hkey & Hother & _).
    fold key res w' config now in Hcount, Hkey, Hother. split; [|done].
    rewrite Hms.
    destruct (localBuckets w !! key) as [b|]; [case_decide|]; done.
  - subst key. by destruct action.
  - intros userId' action' Hne. specialize (Hkeys _ _ Hne).
    destruct (connected w) eqn:Hc.
    + destruct (checkRateLimit_cluster userId action w Hc) as (_ & _ & Hother & Hlocal).
      fold key w' in Hother, Hlocal. by rewrite Hlocal, Hother.
    + destruct (checkRateLimit_standalone userId action w Hc)
        as (_ & _ & Hother & Hclient).
      fold key w' in Hother, Hclient. split; [|by apply Hother].
      unfold redisCounter, redisDb. by rewrite Hclient.
Qed.

Lemma checkRateLimit_fixed_window_witness :
  connected demoCluster = true
  ∧ connected (boot (λ _, 7000)) = false
  ∧ redisCounter "ratelimit:roomJoin:u1"
      (after (checkRateLimit "u1" roomJoin) demoCluster) = Some (1, Some 10)
  ∧ localBuckets (after (checkRateLimit "u1" roomJoin) (boot (λ _, 7000)))
      !! "ratelimit:roomJoin:u1" = Some (LocalBucket.mk 1 17000)
  ∧ redisCounter "ratelimit:roomJoin:u2"
      (after (checkRateLimit "u1" roomJoin) demoCluster) = None
  ∧ localBuckets (after (checkRateLimit "u1" roomJoin) (boot (λ _, 7000)))
      !! "ratelimit:cursor:u1" = None.
Proof.
  assert (connected demoCluster = true) as Hc by reflexivity.
  assert (connected (boot (λ _, 7000)) = false) as Hs by reflexivity.
  split_and!; [exact Hc|exact Hs|..].
  - exact (proj2 (proj1 (proj1 (proj2 (proj2 (proj2
      (checkRateLimit_fixed_window "u1" roomJoin demoCluster)))) Hc))).
  - exact (proj2 (proj1 (proj1 (proj2 (proj2 (proj2 (proj2
      (checkRateLimit_fixed_window "u1" roomJoin (boot (λ _, 7000))))))) Hs))).
  - exact (proj1 (proj2 (proj2 (proj2 (proj2 (proj2 (proj2
      (checkRateLimit_fixed_window "u1" roomJoin demoCluster))))))
      "u2" roomJoin ltac:(discriminate))).
  - exact (proj2 (proj2 (proj2 (proj2 (proj2 (proj2 (proj2
      (checkRateLimit_fixed_window "u1" roomJoin (boot (λ _, 7000))))))))
      "u1" cursor ltac:(discriminate))).
Defined.

(** Six reactions of one user within one window: five are allowed, the
    sixth is denied with [resetIn = 1000]; in both modes. *)
Example reaction_sixth_denied :
  ∀ w, w ∈ [demoCluster; boot (λ _, 7000)] →
  let w4 := Nat.iter 4 (after (checkRateLimit "u1" reaction)) w in
  let fifth := result (checkRateLimit "u1" reaction) w4 in
  let sixth := result (checkRateLimit "u1" reaction) (after (checkRateLimit "u1" reaction) w4) in
  fifth = RateLimitResult.mk true 0 1000 5
  ∧ sixth = RateLimitResult.mk false 0 1000 6.
Proof.
  intros w Hw. apply list_elem_of_In in Hw.
  destruct Hw as [<-|[<-|[]]]; split; vm_compute; reflexivity.
Qed.

(* ================================================================== *)
(** ** checkConnectionLimit *)
(* ================================================================== *)

Lemma checkConnectionLimit_run ip maxPerMinute w :
  checkConnectionLimit ip maxPerMinute w =
    if decide (default 10 maxPerMinute ≤ recentCount (reading w 0) ip w) then
      (false, with_reads (S (reads w)) w)
    else
      (true,
       with_connectionAttempts
         (<["conn:" +:+ ip := recentAttempts (reading w 0) (attemptsOf ip w)
                              ++ [reading w 0]]> (connectionAttempts w))
         (with_reads (S (reads w)) w)).
Proof.
  unfold checkConnectionLimit, recentCount, attemptsOf, reading. unfold_M.
  rewrite Nat.add_0_r. cbn. by case_decide.
Qed.

(** C7 (as amended).  [checkConnectionLimit] admits a connection exactly
    when the number of recorded attempts [t] of the same address (kept
    under [conn:<address>]) that are less than 60 s old, [now - t < 60000]
    at the clock reading [now] of the call, is strictly below the
    threshold.  The threshold of a call
    that passes none is 10; the connection handler of the hub passes 20. *)
Theorem checkConnectionLimit_admits_iff_below_threshold ip maxPerMinute w :
  let now := reading w 0 in
  let attempts := default [] (connectionAttempts w !! ("conn:" +:+ ip)) in
  let recent := Z.of_nat (length (filter (λ t, now - t < 60000) attempts)) in
  (result (checkConnectionLimit ip maxPerMinute) w = true
   ↔ recent < default 10 maxPerMinute)
  ∧ (result (checkConnectionLimit ip None) w = true ↔ recent < 10)
  ∧ (result (admitConnection ip) w = true ↔ recent < 20).
Proof.
  intros now attempts recent.
  change recent with (recentCount (reading w 0) ip w).
  unfold admitConnection, result.
  rewrite !checkConnectionLimit_run. cbn [default].
  split_and!; case_decide; cbn [fst]; unfold id in *; split; (done || lia).
Qed.

(** C7 as stated fails: with the default threshold, ten recent attempts
    (fewer than 20) are already refused. *)
Lemma checkConnectionLimit_default_refuses_ten :
  reading demoTenAttempts 0 = 1000
  ∧ connectionAttempts demoTenAttempts !! "conn:10.0.0.1" = Some (replicate 10 0)
  ∧ Z.of_nat (length (filter (λ t, 1000 - t < 60000) (replicate 10 0))) = 10
  ∧ ¬ (result (checkConnectionLimit "10.0.0.1" None) demoTenAttempts = true
       ↔ Z.of_nat (length (filter (λ t, reading demoTenAttempts 0 - t < 60000)
                             (default [] (connectionAttempts demoTenAttempts
                                            !! "conn:10.0.0.1")))) < 20).
Proof.
  split_and!; [reflexivity..|].
  intros [_ Hadmit].
  assert (result (checkConnectionLimit "10.0.0.1" None) demoTenAttempts = false) as Hno
    by reflexivity.
  rewrite Hno in Hadmit. by discriminate Hadmit.
Qed.

(** C10.  A call of [checkConnectionLimit] that denies admission leaves
    the recorded attempts untouched (only the clock has been read).
    Consequently, after any number of denied calls in a row the history is
    still the one left by the admitted attempts, and the next call is
    admitted exactly when fewer than the threshold of those attempts are
    less than 60 s old: denied attempts do not prolong the denial. *)
Theorem checkConnectionLimit_denial_keeps_history ip maxPerMinute w :
  result (checkConnectionLimit ip maxPerMinute) w = false →
  connectionAttempts (after (checkConnectionLimit ip maxPerMinute) w)
    = connectionAttempts w
  ∧ ∀ n,
      let denied i :=
        result (checkConnectionLimit ip maxPerMinute)
          (Nat.iter i (after (checkConnectionLimit ip maxPerMinute)) w) = false in
      let wn := Nat.iter n (after (checkConnectionLimit ip maxPerMinute)) w in
      (∀ i, (i < n)%nat → denied i) →
      connectionAttempts wn = connectionAttempts w
      ∧ (result (checkConnectionLimit ip maxPerMinute) wn = true
         ↔ Z.of_nat (length (recentAttempts (reading wn 0) (attemptsOf ip w)))
           < default 10 maxPerMinute).
Proof.
  assert (∀ w0, result (checkConnectionLimit ip maxPerMinute) w0 = false →
            connectionAttempts (after (checkConnectionLimit ip maxPerMinute) w0)
            = connectionAttempts w0) as Hstep.
  { intros w0. unfold result, after. rewrite checkConnectionLimit_run.
    by case_decide. }
  intros Hdenied. split; [by apply Hstep|].
  intros n denied wn Hall.
  assert (connectionAttempts wn = connectionAttempts w) as Hsame.
  { subst wn. induction n as [|n IH]; [done|].
    rewrite Nat.iter_succ, Hstep by (apply Hall; lia).
    apply IH. intros i Hi. apply Hall. lia. }
  split; [done|].
  assert (result (checkConnectionLimit ip maxPerMinute) wn = true
          ↔ recentCount (reading wn 0) ip wn < default 10 maxPerMinute) as Hiff.
  { unfold result. rewrite checkConnectionLimit_run.
    case_decide; cbn [fst]; unfold id in *; split; (done || lia). }
  unfold recentCount, attemptsOf in Hiff. rewrite Hsame in Hiff. exact Hiff.
Qed.

Lemma checkConnectionLimit_denial_witness :
  result (checkConnectionLimit "10.0.0.1" None) demoTenAttempts = false
  ∧ connectionAttempts (after (checkConnectionLimit "10.0.0.1" None) demoTenAttempts)
    = connectionAttempts demoTenAttempts.
Proof.
  assert (result (checkConnectionLimit "10.0.0.1" None) demoTenAttempts = false) as H
    by reflexivity.
  split; [exact H|].
  exact (proj1 (checkConnectionLimit_denial_keeps_history "10.0.0.1" None demoTenAttempts H)).
Defined.

(* ================================================================== *)
(** ** POST /api/time *)
(* ================================================================== *)

(** C8 (as amended).  For every POST whose body parses to a JSON value
    other than [null], under a clock that never goes back: the response is
    the 200 object; [serverReceiveTime] is the reading taken at entry and
    [serverSendTime] the next reading, so [serverReceiveTime <=
    serverSendTime]; [clientSendTime] echoes the member of that name of the
    body (and is left out when the body has none);
    [serverProcessingTime = serverSendTime - serverReceiveTime >= 0]. *)
Theorem POST_timestamps_ordered body w :
  nondecreasing (clock w) →
  body ≠ JNull →
  ∃ resp,
    result (POST (Some body)) w = Ok200 resp
    ∧ TimeResponse.serverReceiveTime resp = reading w 0
    ∧ TimeResponse.serverSendTime resp = reading w 1
    ∧ TimeResponse.serverReceiveTime resp ≤ TimeResponse.serverSendTime resp
    ∧ TimeResponse.clientSendTime resp
      = match body with
        | JObject members => member "clientSendTime" members
        | _ => None
        end
    ∧ TimeResponse.serverProcessingTime resp
      = TimeResponse.serverSendTime resp - TimeResponse.serverReceiveTime resp
    ∧ 0 ≤ TimeResponse.serverProcessingTime resp.
Proof.
  intros Hclock Hbody. unfold result, POST, reading. unfold_M.
  rewrite Nat.add_0_r, Nat.add_1_r.
  pose proof (Hclock (reads w)) as Hle.
  destruct w as [clk n rc flag lr lu lv lb ca cb em]; cbn in *.
  destruct body; try done; cbn; eexists; (split; [reflexivity|]); cbn;
    split_and!; try done; lia.
Qed.

Lemma POST_timestamps_ordered_witness :
  nondecreasing (clock demoWorld)
  ∧ JObject [("clientSendTime", JNumber (Qc_of_Z 1000))] ≠ JNull
  ∧ result (POST (Some (JObject [("clientSendTime", JNumber (Qc_of_Z 1000))]))) demoWorld
    = Ok200 (TimeResponse.mk (Some (JNumber (Qc_of_Z 1000))) 3000 3001 1).
Proof.
  assert (nondecreasing (clock demoWorld)) as Hclock.
  { intros n. cbn. lia. }
  assert (JObject [("clientSendTime", JNumber (Qc_of_Z 1000))] ≠ JNull) as Hbody by done.
  split_and!; [exact Hclock|exact Hbody|].
  destruct (POST_timestamps_ordered _ demoWorld Hclock Hbody)
    as (resp & -> & Hrecv & Hsend & _ & Hecho & Hproc & _).
  destruct resp as [echo recv send proc]; cbn in Hrecv, Hsend, Hecho, Hproc.
  subst echo recv send proc. reflexivity.
Defined.

(** C8 as stated fails for the parseable body [null]: destructuring it
    throws, and the handler answers 400 without any timestamp. *)
Lemma POST_null_body_is_rejected :
  result (POST (Some JNull)) demoWorld = BadRequest400 "Invalid request body"
  ∧ ¬ ∃ resp, result (POST (Some JNull)) demoWorld = Ok200 resp.
Proof. split; [reflexivity|]. by intros [resp Hresp]. Qed.

(* ================================================================== *)
(** ** Cursor batching *)
(* ================================================================== *)

Section JSMap_facts.
Context {V : Type}.
Implicit Types (m : JSMap.t V) (k : string) (v : V).

Lemma JSMap_get_set k k' v m :
  JSMap.get k' (JSMap.set k v m) = if decide (k = k') then Some v else JSMap.get k' m.
Proof.
  induction m as [|[k0 v0] m IH]; cbn.
  - by repeat case_decide.
  - destruct (decide (k0 = k)) as [->|Hne]; cbn.
    + by repeat case_decide.
    + rewrite IH. repeat case_decide; congruence.
Qed.

Lemma JSMap_keys_set k v m :
  JSMap.keys (JSMap.set k v m)
  = if decide (k ∈ JSMap.keys m) then JSMap.keys m else JSMap.keys m ++ [k].
Proof.
  unfold JSMap.keys. induction m as [|[k0 v0] m IH]; cbn.
  - rewrite decide_False; [done|]. by intros ?%elem_of_nil.
  - destruct (decide (k0 = k)) as [->|Hne]; cbn.
    + rewrite decide_True; [done|]. by left.
    + rewrite IH. destruct (decide (k ∈ m.*1)) as [Hin|Hin].
      * rewrite decide_True; [done|]. by right.
      * rewrite decide_False; [done|]. by intros [?|?]%elem_of_cons.
Qed.

Lemma JSMap_NoDup_set k v m :
  NoDup (JSMap.keys m) → NoDup (JSMap.keys (JSMap.set k v m)).
Proof.
  intros Hnd. rewrite JSMap_keys_set. case_decide as Hin; [done|].
  apply NoDup_app. split_and!; [done| |apply NoDup_singleton].
  intros x Hx ->%list_elem_of_singleton. done.
Qed.

Lemma JSMap_get_Some k v m :
  NoDup (JSMap.keys m) → (JSMap.get k m = Some v ↔ (k, v) ∈ m).
Proof.
  unfold JSMap.keys. induction m as [|[k0 v0] m IH]; cbn; intros Hnd.
  - split; [done|]. by intros ?%elem_of_nil.
  - apply NoDup_cons in Hnd as [Hk0 Hnd]. case_decide as Hk.
    + subst k0. split.
      * intros [= ->]. by left.
      * intros [[= ->]|Hin]%elem_of_cons; [done|].
        destruct Hk0. apply list_elem_of_fmap. by exists (k, v).
    + rewrite IH by done. split; [by right|].
      intros [[= <- <-]|Hin]%elem_of_cons; done.
Qed.

Lemma JSMap_get_None k m : JSMap.get k m = None ↔ k ∉ JSMap.keys m.
Proof.
  unfold JSMap.keys. induction m as [|[k0 v0] m IH]; cbn.
  - split; [|done]. by intros _ ?%elem_of_nil.
  - case_decide as Hk.
    + subst. split; [done|]. intros Hn. destruct Hn. by left.
    + rewrite IH. split.
      * intros Hn [?|?]%elem_of_cons; done.
      * intros Hn Hin. apply Hn. by right.
Qed.

End JSMap_facts.

Lemma batchCursorUpdate_run roomId c w :
  batchCursorUpdate roomId c w
  = ((), with_cursorBatches (enqueue roomId c (cursorBatches w)) w).
Proof.
  unfold batchCursorUpdate, enqueue. unfold_M.
  destruct w as [clk n rc flag lr lu lv lb ca cb em]; cbn.
  by destruct (JSMap.has roomId cb).
Qed.

Lemma get_enqueue roomId c cb r :
  JSMap.get r (enqueue roomId c cb)
  = if decide (roomId = r)
    then Some (JSMap.set (CursorData.userId c) c (default [] (JSMap.get roomId cb)))
    else JSMap.get r cb.
Proof.
  unfold enqueue, JSMap.has. rewrite JSMap_get_set.
  case_decide as Hr.
  - do 2 f_equal. case_bool_decide as Hhas; [done|].
    rewrite JSMap_get_set, decide_True by done.
    destruct (JSMap.get roomId cb); [|done]. destruct Hhas. by eexists.
  - case_bool_decide; [done|]. by rewrite JSMap_get_set, decide_False.
Qed.

Lemma NoDup_enqueue roomId c cb :
  NoDup (JSMap.keys cb) → NoDup (JSMap.keys (enqueue roomId c cb)).
Proof.
  intros Hnd. unfold enqueue. apply JSMap_NoDup_set.
  case_match; [done|]. by apply JSMap_NoDup_set.
Qed.

Lemma enqueueAll_run qs w :
  enqueueAll qs w
  = ((), with_cursorBatches (foldl (λ cb q, enqueue q.1 q.2 cb) (cursorBatches w) qs) w).
Proof.
  unfold enqueueAll. revert w. induction qs as [|[r c] qs IH]; intros w; cbn [forEach foldl].
  - by destruct w.
  - rewrite bind_run, batchCursorUpdate_run. cbn [fst snd]. rewrite IH.
    destruct w. reflexivity.
Qed.

Lemma accumulate_not_mentioned r qs init :
  r ∉ qs.*1 → accumulate r qs init = init.
Proof.
  unfold accumulate. revert init.
  induction qs as [|[r0 c] qs IH]; intros init Hin; cbn [foldl fst snd]; [done|].
  rewrite decide_False by (intros ->; apply Hin; by left).
  apply IH. intros ?. apply Hin. by right.
Qed.

Lemma accumulate_cons r r0 c qs init :
  accumulate r ((r0, c) :: qs) init
  = accumulate r qs (if decide (r0 = r) then JSMap.set (CursorData.userId c) c init else init).
Proof. done. Qed.

(** The accumulator of a room after a run: untouched when the run has no
    enqueue for the room, else the accumulation over what was there. *)
Lemma get_enqueue_run qs cb r :
  JSMap.get r (foldl (λ cb q, enqueue q.1 q.2 cb) cb qs)
  = if decide (r ∈ qs.*1)
    then Some (accumulate r qs (default [] (JSMap.get r cb)))
    else JSMap.get r cb.
Proof.
  revert cb. induction qs as [|[r0 c] qs IH]; intros cb; cbn [foldl fmap list_fmap].
  - rewrite decide_False; [done|]. by intros ?%elem_of_nil.
  - rewrite IH, accumulate_cons. cbn [fst snd]. rewrite !get_enqueue.
    destruct (decide (r0 = r)) as [->|Hne]; cbn [default].
    + rewrite (decide_True (P := r ∈ r :: qs.*1)) by (by left).
      case_decide as Hin; [done|]. by rewrite accumulate_not_mentioned.
    + destruct (decide (r ∈ qs.*1)) as [Hin|Hin].
      * rewrite decide_True; [done|]. by right.
      * rewrite decide_False; [done|]. intros [?|?]%elem_of_cons; congruence.
Qed.

Lemma get_accumulate r qs init u :
  JSMap.get u (accumulate r qs init)
  = match lastCursor qs r u with
    | Some c => Some c
    | None => JSMap.get u init
    end.
Proof.
  unfold accumulate. revert init.
  induction qs as [|[r0 c] qs IH]; intros init; cbn [foldl lastCursor fst snd]; [done|].
  rewrite IH. destruct (lastCursor qs r u) as [c'|]; [done|].
  destruct (decide (r0 = r)) as [->|Hne].
  - rewrite JSMap_get_set.
    destruct (decide (CursorData.userId c = u)) as [Hu|Hu].
    + by rewrite decide_True.
    + rewrite decide_False; [done|]. by intros [_ ?].
  - rewrite decide_False; [done|]. by intros [? _].
Qed.

Lemma NoDup_accumulate r qs init :
  NoDup (JSMap.keys init) → NoDup (JSMap.keys (accumulate r qs init)).
Proof.
  unfold accumulate. revert init.
  induction qs as [|[r0 c] qs IH]; intros init Hnd; cbn [foldl fst snd]; [done|].
  apply IH. case_decide; [|done]. by apply JSMap_NoDup_set.
Qed.

Lemma keyedByUser_set c m :
  keyedByUser m → keyedByUser (JSMap.set (CursorData.userId c) c m).
Proof.
  unfold keyedByUser. induction m as [|[k0 c0] m IH]; intros Hm k c'; cbn.
  - by intros [= -> ->]%list_elem_of_singleton.
  - case_decide as Hk.
    + subst k0. intros [[= -> ->]|Hin]%elem_of_cons; [done|].
      apply Hm. by right.
    + intros [[= -> ->]|Hin]%elem_of_cons.
      * apply Hm. by left.
      * apply IH; [|done]. intros k1 c1 Hin1. apply Hm. by right.
Qed.

Lemma keyedByUser_accumulate r qs init :
  keyedByUser init → keyedByUser (accumulate r qs init).
Proof.
  unfold accumulate. revert init.
  induction qs as [|[r0 c] qs IH]; intros init Hm; cbn [foldl fst snd]; [done|].
  apply IH. case_decide; [|done]. by apply keyedByUser_set.
Qed.

Lemma keyedByUser_values m :
  keyedByUser m → CursorData.userId <$> JSMap.values m = JSMap.keys m.
Proof.
  unfold JSMap.values, JSMap.keys. induction m as [|[k c] m IH]; intros Hm; [done|].
  cbn. f_equal.
  - apply Hm. by left.
  - apply IH. intros k' c' Hin. apply Hm. by right.
Qed.

Lemma accumulate_nonempty r qs init :
  r ∈ qs.*1 → accumulate r qs init ≠ [].
Proof.
  unfold accumulate. revert init.
  induction qs as [|[r0 c] qs IH]; intros init Hin; cbn [foldl fst snd].
  - by apply elem_of_nil in Hin.
  - destruct (decide (r ∈ qs.*1)) as [Hin'|Hin']; [by apply IH|].
    cbn in Hin. apply elem_of_cons in Hin as [Heq|?]; [subst r0|done].
    rewrite decide_True by done.
    assert (JSMap.get (CursorData.userId c)
              (accumulate r qs (JSMap.set (CursorData.userId c) c init)) ≠ None) as Hget.
    { rewrite get_accumulate. destruct (lastCursor _ _ _); [done|].
      by rewrite JSMap_get_set, decide_True. }
    unfold accumulate in Hget. intros Hnil. by rewrite Hnil in Hget.
Qed.

Lemma flush_entries_run entries w :
  forEach (λ '(roomId, cursors),
    if decide (0 < JSMap.size cursors)%nat then
      _ ← emit (ToRoom roomId (CursorsBatchMsg (JSMap.values cursors)));
      modify (λ w, with_cursorBatches (JSMap.set roomId [] (cursorBatches w)) w)
    else mret ()) entries w
  = ((), with_emitted (emitted w ++ omap batchMessage entries)
           (with_cursorBatches (foldl clearEntry (cursorBatches w) entries) w)).
Proof.
  revert w. induction entries as [|[r cs] entries IH]; intros w; cbn [forEach foldl omap list_omap].
  - rewrite app_nil_r. destruct w. reflexivity.
  - rewrite bind_run, IH. clear IH.
    assert (∀ cb, clearEntry cb (r, cs)
                  = if decide (0 < JSMap.size cs)%nat then JSMap.set r [] cb else cb)
      as -> by done.
    assert (batchMessage (r, cs)
            = if decide (0 < JSMap.size cs)%nat
              then Some (ToRoom r (CursorsBatchMsg (JSMap.values cs))) else None)
      as -> by done.
    destruct (decide (0 < JSMap.size cs)%nat); unfold_M; destruct w; cbn; [|done].
    by rewrite <- app_assoc.
Qed.

Lemma flushCursorBatches_run w :
  flushCursorBatches w
  = ((), with_emitted (emitted w ++ omap batchMessage (cursorBatches w))
           (with_cursorBatches (foldl clearEntry (cursorBatches w) (cursorBatches w)) w)).
Proof.
  unfold flushCursorBatches. rewrite bind_run. unfold gets. cbn [fst snd].
  apply flush_entries_run.
Qed.

Lemma NoDup_clearEntries entries cb :
  NoDup (JSMap.keys cb) → NoDup (JSMap.keys (foldl clearEntry cb entries)).
Proof.
  revert cb. induction entries as [|e entries IH]; intros cb Hnd; cbn [foldl]; [done|].
  apply IH. unfold clearEntry. case_decide; [|done]. by apply JSMap_NoDup_set.
Qed.

Lemma get_clearEntries_cleared entries cb r cs :
  (r, cs) ∈ entries → (0 < JSMap.size cs)%nat →
  JSMap.get r (foldl clearEntry cb entries) = Some [].
Proof.
  assert (∀ entries cb, JSMap.get r cb = Some [] →
            JSMap.get r (foldl clearEntry cb entries) = Some []) as Hkeep.
  { clear. intros entries. induction entries as [|e entries IH]; intros cb Hcb;
      cbn [foldl]; [done|].
    apply IH. unfold clearEntry. case_decide; [|done].
    rewrite JSMap_get_set. by case_decide. }
  revert cb. induction entries as [|e entries IH]; intros cb Hin Hsz; cbn [foldl].
  - by apply elem_of_nil in Hin.
  - apply elem_of_cons in Hin as [<-|Hin]; [|by apply IH].
    apply Hkeep. unfold clearEntry. cbn [fst snd].
    by rewrite decide_True, JSMap_get_set, decide_True.
Qed.

Lemma get_clearEntries_inv entries cb r cs :
  JSMap.get r (foldl clearEntry cb entries) = Some cs →
  cs = [] ∨ JSMap.get r cb = Some cs.
Proof.
  revert cb. induction entries as [|e entries IH]; intros cb Hget; cbn [foldl] in Hget.
  - by right.
  - apply IH in Hget as [->|Hget]; [by left|].
    unfold clearEntry in Hget. case_decide; [|by right].
    rewrite JSMap_get_set in Hget. case_decide; [|by right].
    left. congruence.
Qed.

Lemma NoDup_batchMessages (cb : list (string * JSMap.t CursorData.t)) :
  NoDup (JSMap.keys cb) → NoDup (emissionRoom <$> omap batchMessage cb).
Proof.
  unfold JSMap.keys. induction cb as [|[r cs] cb IH]; intros Hnd; cbn; [constructor|].
  apply NoDup_cons in Hnd as [Hr Hnd].
  unfold batchMessage at 1. cbn [fst snd]. case_decide; cbn; [|by apply IH].
  apply NoDup_cons. split; [|by apply IH].
  intros (e & Hroom & (entry & Hin & Hmsg)%list_elem_of_omap)%list_elem_of_fmap.
  apply Hr. apply list_elem_of_fmap. exists entry. split; [|done].
  unfold batchMessage in Hmsg. case_decide; [|done].
  injection Hmsg as <-. done.
Qed.

Lemma elem_of_batchMessages (cb : list (string * JSMap.t CursorData.t)) r cs :
  ToRoom r (CursorsBatchMsg cs) ∈ omap batchMessage cb ↔
  ∃ cursors, (r, cursors) ∈ cb ∧ cursors ≠ [] ∧ cs = JSMap.values cursors.
Proof.
  rewrite list_elem_of_omap. split.
  - intros ([r' cursors] & Hin & Hmsg). unfold batchMessage in Hmsg.
    cbn [fst snd] in Hmsg. case_decide as Hsz; [|done].
    injection Hmsg as -> <-. exists cursors. split_and!; [done| |done].
    intros ->. cbn in Hsz. lia.
  - intros (cursors & Hin & Hne & ->). exists (r, cursors). split; [done|].
    unfold batchMessage. cbn [fst snd]. rewrite decide_True; [done|].
    destruct cursors; [done|]. cbn. lia.
Qed.

Lemma lastCursor_mentions qs r u c :
  lastCursor qs r u = Some c → r ∈ qs.*1.
Proof.
  induction qs as [|[r0 c0] qs IH]; cbn; [done|].
  destruct (lastCursor qs r u) as [c'|].
  - intros Hc. right. by apply IH.
  - case_decide as Hru; [|done]. destruct Hru as [-> _]. intros _. by left.
Qed.

Lemma NoDup_enqueue_run qs cb :
  NoDup (JSMap.keys cb) →
  NoDup (JSMap.keys (foldl (λ cb q, enqueue q.1 q.2 cb) cb qs)).
Proof.
  revert cb. induction qs as [|q qs IH]; intros cb Hnd; cbn [foldl]; [done|].
  by apply IH, NoDup_enqueue.
Qed.

Lemma omap_all_None {A B : Type} (f : A → option B) (l : list A) :
  (∀ x, x ∈ l → f x = None) → omap f l = [].
Proof.
  induction l as [|x l IH]; intros Hall; cbn; [done|].
  rewrite (Hall x) by (by left). apply IH. intros y Hy. apply Hall. by right.
Qed.

(** The accumulator a flushed process holds for a room after a run. *)
Lemma accumulator_after_run qs w r :
  flushed w →
  JSMap.get r (cursorBatches (after (enqueueAll qs) w))
  = if decide (r ∈ qs.*1) then Some (accumulate r qs []) else JSMap.get r (cursorBatches w).
Proof.
  intros Hfl. unfold after. rewrite enqueueAll_run. cbn [snd].
  assert (cursorBatches (with_cursorBatches
            (foldl (λ cb q, enqueue q.1 q.2 cb) (cursorBatches w) qs) w)
          = foldl (λ cb q, enqueue q.1 q.2 cb) (cursorBatches w) qs) as ->
    by (by destruct w).
  rewrite get_enqueue_run. case_decide; [|done].
  destruct (JSMap.get r (cursorBatches w)) as [cs|] eqn:Hget; [|done].
  by rewrite (Hfl _ _ Hget).
Qed.

(** C5.  Start from empty accumulators (process start, or the state a
    flush leaves), enqueue any run [qs] of cursor updates and flush.  The
    flush emits at most one [cursors:batch] per room; every emitted list is
    non-empty (a room with an empty accumulator gets nothing), holds at most
    one entry per user id, and each entry is the most recent cursor
    enqueued for that user in that room; conversely the most recent cursor
    of every user is in the batch of its room.  After the emission every
    accumulator is empty again, so that a second flush emits nothing. *)
Theorem cursor_flush_last_write_wins qs w :
  wellKeyed w →
  flushed w →
  let w1 := after (enqueueAll qs) w in
  let w2 := after flushCursorBatches w1 in
  ∃ batch,
    emitted w2 = emitted w ++ batch
    ∧ NoDup (emissionRoom <$> batch)
    ∧ (∀ r cs, ToRoom r (CursorsBatchMsg cs) ∈ batch →
         cs ≠ []
         ∧ NoDup (CursorData.userId <$> cs)
         ∧ ∀ c, c ∈ cs → lastCursor qs r (CursorData.userId c) = Some c)
    ∧ (∀ r u c, lastCursor qs r u = Some c →
         ∃ cs, ToRoom r (CursorsBatchMsg cs) ∈ batch ∧ c ∈ cs)
    ∧ (∀ e, e ∈ batch → ∃ r cs, e = ToRoom r (CursorsBatchMsg cs))
    ∧ flushed w2
    ∧ wellKeyed w2
    ∧ emitted (after flushCursorBatches w2) = emitted w2.
Proof.
  intros Hkeys Hfl w1 w2.
  pose proof (accumulator_after_run qs w) as Hacc. fold w1 in Hacc.
  assert (NoDup (JSMap.keys (cursorBatches w1))) as Hkeys1.
  { subst w1. unfold after. rewrite enqueueAll_run. cbn [snd].
    destruct w. cbn. by apply NoDup_enqueue_run. }
  assert (emitted w1 = emitted w) as Hem1.
  { subst w1. unfold after. rewrite enqueueAll_run. by destruct w. }
  assert (emitted w2 = emitted w ++ omap batchMessage (cursorBatches w1)
          ∧ cursorBatches w2 = foldl clearEntry (cursorBatches w1) (cursorBatches w1))
    as [Hem2 Hcb2].
  { subst w2. unfold after. rewrite flushCursorBatches_run, <- Hem1. by destruct w1. }
  assert (flushed w2) as Hfl2.
  { intros r cs Hget. rewrite Hcb2 in Hget.
    destruct (get_clearEntries_inv _ _ _ _ Hget) as [->|Hget1]; [done|].
    destruct cs as [|e cs]; [done|].
    apply JSMap_get_Some in Hget1; [|done].
    rewrite (get_clearEntries_cleared _ _ _ _ Hget1) in Hget; [done|]. cbn. lia. }
  assert (wellKeyed w2) as Hkeys2.
  { unfold wellKeyed. rewrite Hcb2. by apply NoDup_clearEntries. }
  (* the accumulator behind an emitted batch *)
  assert (∀ r cursors, (r, cursors) ∈ cursorBatches w1 → cursors ≠ [] →
            r ∈ qs.*1 ∧ cursors = accumulate r qs []) as Hentry.
  { intros r cursors Hin Hne. apply JSMap_get_Some in Hin; [|done].
    rewrite Hacc in Hin by done. case_decide.
    - split; [done|]. congruence.
    - by destruct (Hne (Hfl _ _ Hin)). }
  exists (omap batchMessage (cursorBatches w1)). split_and!; try done.
  - by apply NoDup_batchMessages.
  - intros r cs (cursors & Hin & Hne & ->)%elem_of_batchMessages.
    destruct (Hentry _ _ Hin Hne) as [Hr ->].
    assert (keyedByUser (accumulate r qs [])) as Hkeyed.
    { apply keyedByUser_accumulate. by intros k c ?%elem_of_nil. }
    assert (NoDup (JSMap.keys (accumulate r qs []))) as Hnd.
    { apply NoDup_accumulate. constructor. }
    split_and!.
    + intros Hnil. apply Hne. unfold JSMap.values in Hnil.
      by apply fmap_nil_inv in Hnil.
    + by rewrite keyedByUser_values.
    + intros c ([k c'] & -> & Hc)%list_elem_of_fmap. cbn [snd].
      rewrite (Hkeyed _ _ Hc).
      apply JSMap_get_Some in Hc; [|done].
      rewrite get_accumulate in Hc. by destruct (lastCursor qs r k).
  - intros r u c Hlast.
    pose proof (lastCursor_mentions _ _ _ _ Hlast) as Hr.
    pose proof (Hacc r Hfl) as Hget. rewrite decide_True in Hget by done.
    exists (JSMap.values (accumulate r qs [])). split.
    + apply elem_of_batchMessages. exists (accumulate r qs []). split_and!; [|..|done].
      * by apply JSMap_get_Some.
      * by apply accumulate_nonempty.
    + apply list_elem_of_fmap. exists (u, c). split; [done|].
      apply JSMap_get_Some; [apply NoDup_accumulate; constructor|].
      by rewrite get_accumulate, Hlast.
  - intros e (entry & _ & Hmsg)%list_elem_of_omap.
    unfold batchMessage in Hmsg. case_decide; [|done].
    injection Hmsg as <-. by eexists _, _.
  - unfold after. rewrite flushCursorBatches_run.
    rewrite omap_all_None.
    + destruct w2. cbn. by rewrite app_nil_r.
    + intros [r cs] Hin. apply JSMap_get_Some in Hin; [|done].
      rewrite (Hfl2 _ _ Hin). done.
Qed.

Lemma cursor_flush_witness :
  wellKeyed (boot (λ _, 0))
  ∧ flushed (boot (λ _, 0))
  ∧ flushed (after flushCursorBatches (after (enqueueAll demoMoves) (boot (λ _, 0)))).
Proof.
  assert (wellKeyed (boot (λ _, 0))) as Hkeys by constructor.
  assert (flushed (boot (λ _, 0))) as Hfl by (intros r cs; discriminate).
  split_and!; [exact Hkeys|exact Hfl|].
  destruct (cursor_flush_last_write_wins demoMoves _ Hkeys Hfl)
    as (batch & _ & _ & _ & _ & _ & Hfl2 & _).
  exact Hfl2.
Defined.

Example cursor_flush_demo :
  emitted (after flushCursorBatches (after (enqueueAll demoMoves) (boot (λ _, 0))))
  = [ToRoom "lobby1"
       (CursorsBatchMsg [demoCursor "alice" 30 3; demoCursor "bob" 20 2])].
Proof. reflexivity. Qed.

(* ================================================================== *)
(** ** The playback position stays within the video *)
(* ================================================================== *)






Lemma later_refl w : later w w.
Proof. done. Qed.






Lemma emitted_putVideo roomId s w : emitted (putVideo roomId s w) = emitted w.
Proof. unfold putVideo. by case_match. Qed.









Lemma after_bind {A B : Type} (m : M A) (f : A → M B) w :
  after (m ≫= f) w = after (f (result m w)) (after m w).
Proof. unfold after, result. by rewrite bind_run. Qed.













Lemma touch_value {V : Type} key seconds (m : gmap string (V * option Z)) k :
  fst <$> Redis.touch key seconds m !! k = fst <$> m !! k.
Proof.
  unfold Redis.touch. destruct (m !! key) as [[v0 t0]|] eqn:Hkey; [|done].
  rewrite lookup_insert. case_decide; [|done]. subst. by rewrite Hkey.
Qed.

Lemma storedVideo_checkRateLimit roomId userId action w :
  storedVideo roomId (after (checkRateLimit userId action) w) = storedVideo roomId w.
Proof.
  unfold storedVideo, after, checkRateLimit, incrementLocalBucket, redisDb.
  unfold_redis. unfold_M.
  destruct w as [clk n rc flag lr lu lv lb ca cb em]; cbn -[Redis.incr Redis.expire].
  destruct flag, rc as [[[] d]|]; cbn -[Redis.incr Redis.expire];
    try (by destruct (lb !! rateLimitKey userId action) as [b|]; [case_decide|]).
  assert (Redis.strings (Redis.incr (rateLimitKey userId action) d).2 = Redis.strings d)
    as Hincr by (unfold Redis.incr; by destruct (default _ _)).
  case_decide; cbn -[Redis.incr Redis.expire].
  - unfold Redis.expire. cbn -[Redis.incr].
    pose proof (touch_value (rateLimitKey userId action)
      (Math.ceil_div (RateLimitConfig.windowMs (LIMITS action)) 1000)
      (Redis.strings (Redis.incr (rateLimitKey userId action) d).2)
      (KEYS.roomVideo roomId)) as Htouch.
    rewrite Hincr in Htouch |- *.
    destruct (Redis.touch _ _ _ !! _) as [[v t]|], (Redis.strings d !! _) as [[v' t']|];
      cbn in *; by simplify_eq.
  - by rewrite Hincr.
Qed.






(* ================================================================== *)
(** ** checkRateLimit over one window *)
(* ================================================================== *)

Lemma checkRateLimit_result userId action w :
  let count := RateLimitResult.count (result (checkRateLimit userId action) w) in
  let config := LIMITS action in
  result (checkRateLimit userId action) w
  = RateLimitResult.mk (bool_decide (count ≤ RateLimitConfig.max config))
      (Z.max 0 (RateLimitConfig.max config - count))
      (RateLimitConfig.windowMs config) count.
Proof. unfold result, checkRateLimit. by rewrite !bind_run. Qed.

Lemma checkRateLimit_world userId action w :
  let w' := after (checkRateLimit userId action) w in
  clock w' = clock w
  ∧ connected w' = connected w
  ∧ reads w' = (if connected w then reads w else S (reads w))
  ∧ localRooms w' = localRooms w
  ∧ localRoomUsers w' = localRoomUsers w
  ∧ emitted w' = emitted w
  ∧ cursorBatches w' = cursorBatches w
  ∧ connectionAttempts w' = connectionAttempts w.
Proof.
  unfold after, checkRateLimit, incrementLocalBucket. unfold_redis. unfold_M.
  destruct w as [clk m rc flag lr lu lv lb ca cb em]; cbn -[Redis.incr Redis.expire].
  destruct flag, rc as [[[] d]|]; cbn -[Redis.incr Redis.expire];
    try (by destruct (lb !! rateLimitKey userId action) as [b|]; [case_decide|]).
  by case_decide.
Qed.

Lemma checkRateLimit_window_invariant userId action n w :
  noOpenWindow userId action w →
  (connected w = false →
   ∀ i, (i < n)%nat →
        reading w i ≤ reading w 0 + RateLimitConfig.windowMs (LIMITS action)) →
  ∀ i, (i ≤ n)%nat →
    let wi := Nat.iter i (after (checkRateLimit userId action)) w in
    clock wi = clock w
    ∧ connected wi = connected w
    ∧ reads wi = (if connected w then reads w else (reads w + i)%nat)
    ∧ (i = 0%nat → wi = w)
    ∧ ((0 < i)%nat →
       if connected w
       then ∃ ttl, redisCounter (rateLimitKey userId action) wi = Some (Z.of_nat i, ttl)
       else localBuckets wi !! rateLimitKey userId action
            = Some (LocalBucket.mk (Z.of_nat i)
                      (reading w 0 + RateLimitConfig.windowMs (LIMITS action)))).
Proof.
  intros Hfresh Hwin i. induction i as [|i IH]; intros Hi; cbn zeta.
  - cbn. split_and!; try done.
    + destruct (connected w); [done|lia].
    + intros ?. lia.
  - destruct IH as (Hclk & Hconn & Hreads & Hzero & Hpos); [lia|].
    rewrite Nat.iter_succ.
    set (wi := Nat.iter i (after (checkRateLimit userId action)) w) in *.
    destruct (checkRateLimit_world userId action wi) as (Hclk' & Hconn' & Hreads' & _).
    split_and!.
    + by rewrite Hclk'.
    + by rewrite Hconn'.
    + rewrite Hreads', Hconn, Hreads. destruct (connected w); [done|lia].
    + done.
    + intros _. unfold noOpenWindow in Hfresh.
      destruct (connected w) eqn:Hc.
      * destruct (checkRateLimit_cluster userId action wi) as (_ & Hkey & _);
          [by rewrite Hconn|].
        cbv zeta in Hkey. rewrite Hkey. eexists. do 2 f_equal.
        destruct i as [|i].
        -- rewrite Hzero by done. rewrite Hfresh. done.
        -- destruct Hpos as [ttl ->]; [lia|]. cbn. lia.
      * destruct (checkRateLimit_standalone userId action wi) as (_ & Hkey & _);
          [by rewrite Hconn|].
        cbv zeta in Hkey. rewrite Hkey.
        destruct i as [|i].
        -- rewrite Hzero by done.
           destruct (localBuckets w !! _) as [b|]; [|done].
           by rewrite decide_True.
        -- rewrite Hpos by lia. rewrite decide_False.
           ++ f_equal. cbn. f_equal. lia.
           ++ cbn [LocalBucket.resetAt]. specialize (Hwin eq_refl (S i) Hi).
              unfold reading in *. rewrite Hclk, Hreads, !Nat.add_0_r in *. lia.
Qed.

(** X1.  Let no window be open for (user, action): no Redis counter in cluster
    mode; in standalone mode no bucket, or one whose window has ended.  Take
    [n] calls of [checkRateLimit] in a row, in standalone mode all within
    [windowMs] of the first clock reading.  Then call number [i] (from 0)
    reports [count = i + 1], is allowed exactly when [i + 1 <= max], and
    reports [remaining = max(0, max - (i + 1))]: one window admits exactly
    [max] calls. *)
Theorem checkRateLimit_counts_calls_of_window userId action n w :
  noOpenWindow userId action w →
  (connected w = false →
   ∀ i, (i < n)%nat →
        reading w i ≤ reading w 0 + RateLimitConfig.windowMs (LIMITS action)) →
  ∀ i, (i < n)%nat →
    let res := result (checkRateLimit userId action)
                 (Nat.iter i (after (checkRateLimit userId action)) w) in
    RateLimitResult.count res = Z.of_nat (S i)
    ∧ (RateLimitResult.allowed res = true
       ↔ Z.of_nat (S i) ≤ RateLimitConfig.max (LIMITS action))
    ∧ RateLimitResult.remaining res
      = Z.max 0 (RateLimitConfig.max (LIMITS action) - Z.of_nat (S i)).
Proof.
  intros Hfresh Hwin i Hi res.
  destruct (checkRateLimit_window_invariant userId action n w Hfresh Hwin (S i))
    as (_ & _ & _ & _ & Hpos); [lia|].
  specialize (Hpos ltac:(lia)).
  destruct (checkRateLimit_window_invariant userId action n w Hfresh Hwin i)
    as (_ & Hconn & _ & _ & _); [lia|].
  rewrite Nat.iter_succ in Hpos.
  set (wi := Nat.iter i (after (checkRateLimit userId action)) w) in *.
  assert (RateLimitResult.count res = Z.of_nat (S i)) as Hcount.
  { destruct (connected w) eqn:Hc.
    - destruct (checkRateLimit_cluster userId action wi) as (Hcnt & Hkey & _);
        [by rewrite Hconn|].
      cbv zeta in Hcnt, Hkey. destruct Hpos as [ttl Hpos].
      rewrite Hkey in Hpos. subst res. rewrite Hcnt. by simplify_eq.
    - destruct (checkRateLimit_standalone userId action wi) as (Hcnt & Hkey & _);
        [by rewrite Hconn|].
      cbv zeta in Hcnt, Hkey. rewrite Hkey in Hpos. subst res. rewrite Hcnt.
      injection Hpos as ->. done. }
  subst res. rewrite checkRateLimit_result in Hcount |- *. cbn in Hcount |- *.
  rewrite Hcount. split_and!; [done| |done].
  by rewrite bool_decide_eq_true.
Qed.

Lemma checkRateLimit_counts_calls_witness :
  noOpenWindow "u1" reaction (boot (λ _, 7000))
  ∧ RateLimitResult.allowed
      (result (checkRateLimit "u1" reaction)
         (Nat.iter 5 (after (checkRateLimit "u1" reaction)) (boot (λ _, 7000)))) ≠ true.
Proof.
  assert (noOpenWindow "u1" reaction (boot (λ _, 7000))) as Hfresh by exact I.
  split; [exact Hfresh|].
  intros Hallowed.
  assert (∀ i, (i < 6)%nat →
            reading (boot (λ _, 7000)) i
            ≤ reading (boot (λ _, 7000)) 0 + RateLimitConfig.windowMs (LIMITS reaction))
    as Hwin by (intros i _; cbn; lia).
  pose proof (proj1 (proj1 (proj2
    (checkRateLimit_counts_calls_of_window "u1" reaction 6 (boot (λ _, 7000))
       Hfresh (λ _, Hwin) 5%nat ltac:(lia)))) Hallowed) as Hle.
  cbn in Hle. lia.
Defined.

(* ================================================================== *)
(** ** The periodic clean-ups of the rate limiter *)
(* ================================================================== *)

Lemma cleanupLocalBuckets_run w :
  after cleanupLocalBuckets w
  = with_localBuckets
      (filter (λ kb, ¬ (LocalBucket.resetAt kb.2 < reading w 0)) (localBuckets w))
      (with_reads (S (reads w)) w).
Proof. unfold reading. rewrite Nat.add_0_r. by destruct w. Qed.

(** X2.  [cleanupLocalBuckets] keeps exactly the buckets whose [resetAt] is not
    before the clock reading it takes, and keeps them unchanged.  When the
    clock does not go back before the next call, [checkRateLimit] answers
    after the clean-up as it would have answered without it, and in
    standalone mode it leaves the same bucket behind. *)
Theorem cleanupLocalBuckets_only_drops_ended_windows userId action w :
  reading w 0 ≤ reading w 1 →
  let w' := after cleanupLocalBuckets w in
  let unswept := with_reads (S (reads w)) w in
  (∀ k b, localBuckets w' !! k = Some b
          ↔ localBuckets w !! k = Some b ∧ reading w 0 ≤ LocalBucket.resetAt b)
  ∧ result (checkRateLimit userId action) w'
    = result (checkRateLimit userId action) unswept
  ∧ (connected w = false →
     localBuckets (after (checkRateLimit userId action) w') !! rateLimitKey userId action
     = localBuckets (after (checkRateLimit userId action) unswept)
         !! rateLimitKey userId action).
Proof.
  intros Hclk w' unswept.
  assert (∀ k b, localBuckets w' !! k = Some b
                 ↔ localBuckets w !! k = Some b ∧ reading w 0 ≤ LocalBucket.resetAt b)
    as Hfilter.
  { intros k b. subst w'. rewrite cleanupLocalBuckets_run. cbn.
    rewrite map_lookup_filter_Some. cbn. split; intros [? ?]; split; (done || lia). }
  split; [done|].
  assert (connected w' = connected w ∧ connected unswept = connected w
          ∧ redisClient w' = redisClient w ∧ redisClient unswept = redisClient w
          ∧ reading w' 0 = reading w 1 ∧ reading unswept 0 = reading w 1
          ∧ localBuckets unswept = localBuckets w)
    as (Hc1 & Hc2 & Hr1 & Hr2 & Hn1 & Hn2 & Hb2).
  { subst w' unswept. rewrite cleanupLocalBuckets_run. unfold reading. cbn.
    rewrite Nat.add_0_r, Nat.add_1_r. by destruct w. }
  rewrite (checkRateLimit_result userId action w'),
    (checkRateLimit_result userId action unswept). cbv zeta.
  destruct (connected w) eqn:Hc.
  - destruct (checkRateLimit_cluster userId action w' Hc1) as (Hcnt1 & _).
    destruct (checkRateLimit_cluster userId action unswept Hc2) as (Hcnt2 & _).
    cbv zeta in *. split; [|done].
    rewrite Hcnt1, Hcnt2. unfold redisCounter, redisDb. by rewrite Hr1, Hr2.
  - destruct (checkRateLimit_standalone userId action w' Hc1) as (Hcnt1 & Hkey1 & _).
    destruct (checkRateLimit_standalone userId action unswept Hc2) as (Hcnt2 & Hkey2 & _).
    cbv zeta in *. rewrite Hcnt1, Hcnt2, Hkey1, Hkey2, Hn1, Hn2, Hb2.
    set (key := rateLimitKey userId action).
    assert (match localBuckets w' !! key with
            | Some b =>
                if decide (LocalBucket.resetAt b < reading w 1)
                then LocalBucket.mk 1 (reading w 1 + RateLimitConfig.windowMs (LIMITS action))
                else LocalBucket.mk (LocalBucket.count b + 1) (LocalBucket.resetAt b)
            | None => LocalBucket.mk 1 (reading w 1 + RateLimitConfig.windowMs (LIMITS action))
            end
            = match localBuckets w !! key with
              | Some b =>
                  if decide (LocalBucket.resetAt b < reading w 1)
                  then LocalBucket.mk 1 (reading w 1 + RateLimitConfig.windowMs (LIMITS action))
                  else LocalBucket.mk (LocalBucket.count b + 1) (LocalBucket.resetAt b)
              | None => LocalBucket.mk 1 (reading w 1 + RateLimitConfig.windowMs (LIMITS action))
              end) as ->; [|done].
    destruct (localBuckets w' !! key) as [b|] eqn:Hb.
    + apply Hfilter in Hb as [-> _]. done.
    + destruct (localBuckets w !! key) as [b|] eqn:Hb0; [|done].
      rewrite decide_True; [done|].
      destruct (decide (reading w 0 ≤ LocalBucket.resetAt b)) as [Hle|Hgt]; [|lia].
      assert (localBuckets w' !! key = Some b) as Hin by (by apply Hfilter).
      congruence.
Qed.

Lemma cleanupLocalBuckets_witness :
  reading demoTwoBuckets 0 ≤ reading demoTwoBuckets 1
  ∧ reading demoTwoBuckets 0 = 5000
  ∧ localBuckets demoTwoBuckets !! "ratelimit:roomJoin:u1" = Some (LocalBucket.mk 1 10000)
  ∧ localBuckets demoTwoBuckets !! "ratelimit:cursor:u1" = Some (LocalBucket.mk 1 2000)
  ∧ localBuckets (after cleanupLocalBuckets demoTwoBuckets) !! "ratelimit:roomJoin:u1"
    = Some (LocalBucket.mk 1 10000)
  ∧ localBuckets (after cleanupLocalBuckets demoTwoBuckets) !! "ratelimit:cursor:u1" = None
  ∧ result (checkRateLimit "u1" roomJoin) (after cleanupLocalBuckets demoTwoBuckets)
    = result (checkRateLimit "u1" roomJoin) (with_reads 3 demoTwoBuckets).
Proof.
  assert (reading demoTwoBuckets 0 ≤ reading demoTwoBuckets 1) as H
    by (vm_compute; discriminate).
  destruct (cleanupLocalBuckets_only_drops_ended_windows "u1" roomJoin demoTwoBuckets H)
    as (Hkept & Hsame & _).
  split_and!; [exact H|reflexivity|reflexivity|reflexivity| | |exact Hsame].
  - apply Hkept. split; [reflexivity|]. vm_compute. discriminate.
  - destruct (localBuckets (after cleanupLocalBuckets demoTwoBuckets)
                !! "ratelimit:cursor:u1") as [b|] eqn:Hb; [|reflexivity].
    apply Hkept in Hb as [Hb Hopen].
    assert (b = LocalBucket.mk 1 2000) as -> by (vm_compute in Hb; congruence).
    vm_compute in Hopen. by destruct Hopen.
Defined.

Lemma recentAttempts_idem t1 t2 attempts :
  t1 ≤ t2 →
  recentAttempts t2 (recentAttempts t1 attempts) = recentAttempts t2 attempts.
Proof.
  intros Hle. unfold recentAttempts.
  induction attempts as [|t l IH]; [done|].
  rewrite !filter_cons. repeat case_decide; rewrite ?filter_cons; repeat case_decide;
    try lia; by rewrite ?IH.
Qed.

Lemma sweepConnectionAttempts_run w :
  after sweepConnectionAttempts w
  = with_connectionAttempts
      (filter (λ ka, ka.2 ≠ []) (recentAttempts (reading w 0) <$> connectionAttempts w))
      (with_reads (S (reads w)) w).
Proof. unfold reading. rewrite Nat.add_0_r. by destruct w. Qed.

Lemma attempts_sweep key w :
  default [] (connectionAttempts (after sweepConnectionAttempts w) !! key)
  = recentAttempts (reading w 0) (default [] (connectionAttempts w !! key)).
Proof.
  rewrite sweepConnectionAttempts_run. cbn.
  destruct (filter _ _ !! _) as [l|] eqn:Hl.
  - apply map_lookup_filter_Some in Hl as [Hl _].
    rewrite lookup_fmap in Hl.
    destruct (connectionAttempts w !! _) as [l0|]; cbn in *; by simplify_eq.
  - apply map_lookup_filter_None in Hl as [Hl|Hl].
    + rewrite lookup_fmap in Hl.
      by destruct (connectionAttempts w !! _) as [l0|].
    + destruct (connectionAttempts w !! _) as [l0|] eqn:Hl0; [|done]. cbn.
      destruct (recentAttempts (reading w 0) l0) as [|t l] eqn:Hrec; [done|].
      exfalso. eapply (Hl (t :: l)); [|done].
      by rewrite lookup_fmap, Hl0; cbn; rewrite Hrec.
Qed.


(** X3.  The periodic sweep of [connectionAttempts] leaves under every key
    exactly the attempts [t] with [now - t < 60000], in their order, where
    [now] is the clock reading of the sweep; it stores no empty list, and
    it leaves unchanged the number of attempts that are less than 60 s old
    at any later time.  When the clock does not go back before the next
    call, [checkConnectionLimit] answers after the sweep as it would have
    answered without it. *)
Theorem sweepConnectionAttempts_only_drops_old_attempts ip maxPerMinute w :
  reading w 0 ≤ reading w 1 →
  let w' := after sweepConnectionAttempts w in
  let now := reading w 0 in
  (∀ key,
     default [] (connectionAttempts w' !! key)
     = filter (λ t, now - t < 60000) (default [] (connectionAttempts w !! key)))
  ∧ (∀ key t,
       t ∈ default [] (connectionAttempts w' !! key)
       ↔ t ∈ default [] (connectionAttempts w !! key) ∧ now - t < 60000)
  ∧ (∀ key, connectionAttempts w' !! key ≠ Some [])
  ∧ (∀ key later, now ≤ later →
       length (filter (λ t, later - t < 60000) (default [] (connectionAttempts w' !! key)))
       = length (filter (λ t, later - t < 60000)
                   (default [] (connectionAttempts w !! key))))
  ∧ result (checkConnectionLimit ip maxPerMinute) w'
    = result (checkConnectionLimit ip maxPerMinute) (with_reads (S (reads w)) w).
Proof.
  intros Hclk w' now.
  assert (∀ key,
            default [] (connectionAttempts w' !! key)
            = filter (λ t, now - t < 60000) (default [] (connectionAttempts w !! key)))
    as Hsweep by (intros key; apply attempts_sweep).
  assert (reading w' 0 = reading w 1) as Hn1.
  { subst w'. rewrite sweepConnectionAttempts_run. unfold reading. cbn.
    by rewrite Nat.add_0_r, Nat.add_1_r. }
  assert (∀ later l, now ≤ later →
            filter (λ t, later - t < 60000) (filter (λ t, now - t < 60000) l)
            = filter (λ t, later - t < 60000) l) as Hidem
    by (intros later l Hlater; by apply recentAttempts_idem).
  assert (∀ later, now ≤ later → recentCount later ip w' = recentCount later ip w)
    as Hcount.
  { intros later Hlater. unfold recentCount, attemptsOf, recentAttempts.
    by rewrite Hsweep, Hidem. }
  split_and!; [done| | | |].
  - intros key t. rewrite Hsweep, list_elem_of_filter. tauto.
  - intros key Hkey. subst w'. rewrite sweepConnectionAttempts_run in Hkey. cbn in Hkey.
    by apply map_lookup_filter_Some in Hkey as [_ ?].
  - intros key later Hlater. by rewrite Hsweep, Hidem.
  - unfold result. rewrite !checkConnectionLimit_run.
    rewrite Hn1, (Hcount _ Hclk).
    assert (reading (with_reads (S (reads w)) w) 0 = reading w 1) as ->.
    { unfold reading. cbn. by rewrite Nat.add_0_r, Nat.add_1_r. }
    assert (recentCount (reading w 1) ip (with_reads (S (reads w)) w)
            = recentCount (reading w 1) ip w) as -> by done.
    by case_decide.
Qed.

Lemma sweepConnectionAttempts_witness :
  reading demoStaleAttempts 0 ≤ reading demoStaleAttempts 1
  ∧ reading demoStaleAttempts 0 = 121000
  ∧ connectionAttempts demoStaleAttempts !! "conn:10.0.0.1" = Some [41000; 81000]
  ∧ connectionAttempts demoStaleAttempts !! "conn:10.0.0.2" = Some [1000]
  ∧ default [] (connectionAttempts (after sweepConnectionAttempts demoStaleAttempts)
                  !! "conn:10.0.0.1") = [81000]
  ∧ default [] (connectionAttempts (after sweepConnectionAttempts demoStaleAttempts)
                  !! "conn:10.0.0.2") = []
  ∧ connectionAttempts (after sweepConnectionAttempts demoStaleAttempts)
      !! "conn:10.0.0.2" ≠ Some []
  ∧ result (checkConnectionLimit "10.0.0.1" None)
      (after sweepConnectionAttempts demoStaleAttempts)
    = result (checkConnectionLimit "10.0.0.1" None) (with_reads 4 demoStaleAttempts).
Proof.
  assert (reading demoStaleAttempts 0 ≤ reading demoStaleAttempts 1) as H
    by (vm_compute; discriminate).
  destruct (sweepConnectionAttempts_only_drops_old_attempts "10.0.0.1" None
              demoStaleAttempts H) as (Hsweep & _ & Hempty & _ & Hsame).
  split_and!; [exact H|reflexivity|reflexivity|reflexivity| | |apply Hempty|exact Hsame].
  - rewrite Hsweep. reflexivity.
  - rewrite Hsweep. reflexivity.
Defined.

(* ================================================================== *)
(** ** A burst of connections from one address *)
(* ================================================================== *)

Lemma recentAttempts_all now attempts :
  Forall (λ t, now - t < 60000) attempts → recentAttempts now attempts = attempts.
Proof.
  unfold recentAttempts. induction 1 as [|t l Ht _ IH]; [done|].
  by rewrite filter_cons, decide_True, IH.
Qed.

Lemma checkConnectionLimit_burst_invariant ip maxPerMinute n w :
  attemptsOf ip w = [] →
  (∀ i j, (i ≤ j < n)%nat → reading w j - reading w i < 60000) →
  ∀ i, (i ≤ n)%nat →
    let wi := Nat.iter i (after (checkConnectionLimit ip maxPerMinute)) w in
    clock wi = clock w
    ∧ reads wi = (reads w + i)%nat
    ∧ Z.of_nat (length (attemptsOf ip wi))
      = Z.min (Z.of_nat i) (Z.max 0 (default 10 maxPerMinute))
    ∧ Forall (λ t, ∃ k, (k < i)%nat ∧ t = reading w k) (attemptsOf ip wi).
Proof.
  intros Hempty Hspan i. induction i as [|i IH]; intros Hi; cbn zeta.
  - cbn. rewrite Hempty. split_and!; try done; cbn; lia.
  - destruct IH as (Hclk & Hreads & Hlen & Hall); [lia|].
    rewrite Nat.iter_succ.
    set (wi := Nat.iter i (after (checkConnectionLimit ip maxPerMinute)) w) in *.
    assert (reading wi 0 = reading w i) as Hnow.
    { unfold reading. by rewrite Hclk, Hreads, Nat.add_0_r. }
    assert (recentAttempts (reading wi 0) (attemptsOf ip wi) = attemptsOf ip wi) as Hrec.
    { apply recentAttempts_all. eapply Forall_impl; [exact Hall|].
      intros t (k & Hk & ->). rewrite Hnow. apply Hspan. lia. }
    unfold after. rewrite checkConnectionLimit_run. unfold recentCount.
    rewrite Hrec. case_decide as Hfull; cbn [snd].
    + split_and!; [done|cbn; lia| |].
      * change (attemptsOf ip (with_reads (S (reads wi)) wi)) with (attemptsOf ip wi).
        lia.
      * change (attemptsOf ip (with_reads (S (reads wi)) wi)) with (attemptsOf ip wi).
        eapply Forall_impl; [exact Hall|]. intros t (k & Hk & ->). exists k. split; [lia|done].
    + assert (attemptsOf ip
                (with_connectionAttempts
                   (<["conn:" +:+ ip := attemptsOf ip wi ++ [reading wi 0]]>
                      (connectionAttempts wi)) (with_reads (S (reads wi)) wi))
              = attemptsOf ip wi ++ [reading wi 0]) as ->.
      { unfold attemptsOf at 1. cbn. by rewrite lookup_insert_eq. }
      split_and!; [done|cbn; lia| |].
      * rewrite length_app. cbn. lia.
      * apply Forall_app. split.
        -- eapply Forall_impl; [exact Hall|]. intros t (k & Hk & ->).
           exists k. split; [lia|done].
        -- apply Forall_singleton. exists i. split; [lia|done].
Qed.

(** X4.  For an address without recorded attempts, take [n] calls of
    [checkConnectionLimit] in a row whose clock readings lie less than 60 s
    apart.  Call number [i] (from 0) is admitted exactly when
    [i < maxPerMinute] (10 when the argument is left out), and after it the
    recorded history holds [min(i + 1, max(0, maxPerMinute))] attempts. *)
Theorem checkConnectionLimit_admits_first_of_burst ip maxPerMinute n w :
  attemptsOf ip w = [] →
  (∀ i j, (i ≤ j < n)%nat → reading w j - reading w i < 60000) →
  ∀ i, (i < n)%nat →
    let wi := Nat.iter i (after (checkConnectionLimit ip maxPerMinute)) w in
    (result (checkConnectionLimit ip maxPerMinute) wi = true
     ↔ Z.of_nat i < default 10 maxPerMinute)
    ∧ Z.of_nat (length (attemptsOf ip (after (checkConnectionLimit ip maxPerMinute) wi)))
      = Z.min (Z.of_nat (S i)) (Z.max 0 (default 10 maxPerMinute)).
Proof.
  intros Hempty Hspan i Hi wi.
  destruct (checkConnectionLimit_burst_invariant ip maxPerMinute n w Hempty Hspan i)
    as (Hclk & Hreads & Hlen & Hall); [lia|].
  destruct (checkConnectionLimit_burst_invariant ip maxPerMinute n w Hempty Hspan (S i))
    as (_ & _ & Hlen' & _); [lia|].
  rewrite Nat.iter_succ in Hlen'. fold wi in Hclk, Hreads, Hlen, Hall, Hlen'.
  split; [|done].
  assert (recentAttempts (reading wi 0) (attemptsOf ip wi) = attemptsOf ip wi) as Hrec.
  { apply recentAttempts_all. eapply Forall_impl; [exact Hall|].
    intros t (k & Hk & ->). unfold reading at 1. rewrite Hclk, Hreads, Nat.add_0_r.
    apply Hspan. lia. }
  unfold result. rewrite checkConnectionLimit_run. unfold recentCount. rewrite Hrec.
  case_decide; cbn [fst]; split; (done || lia).
Qed.

Lemma checkConnectionLimit_burst_witness :
  attemptsOf "10.0.0.1" (boot (λ _, 1000)) = []
  ∧ (result (checkConnectionLimit "10.0.0.1" None)
       (Nat.iter 10 (after (checkConnectionLimit "10.0.0.1" None)) (boot (λ _, 1000))) = true
     ↔ Z.of_nat 10 < 10).
Proof.
  assert (attemptsOf "10.0.0.1" (boot (λ _, 1000)) = []) as Hempty by reflexivity.
  assert (∀ i j, (i ≤ j < 11)%nat →
            reading (boot (λ _, 1000)) j - reading (boot (λ _, 1000)) i < 60000) as Hspan
    by (intros i j _; cbn; lia).
  split; [exact Hempty|].
  exact (proj1 (checkConnectionLimit_admits_first_of_burst "10.0.0.1" None 11
                  (boot (λ _, 1000)) Hempty Hspan 10%nat ltac:(lia))).
Defined.

(* ================================================================== *)
(** ** Token buckets *)
(* ================================================================== *)

Lemma this_plus (x y : Qc) : (this (x + y)%Qc == this x + this y)%Q.
Proof. apply Qred_correct. Qed.

Lemma this_minus (x y : Qc) : (this (x - y)%Qc == this x - this y)%Q.
Proof.
  unfold Qcminus, Qcplus, Qcopp, Q2Qc; cbn [this].
  rewrite !Qred_correct. reflexivity.
Qed.

Lemma this_eq (x y : Qc) : x = y → (this x == this y)%Q.
Proof. by intros ->. Qed.

(** Linear goals over [Qc], sent to [lra] over [Q]. *)
Ltac qc_linear :=
  try (apply Qc_is_canon);
  unfold Qcle, Qclt in *;
  repeat match goal with
  | H : @eq Qc ?x ?y |- _ => apply this_eq in H
  end;
  rewrite ?this_plus, ?this_minus in *;
  change (this (Q2Qc 0)) with (0%Q) in *;
  change (this (Q2Qc 1)) with (1%Q) in *;
  lra.

Lemma min_lower_bound (lo x y : Qc) : (lo ≤ x)%Qc → (lo ≤ y)%Qc → (lo ≤ Math.min x y)%Qc.
Proof. intros. unfold Math.min. by case_decide. Qed.

Lemma min_le_l (x y : Qc) : (Math.min x y ≤ x)%Qc.
Proof.
  unfold Math.min. case_decide as H; [done|].
  by apply Qclt_le_weak, Qclt_nge.
Qed.

Lemma refill_amount_nonneg (elapsed interval : Z) (rate : Qc) :
  0 ≤ elapsed → 0 < interval → (0 ≤ rate)%Qc →
  (0 ≤ Qc_of_Z elapsed / Qc_of_Z interval * rate)%Qc.
Proof.
  intros He Hi Hr. apply Qcmult_nonneg_nonneg; [|done].
  unfold Qcdiv. apply Qcmult_nonneg_nonneg.
  - exact (proj1 (Z2Qc_inj_le 0 elapsed) He).
  - apply Qclt_le_weak, Qcinv_pos. exact (proj1 (Z2Qc_inj_lt 0 interval) Hi).
Qed.

Lemma refill_run b w :
  TokenBucket.refill b w
  = (TokenBucket.mk (TokenBucket.maxTokens b)
       (Math.min (TokenBucket.maxTokens b)
          (TokenBucket.tokens b
           + Qc_of_Z (reading w 0 - TokenBucket.lastRefill b)
             / Qc_of_Z (TokenBucket.refillInterval b) * TokenBucket.refillRate b)%Qc)
       (TokenBucket.refillRate b) (TokenBucket.refillInterval b) (reading w 0),
     with_reads (S (reads w)) w).
Proof. unfold reading. by rewrite Nat.add_0_r. Qed.

Lemma refill_settled b w :
  nondecreasing (clock w) → bucketSettled w b →
  let b' := result (TokenBucket.refill b) w in
  let w' := after (TokenBucket.refill b) w in
  bucketSettled w' b'
  ∧ TokenBucket.maxTokens b' = TokenBucket.maxTokens b
  ∧ clock w' = clock w.
Proof.
  intros Hclk ([Hlo Hhi] & Hrate & Hint & Hlast). unfold result, after.
  rewrite refill_run. cbn [fst snd]. split_and!; try done.
  split_and!; cbn; try done.
  - split.
    + apply min_lower_bound; [exact (Qcle_trans _ _ _ Hlo Hhi)|].
      pose proof (refill_amount_nonneg (reading w 0 - TokenBucket.lastRefill b)
                    (TokenBucket.refillInterval b) (TokenBucket.refillRate b)
                    ltac:(lia) Hint Hrate) as Hadd.
      qc_linear.
    + apply min_le_l.
  - unfold reading. cbn. rewrite !Nat.add_0_r. apply Hclk.
Qed.

Lemma consume_run b w :
  let b1 := result (TokenBucket.refill b) w in
  TokenBucket.consume b w
  = (if decide (1 ≤ TokenBucket.tokens b1)%Qc
     then (true, TokenBucket.mk (TokenBucket.maxTokens b1) (TokenBucket.tokens b1 - 1)%Qc
                   (TokenBucket.refillRate b1) (TokenBucket.refillInterval b1)
                   (TokenBucket.lastRefill b1))
     else (false, b1),
     after (TokenBucket.refill b) w).
Proof.
  unfold TokenBucket.consume, result, after. rewrite bind_run.
  by case_decide.
Qed.

Lemma bucketCall_settled c b w :
  nondecreasing (clock w) → bucketSettled w b →
  let b' := result (bucketCall c b) w in
  let w' := after (bucketCall c b) w in
  bucketSettled w' b'
  ∧ TokenBucket.maxTokens b' = TokenBucket.maxTokens b
  ∧ clock w' = clock w.
Proof.
  intros Hclk Hb.
  destruct (refill_settled b w Hclk Hb) as (Hb1 & Hmax & Hclk1). cbv zeta in *.
  destruct c; unfold result, after, bucketCall.
  - rewrite bind_run, consume_run. cbn [fst snd mret M_ret].
    case_decide as Hone; cbn [fst snd]; [|done].
    destruct Hb1 as ([Hlo Hhi] & ? & ? & ?).
    split_and!; try done.
    unfold bucketSettled, bucketInRange.
    cbn [TokenBucket.tokens TokenBucket.maxTokens TokenBucket.refillRate
         TokenBucket.refillInterval TokenBucket.lastRefill].
    split_and!; try done; qc_linear.
  - unfold TokenBucket.getTokens. rewrite !bind_run. cbn [fst snd mret M_ret]. done.
Qed.

Lemma new_run maxTokens refillRate refillInterval w :
  TokenBucket.new maxTokens refillRate refillInterval w
  = (TokenBucket.mk maxTokens maxTokens refillRate (default 1000 refillInterval)
       (reading w 0),
     with_reads (S (reads w)) w).
Proof. unfold reading. by rewrite Nat.add_0_r. Qed.

(** X5.  A [TokenBucket] built with [maxTokens >= 0], [refillRate >= 0] and a
    positive [refillInterval] has [0 <= tokens <= maxTokens] after any
    sequence of [consume()] and [getTokens()] calls, provided [Date.now()]
    never goes back; [maxTokens] is never changed. *)
Theorem TokenBucket_tokens_stay_in_range maxTokens refillRate refillInterval cs w :
  nondecreasing (clock w) →
  (0 ≤ maxTokens)%Qc → (0 ≤ refillRate)%Qc → 0 < default 1000 refillInterval →
  let b := result (b0 ← TokenBucket.new maxTokens refillRate refillInterval;
                   bucketCalls cs b0) w in
  (0 ≤ TokenBucket.tokens b)%Qc
  ∧ (TokenBucket.tokens b ≤ maxTokens)%Qc
  ∧ TokenBucket.maxTokens b = maxTokens.
Proof.
  intros Hclk Hmax Hrate Hint.
  assert (∀ cs b w, nondecreasing (clock w) → bucketSettled w b →
            bucketInRange (result (bucketCalls cs b) w)
            ∧ TokenBucket.maxTokens (result (bucketCalls cs b) w) = TokenBucket.maxTokens b)
    as Hrun.
  { clear. intros cs. induction cs as [|c cs IH]; intros b w Hclk Hb.
    - by destruct Hb.
    - destruct (bucketCall_settled c b w Hclk Hb) as (Hb1 & Hmax & Hclk1).
      cbv zeta in *. unfold result. cbn [bucketCalls]. rewrite bind_run.
      destruct (IH _ _ ltac:(by rewrite Hclk1) Hb1) as [Hr Hm].
      unfold result, after in *. by rewrite Hm. }
  cbv zeta. unfold result. rewrite bind_run.
  destruct (Hrun cs (TokenBucket.new maxTokens refillRate refillInterval w).1
                    (TokenBucket.new maxTokens refillRate refillInterval w).2)
    as [[Hlo Hhi] Hm].
  - done.
  - rewrite new_run. cbn [fst snd]. split_and!; try done.
    unfold reading. cbn. rewrite !Nat.add_0_r. apply Hclk.
  - unfold result in *. rewrite Hm in Hhi. done.
Qed.

Lemma TokenBucket_in_range_witness :
  nondecreasing (clock (boot (λ n, 100 * Z.of_nat n)))
  ∧ Qcle 0 (TokenBucket.tokens
              (result (b0 ← TokenBucket.new (Qc_of_Z 2) (Qc_of_Z 1) None;
                       bucketCalls [Consume; Consume; Consume; GetTokens] b0)
                 (boot (λ n, 100 * Z.of_nat n)))).
Proof.
  assert (nondecreasing (clock (boot (λ n, 100 * Z.of_nat n)))) as Hclk
    by (intros n; cbn; lia).
  split; [exact Hclk|].
  exact (proj1 (TokenBucket_tokens_stay_in_range (Qc_of_Z 2) (Qc_of_Z 1) None
                  [Consume; Consume; Consume; GetTokens] _ Hclk
                  ltac:(done) ltac:(done) ltac:(done))).
Defined.

Lemma frozen_with_reads w c k :
  frozen w c → frozen (with_reads (k + reads w) w) c.
Proof.
  intros Hf j. unfold reading. cbn. specialize (Hf (k + j)%nat). unfold reading in Hf.
  rewrite <- Hf. f_equal. lia.
Qed.

Lemma refill_frozen b w c :
  frozen w c → TokenBucket.lastRefill b = c →
  (TokenBucket.tokens b ≤ TokenBucket.maxTokens b)%Qc →
  TokenBucket.refill b w = (b, with_reads (1 + reads w) w).
Proof.
  intros Hf Hlast Hle. rewrite refill_run, (Hf 0%nat), Hlast, Z.sub_diag.
  assert (TokenBucket.tokens b
          + Qc_of_Z 0 / Qc_of_Z (TokenBucket.refillInterval b) * TokenBucket.refillRate b
          = TokenBucket.tokens b)%Qc as ->.
  { assert (Qc_of_Z 0 = 0%Qc) as -> by (by apply Qc_is_canon).
    unfold Qcdiv. by rewrite !Qcmult_0_l, Qcplus_0_r. }
  assert (Math.min (TokenBucket.maxTokens b) (TokenBucket.tokens b) = TokenBucket.tokens b)
    as ->.
  { unfold Math.min. case_decide; [|done]. by apply Qcle_antisym. }
  rewrite <- Hlast. by destruct b.
Qed.

Lemma consume_frozen b w c :
  frozen w c → TokenBucket.lastRefill b = c →
  (TokenBucket.tokens b ≤ TokenBucket.maxTokens b)%Qc →
  TokenBucket.consume b w
  = (if decide (1 ≤ TokenBucket.tokens b)%Qc
     then (true, TokenBucket.mk (TokenBucket.maxTokens b) (TokenBucket.tokens b - 1)%Qc
                   (TokenBucket.refillRate b) (TokenBucket.refillInterval b)
                   (TokenBucket.lastRefill b))
     else (false, b),
     with_reads (1 + reads w) w).
Proof.
  intros Hf Hlast Hle. rewrite consume_run. cbv zeta. unfold result, after.
  by rewrite (refill_frozen b w c Hf Hlast Hle).
Qed.

Lemma checkTokenBucket_frozen userId action ub b w c :
  ub !! userBucketKey userId action = Some b →
  frozen w c → TokenBucket.lastRefill b = c →
  (TokenBucket.tokens b ≤ TokenBucket.maxTokens b)%Qc →
  checkTokenBucket userId action ub w
  = (if decide (1 ≤ TokenBucket.tokens b)%Qc
     then (true,
           <[userBucketKey userId action :=
               TokenBucket.mk (TokenBucket.maxTokens b) (TokenBucket.tokens b - 1)%Qc
                 (TokenBucket.refillRate b) (TokenBucket.refillInterval b)
                 (TokenBucket.lastRefill b)]> ub)
     else (false, <[userBucketKey userId action := b]> ub),
     with_reads (1 + reads w) w).
Proof.
  intros Hub Hf Hlast Hle. unfold checkTokenBucket, getUserBucket. rewrite Hub.
  rewrite bind_run. cbn [mret M_ret fst snd].
  rewrite bind_run, (consume_frozen b w c Hf Hlast Hle). cbn [fst snd].
  by case_decide.
Qed.

Lemma checkTokenBucketTimes_frozen userId action n :
  ∀ ub b t w c,
    ub !! userBucketKey userId action = Some b →
    TokenBucket.tokens b = Qc_of_Z t →
    (TokenBucket.tokens b ≤ TokenBucket.maxTokens b)%Qc →
    TokenBucket.lastRefill b = c →
    frozen w c →
    ∀ i, (i < n)%nat →
      (result (checkTokenBucketTimes n userId action ub) w).1 !! i
      = Some (bool_decide (Z.of_nat i < t)).
Proof.
  induction n as [|n IH]; intros ub b t w c Hub Htok Hle Hlast Hf i Hi; [lia|].
  unfold result. cbn [checkTokenBucketTimes].
  rewrite bind_run, (checkTokenBucket_frozen userId action ub b w c Hub Hf Hlast Hle).
  cbn [fst snd].
  set (key := userBucketKey userId action).
  set (w1 := with_reads (1 + reads w) w).
  assert (frozen w1 c) as Hf1 by (by apply frozen_with_reads).
  destruct (decide (1 ≤ TokenBucket.tokens b)%Qc) as [Hone|Hnone].
  - assert (1 ≤ t) as Ht.
    { rewrite Htok in Hone. exact (proj2 (Z2Qc_inj_le 1 t) Hone). }
    set (b' := TokenBucket.mk _ _ _ _ _).
    pose proof (IH (<[key := b']> ub) b' (t - 1) w1 c) as IH'.
    unfold result in IH'. rewrite bind_run. cbn [fst snd].
    destruct (checkTokenBucketTimes n userId action (<[key := b']> ub) w1)
      as [[oks ub'] w2]. cbn [fst snd mret M_ret] in *.
    destruct i as [|i]; cbn [lookup list_lookup].
    + f_equal. symmetry. apply bool_decide_eq_true. lia.
    + rewrite IH'; try done.
      * f_equal. apply bool_decide_ext. lia.
      * by rewrite lookup_insert_eq.
      * subst b'. cbn. rewrite Htok, Z2Qc_inj_sub. done.
      * subst b'. cbn. qc_linear.
      * lia.
  - assert (¬ 1 ≤ t) as Ht.
    { intros Ht. apply Hnone. rewrite Htok. exact (proj1 (Z2Qc_inj_le 1 t) Ht). }
    pose proof (IH (<[key := b]> ub) b t w1 c) as IH'.
    unfold result in IH'. rewrite bind_run. cbn [fst snd].
    destruct (checkTokenBucketTimes n userId action (<[key := b]> ub) w1)
      as [[oks ub'] w2]. cbn [fst snd mret M_ret] in *.
    destruct i as [|i]; cbn [lookup list_lookup].
    + f_equal. symmetry. apply bool_decide_eq_false. lia.
    + rewrite IH'; try done.
      * f_equal. rewrite !bool_decide_eq_false_2; [done|lia|lia].
      * by rewrite lookup_insert_eq.
      * lia.
Qed.

Lemma checkTokenBucket_first userId action ub w :
  ub !! userBucketKey userId action = None →
  let config := LIMITS action in
  let b0 := TokenBucket.mk (Qc_of_Z (RateLimitConfig.max config * 2))
              (Qc_of_Z (RateLimitConfig.max config * 2))
              (Qc_of_Z (RateLimitConfig.max config))
              (RateLimitConfig.windowMs config) (reading w 0) in
  checkTokenBucket userId action ub w
  = checkTokenBucket userId action (<[userBucketKey userId action := b0]> ub)
      (with_reads (1 + reads w) w).
Proof.
  intros Hnone config b0. unfold checkTokenBucket, getUserBucket.
  rewrite Hnone, lookup_insert_eq. fold config.
  rewrite !bind_run, new_run. reflexivity.
Qed.

(** X6.  For a (user, action) without a bucket and a clock that stands still,
    the [i]-th (from 0) of [n] calls of [checkTokenBucket] in a row answers
    [true] exactly when [i < 2 * LIMITS[action].max]: the first call creates
    the bucket with twice the fixed-window maximum, every admitted call
    takes one token, and nothing is refilled while no time passes. *)
Theorem checkTokenBucket_burst_is_twice_max userId action n userBuckets w :
  userBuckets !! userBucketKey userId action = None →
  frozen w (reading w 0) →
  ∀ i, (i < n)%nat →
    (result (checkTokenBucketTimes n userId action userBuckets) w).1 !! i
    = Some (bool_decide (Z.of_nat i < 2 * RateLimitConfig.max (LIMITS action))).
Proof.
  intros Hnone Hf i Hi.
  destruct n as [|n]; [lia|].
  set (key := userBucketKey userId action).
  set (b0 := TokenBucket.mk (Qc_of_Z (RateLimitConfig.max (LIMITS action) * 2))
               (Qc_of_Z (RateLimitConfig.max (LIMITS action) * 2))
               (Qc_of_Z (RateLimitConfig.max (LIMITS action)))
               (RateLimitConfig.windowMs (LIMITS action)) (reading w 0)).
  set (w0 := with_reads (1 + reads w) w).
  assert (frozen w0 (reading w 0)) as Hf0 by (by apply frozen_with_reads).
  pose proof (checkTokenBucketTimes_frozen userId action (S n) (<[key := b0]> userBuckets)
                b0 (RateLimitConfig.max (LIMITS action) * 2) w0 (reading w 0)
                ltac:(by rewrite lookup_insert_eq) eq_refl ltac:(apply Qcle_refl)
                eq_refl Hf0 i Hi) as Hrun.
  rewrite (bool_decide_ext _ (Z.of_nat i < RateLimitConfig.max (LIMITS action) * 2))
    by lia.
  rewrite <- Hrun. do 2 f_equal.
  unfold result. cbn [checkTokenBucketTimes]. rewrite !bind_run.
  by rewrite (checkTokenBucket_first userId action userBuckets w Hnone).
Qed.

Lemma checkTokenBucket_burst_witness :
  (∅ : gmap string TokenBucket.t) !! userBucketKey "u1" reaction = None
  ∧ (result (checkTokenBucketTimes 11 "u1" reaction ∅) (boot (λ _, 7000))).1 !! 10%nat
    = Some (bool_decide (Z.of_nat 10 < 2 * RateLimitConfig.max (LIMITS reaction))).
Proof.
  assert ((∅ : gmap string TokenBucket.t) !! userBucketKey "u1" reaction = None) as Hnone
    by apply lookup_empty.
  split; [exact Hnone|].
  exact (checkTokenBucket_burst_is_twice_max "u1" reaction 11 ∅ (boot (λ _, 7000))
           Hnone (λ _, eq_refl) 10%nat ltac:(lia)).
Defined.

(* ================================================================== *)
(** ** The keys of the room manager never collide *)
(* ================================================================== *)

Lemma append_same_length (a b s1 s2 : string) :
  a +:+ s1 = b +:+ s2 → String.length s1 = String.length s2 → a = b ∧ s1 = s2.
Proof.
  revert b. induction a as [|c a IH]; intros [|c' b] Heq Hlen; simpl in Heq.
  - done.
  - apply (f_equal String.length) in Heq.
    rewrite ?length_append in Heq. simpl in Heq. rewrite ?length_append in Heq. lia.
  - apply (f_equal String.length) in Heq.
    rewrite ?length_append in Heq. simpl in Heq. rewrite ?length_append in Heq. lia.
  - injection Heq as -> Heq. destruct (IH _ Heq Hlen) as [-> ->]. done.
Qed.

Lemma append_shorter_suffix (a b s1 s2 : string) :
  a +:+ s1 = b +:+ s2 → (String.length s1 ≤ String.length s2)%nat →
  ∃ c, s2 = c +:+ s1.
Proof.
  revert a. induction b as [|c' b IH]; intros a Heq Hlen; simpl in Heq.
  - by exists a.
  - destruct a as [|c a]; simpl in Heq.
    + apply (f_equal String.length) in Heq.
    rewrite ?length_append in Heq. simpl in Heq. rewrite ?length_append in Heq. lia.
    + injection Heq as -> Heq. by apply (IH a).
Qed.

(** Two keys ["room:" a s1] and ["room:" b s2] with different suffixes out
    of [":meta"], [":users"], [":video"], [":cursors"] are different. *)
Ltac suffix_case H :=
  first
    [ discriminate H
    | apply (f_equal String.length) in H;
      rewrite ?length_append in H; simpl in H; rewrite ?length_append in H; simpl in H;
      lia ].

Ltac suffix_clash H :=
  first
    [ apply append_same_length in H as [_ H]; [discriminate H|reflexivity]
    | apply append_shorter_suffix in H as [[|? [|? [|? [|? ?]]]] H];
      [suffix_case H..|simpl; lia]
    | symmetry in H;
      apply append_shorter_suffix in H as [[|? [|? [|? [|? ?]]]] H];
      [suffix_case H..|simpl; lia] ].

Ltac key_clash :=
  let H := fresh "Hkey" in
  intros H;
  unfold KEYS.roomMeta, KEYS.roomUsers, KEYS.roomVideo, KEYS.roomCursors, KEYS.allRooms in H;
  first
    [ discriminate H
    | apply (String.app_inj "room:") in H; suffix_clash H ].

Lemma roomUsers_inj (a b : string) : KEYS.roomUsers a = KEYS.roomUsers b → a = b.
Proof.
  unfold KEYS.roomUsers. intros Heq.
  apply (String.app_inj "room:") in Heq. by apply append_inj_r in Heq.
Qed.

Lemma roomCursors_inj (a b : string) : KEYS.roomCursors a = KEYS.roomCursors b → a = b.
Proof.
  unfold KEYS.roomCursors. intros Heq.
  apply (String.app_inj "room:") in Heq. by apply append_inj_r in Heq.
Qed.

Lemma roomMeta_inj (a b : string) : KEYS.roomMeta a = KEYS.roomMeta b → a = b.
Proof.
  unfold KEYS.roomMeta. intros Heq.
  apply (String.app_inj "room:") in Heq. by apply append_inj_r in Heq.
Qed.

Lemma roomKeys_distinct (a b : string) :
  KEYS.roomUsers a ≠ KEYS.roomCursors b
  ∧ KEYS.roomUsers a ≠ KEYS.roomMeta b
  ∧ KEYS.roomUsers a ≠ KEYS.roomVideo b
  ∧ KEYS.roomCursors a ≠ KEYS.roomMeta b
  ∧ KEYS.roomCursors a ≠ KEYS.roomVideo b
  ∧ KEYS.roomMeta a ≠ KEYS.roomVideo b
  ∧ KEYS.allRooms ≠ KEYS.roomUsers b
  ∧ KEYS.allRooms ≠ KEYS.roomCursors b
  ∧ KEYS.allRooms ≠ KEYS.roomMeta b
  ∧ KEYS.allRooms ≠ KEYS.roomVideo b.
Proof. split_and!; key_clash. Qed.

(* ================================================================== *)
(** ** Reading and writing the Redis data *)
(* ================================================================== *)

Lemma connected_redisCommand f w : connected (redisCommand f w) = connected w.
Proof.
  unfold connected, redisCommand, clientIsOpen.
  destruct w as [clk n rc flag lr lu lv lb ca cb em]; cbn. by destruct rc as [[]|].
Qed.

Lemma redisDb_redisCommand f w :
  connected w = true → redisDb (redisCommand f w) = f (redisDb w).
Proof.
  unfold connected, redisCommand, redisDb, clientIsOpen.
  destruct w as [clk n rc flag lr lu lv lb ca cb em]; cbn.
  destruct flag, rc as [[[] d]|]; by cbn.
Qed.

Lemma redisCommand_compose f g w :
  redisCommand g (redisCommand f w) = redisCommand (g ∘ f) w.
Proof.
  unfold redisCommand. destruct w as [clk n rc flag lr lu lv lb ca cb em]; cbn.
  by destruct rc as [[]|].
Qed.

Lemma hashes_touch_value key seconds (d : Redis.Db) k :
  Redis.hGetAll k (Redis.expire key seconds d) = Redis.hGetAll k d.
Proof.
  unfold Redis.hGetAll, Redis.expire. cbn.
  pose proof (touch_value key seconds (Redis.hashes d) k) as H.
  destruct (Redis.touch _ _ _ !! k) as [[? ?]|], (Redis.hashes d !! k) as [[? ?]|];
    cbn in *; by simplify_eq.
Qed.

Lemma get_expire key seconds (d : Redis.Db) k :
  Redis.get k (Redis.expire key seconds d) = Redis.get k d.
Proof. unfold Redis.get, Redis.expire. cbn. apply touch_value. Qed.

Lemma hGetAll_hSet_ne key field doc d k :
  key ≠ k → Redis.hGetAll k (Redis.hSet key field doc d) = Redis.hGetAll k d.
Proof.
  intros Hne. unfold Redis.hGetAll, Redis.hSet.
  destruct (default _ _) as [h t]. cbn. by rewrite lookup_insert_ne.
Qed.

Lemma hGetAll_hDel_ne key field d k :
  key ≠ k → Redis.hGetAll k (Redis.hDel key field d) = Redis.hGetAll k d.
Proof.
  intros Hne. unfold Redis.hGetAll, Redis.hDel.
  destruct (Redis.hashes d !! key) as [[h t]|]; [|done]. cbn.
  case_decide; by rewrite ?lookup_delete_ne, ?lookup_insert_ne.
Qed.

Lemma get_hSet key field doc d k : Redis.get k (Redis.hSet key field doc d) = Redis.get k d.
Proof. unfold Redis.get, Redis.hSet. by destruct (default _ _). Qed.

Lemma get_hDel key field d k : Redis.get k (Redis.hDel key field d) = Redis.get k d.
Proof. unfold Redis.get, Redis.hDel. by destruct (Redis.hashes d !! key) as [[h t]|]. Qed.

Lemma get_del key d k :
  Redis.get k (Redis.del key d) = if decide (key = k) then None else Redis.get k d.
Proof.
  unfold Redis.get, Redis.del. cbn. rewrite lookup_delete. by case_decide.
Qed.

Lemma get_set_ex key doc seconds d k :
  Redis.get k (Redis.set_ex key doc seconds d)
  = if decide (key = k) then Some doc else Redis.get k d.
Proof.
  unfold Redis.get, Redis.set_ex. cbn. rewrite lookup_insert. by case_decide.
Qed.

Lemma get_incr key d k : Redis.get k (Redis.incr key d).2 = Redis.get k d.
Proof. unfold Redis.get, Redis.incr. by destruct (default _ _). Qed.

Lemma hGetAll_incr key d k : Redis.hGetAll k (Redis.incr key d).2 = Redis.hGetAll k d.
Proof. unfold Redis.hGetAll, Redis.incr. by destruct (default _ _). Qed.

Lemma storedRoom_get roomId w :
  connected w = true →
  storedRoom roomId w = Redis.get (KEYS.roomMeta roomId) (redisDb w) ≫= parse.
Proof.
  intros Hc. unfold storedRoom, Redis.get. rewrite Hc.
  by destruct (Redis.strings (redisDb w) !! _) as [[? ?]|].
Qed.

Lemma storedVideo_get roomId w :
  connected w = true →
  storedVideo roomId w = Redis.get (KEYS.roomVideo roomId) (redisDb w) ≫= parse.
Proof.
  intros Hc. unfold storedVideo, Redis.get. rewrite Hc.
  by destruct (Redis.strings (redisDb w) !! _) as [[? ?]|].
Qed.

(** *** What the functions of the room manager return and do *)

Lemma getRoomUsers_run roomId w : getRoomUsers roomId w = (usersOf roomId w, w).
Proof.
  unfold getRoomUsers, usersOf. unfold_redis. unfold_M.
  destruct w as [clk n rc flag lr lu lv lb ca cb em]; cbn.
  by destruct flag, rc as [[[] d]|].
Qed.

Lemma getRoomCursors_run roomId w : getRoomCursors roomId w = (cursorsOf roomId w, w).
Proof.
  unfold getRoomCursors, cursorsOf. unfold_redis. unfold_M.
  destruct w as [clk n rc flag lr lu lv lb ca cb em]; cbn.
  by destruct flag, rc as [[[] d]|].
Qed.

Lemma getRoomUserCount_run roomId w :
  getRoomUserCount roomId w = (userCountOf roomId w, w).
Proof.
  unfold getRoomUserCount, userCountOf, memberIds, Redis.hLen. unfold_redis. unfold_M.
  destruct w as [clk n rc flag lr lu lv lb ca cb em]; cbn.
  destruct flag, rc as [[[] d]|]; cbn; by rewrite size_dom.
Qed.

Lemma addUserToRoom_run roomId u w :
  addUserToRoom roomId u w =
    ((), if connected w then
           redisCommand (λ d, Redis.expire (KEYS.roomUsers roomId) ROOM_TTL
                                (Redis.hSet (KEYS.roomUsers roomId) (User.id u) (JUser u) d)) w
         else
           with_localRoomUsers
             (<[roomId := <[User.id u := u]> (default ∅ (localRoomUsers w !! roomId))]>
                (localRoomUsers w)) w).
Proof.
  unfold addUserToRoom, redisCommand. unfold_redis. unfold_M.
  destruct w as [clk n rc flag lr lu lv lb ca cb em]; cbn -[Redis.expire Redis.hSet].
  by destruct flag, rc as [[[] d]|].
Qed.

Lemma removeUserFromRoom_run roomId userId w :
  removeUserFromRoom roomId userId w =
    ((), if connected w then
           redisCommand (λ d, Redis.hDel (KEYS.roomCursors roomId) userId
                                (Redis.hDel (KEYS.roomUsers roomId) userId d)) w
         else
           match localRoomUsers w !! roomId with
           | Some users =>
               with_localRoomUsers (<[roomId := delete userId users]> (localRoomUsers w)) w
           | None => w
           end).
Proof.
  unfold removeUserFromRoom, redisCommand. unfold_redis. unfold_M.
  destruct w as [clk n rc flag lr lu lv lb ca cb em]; cbn -[Redis.hDel].
  by destruct flag, rc as [[[] d]|].
Qed.

Lemma updateCursor_run roomId userId c w :
  updateCursor roomId userId c w =
    ((), if connected w then
           redisCommand (Redis.hSet (KEYS.roomCursors roomId) userId (JCursor c)) w
         else w).
Proof.
  unfold updateCursor, redisCommand. unfold_redis. unfold_M.
  destruct w as [clk n rc flag lr lu lv lb ca cb em]; cbn -[Redis.hSet].
  by destruct flag, rc as [[[] d]|].
Qed.

Lemma removeCursor_run roomId userId w :
  removeCursor roomId userId w =
    ((), if connected w then redisCommand (Redis.hDel (KEYS.roomCursors roomId) userId) w
         else w).
Proof.
  unfold removeCursor, redisCommand. unfold_redis. unfold_M.
  destruct w as [clk n rc flag lr lu lv lb ca cb em]; cbn -[Redis.hDel].
  by destruct flag, rc as [[[] d]|].
Qed.

Lemma roomView_cluster roomId w :
  connected w = true → roomView roomId w = dbView roomId (redisDb w).
Proof.
  intros Hc. unfold roomView, dbView.
  rewrite storedRoom_get, storedVideo_get by done.
  unfold roomIndex, usersOf, memberIds, cursorsOf. by rewrite Hc.
Qed.

Lemma roomView_standalone roomId w :
  connected w = false → roomView roomId w = localView roomId w.
Proof.
  intros Hc. unfold roomView, localView, storedRoom, storedVideo, roomIndex, usersOf,
    memberIds, cursorsOf. by rewrite Hc.
Qed.

Lemma roomView_redisCommand roomId f w :
  connected w = true →
  roomView roomId (redisCommand f w) = dbView roomId (f (redisDb w)).
Proof.
  intros Hc. rewrite roomView_cluster by (by rewrite connected_redisCommand).
  by rewrite redisDb_redisCommand.
Qed.

Ltac key_ne :=
  solve
    [ key_clash
    | let H := fresh "Hkey" in
      intros H;
      first [ apply roomUsers_inj in H | apply roomCursors_inj in H
            | apply roomMeta_inj in H | apply roomVideo_inj in H ];
      congruence ].

(** Push a Redis command through the reads of a view. *)
Ltac redis_simpl :=
  repeat first
    [ rewrite hashes_touch_value
    | rewrite get_expire
    | rewrite get_hSet
    | rewrite get_hDel
    | rewrite get_incr
    | rewrite hGetAll_incr
    | rewrite hGetAll_hSet
    | rewrite hGetAll_hDel
    | rewrite hGetAll_hSet_ne by key_ne
    | rewrite hGetAll_hDel_ne by key_ne ].

(* ================================================================== *)
(** ** Members of a room *)
(* ================================================================== *)

Lemma size_union_singleton (x : string) (X : gset string) :
  Z.of_nat (size ({[x]} ∪ X)) = Z.of_nat (size X) + (if decide (x ∈ X) then 0 else 1).
Proof.
  case_decide as Hin.
  - rewrite (subseteq_union_1_L {[x]} X) by (by apply singleton_subseteq_l). lia.
  - rewrite size_union by (by apply disjoint_singleton_l).
    rewrite size_singleton. lia.
Qed.

Lemma size_difference_singleton (x : string) (X : gset string) :
  Z.of_nat (size (X ∖ {[x]})) = Z.of_nat (size X) - (if decide (x ∈ X) then 1 else 0).
Proof.
  case_decide as Hin.
  - assert ({[x]} ⊆ X) as Hsub by (by apply singleton_subseteq_l).
    rewrite (size_difference X {[x]} Hsub).
    apply subseteq_size in Hsub. rewrite size_singleton in *. lia.
  - rewrite difference_disjoint_L by (by apply disjoint_singleton_r). lia.
Qed.

Lemma roomView_addUserToRoom roomId u w r :
  roomView r (after (addUserToRoom roomId u) w)
  = if decide (r = roomId)
    then mkRoomView (storedRoom r w) (roomIndex w !! r)
           (<[User.id u := u]> (usersOf r w)) ({[User.id u]} ∪ memberIds r w)
           (cursorsOf r w) (storedVideo r w)
    else roomView r w.
Proof.
  unfold after. rewrite addUserToRoom_run. cbn [snd].
  destruct (connected w) eqn:Hc.
  - rewrite roomView_redisCommand by done.
    destruct (decide (r = roomId)) as [->|Hr].
    + unfold dbView. redis_simpl.
      rewrite (omap_insert_Some _ _ _ _ u) by done. rewrite dom_insert_L.
      rewrite storedRoom_get, storedVideo_get by done.
      unfold roomIndex, usersOf, memberIds, cursorsOf. by rewrite Hc.
    + rewrite roomView_cluster by done. unfold dbView. by redis_simpl.
  - rewrite (roomView_standalone _ (with_localRoomUsers _ _)) by done.
    destruct (decide (r = roomId)) as [->|Hr].
    + unfold localView, with_localRoomUsers.
      cbn [localRooms localRoomUsers localVideoStates].
      rewrite (lookup_insert_eq (localRoomUsers w)). cbn. rewrite dom_insert_L.
      unfold storedRoom, storedVideo, roomIndex, usersOf, memberIds, cursorsOf.
      by rewrite Hc.
    + rewrite roomView_standalone by done.
      unfold localView, with_localRoomUsers.
      cbn [localRooms localRoomUsers localVideoStates].
      by rewrite (lookup_insert_ne (localRoomUsers w)).
Qed.

(** X7.  After [addUserToRoom(r, u)], [getRoomUsers(r)] maps [u.id] to [u] and
    is otherwise as before; the stored member ids of [r] are the old ones
    and [u.id]; [getRoomUserCount(r)] has grown by one when [u.id] was not
    stored for [r] and is unchanged otherwise; the metadata, the video
    state and the cursors of [r], and everything kept for any other room,
    are unchanged.  In cluster mode and in standalone mode. *)
Theorem addUserToRoom_adds_one_member roomId u w :
  let w' := after (addUserToRoom roomId u) w in
  result (getRoomUsers roomId) w' = <[User.id u := u]> (result (getRoomUsers roomId) w)
  ∧ memberIds roomId w' = {[User.id u]} ∪ memberIds roomId w
  ∧ result (getRoomUserCount roomId) w'
    = result (getRoomUserCount roomId) w
      + (if decide (User.id u ∈ memberIds roomId w) then 0 else 1)
  ∧ storedRoom roomId w' = storedRoom roomId w
  ∧ storedVideo roomId w' = storedVideo roomId w
  ∧ result (getRoomCursors roomId) w' = result (getRoomCursors roomId) w
  ∧ (∀ r, r ≠ roomId → roomView r w' = roomView r w).
Proof.
  intros w'.
  pose proof (roomView_addUserToRoom roomId u w) as Hview. fold w' in Hview.
  pose proof (Hview roomId) as Hown. rewrite decide_True in Hown by done.
  unfold result. rewrite !getRoomUsers_run, !getRoomUserCount_run, !getRoomCursors_run.
  cbn [fst]. unfold roomView in Hown. injection Hown as Hroom Hidx Husers Hmem Hcur Hvid.
  split_and!; try done.
  - unfold userCountOf. rewrite Hmem. apply size_union_singleton.
  - intros r Hr. by rewrite Hview, decide_False.
Qed.

Lemma roomView_removeUserFromRoom roomId userId w r :
  roomView r (after (removeUserFromRoom roomId userId) w)
  = if decide (r = roomId)
    then mkRoomView (storedRoom r w) (roomIndex w !! r)
           (delete userId (usersOf r w)) (memberIds r w ∖ {[userId]})
           (delete userId (cursorsOf r w)) (storedVideo r w)
    else roomView r w.
Proof.
  unfold after. rewrite removeUserFromRoom_run. cbn [snd].
  destruct (connected w) eqn:Hc.
  - rewrite roomView_redisCommand by done.
    destruct (decide (r = roomId)) as [->|Hr].
    + unfold dbView. redis_simpl.
      rewrite !omap_delete, dom_delete_L.
      rewrite storedRoom_get, storedVideo_get by done.
      unfold roomIndex, usersOf, memberIds, cursorsOf. by rewrite Hc.
    + rewrite roomView_cluster by done. unfold dbView. by redis_simpl.
  - destruct (localRoomUsers w !! roomId) as [users|] eqn:Husers.
    + rewrite (roomView_standalone _ (with_localRoomUsers _ _)) by done.
      destruct (decide (r = roomId)) as [->|Hr].
      * unfold localView, with_localRoomUsers.
        cbn [localRooms localRoomUsers localVideoStates].
        rewrite (lookup_insert_eq (localRoomUsers w)). cbn. rewrite dom_delete_L.
        unfold storedRoom, storedVideo, roomIndex, usersOf, memberIds, cursorsOf.
        by rewrite Hc, Husers, delete_empty.
      * rewrite roomView_standalone by done.
        unfold localView, with_localRoomUsers.
        cbn [localRooms localRoomUsers localVideoStates].
        by rewrite (lookup_insert_ne (localRoomUsers w)).
    + case_decide as Hr; [|done]. subst r.
      unfold roomView, usersOf, memberIds, cursorsOf.
      rewrite Hc, Husers. cbn. rewrite !delete_empty.
      f_equal. by rewrite dom_empty_L, difference_disjoint_L by set_solver.
Qed.

(** X8.  After [removeUserFromRoom(r, id)], [id] is gone from
    [getRoomUsers(r)] and from [getRoomCursors(r)], which are otherwise as
    before; [getRoomUserCount(r)] is one less exactly when [id] was stored
    for [r]; the room itself stays (metadata, listing, video state), also
    when its last member leaves; everything kept for any other room is
    unchanged.  In cluster mode and in standalone mode. *)
Theorem removeUserFromRoom_removes_member_and_cursor roomId userId w :
  let w' := after (removeUserFromRoom roomId userId) w in
  result (getRoomUsers roomId) w' = delete userId (result (getRoomUsers roomId) w)
  ∧ result (getRoomCursors roomId) w' = delete userId (result (getRoomCursors roomId) w)
  ∧ memberIds roomId w' = memberIds roomId w ∖ {[userId]}
  ∧ result (getRoomUserCount roomId) w'
    = result (getRoomUserCount roomId) w
      - (if decide (userId ∈ memberIds roomId w) then 1 else 0)
  ∧ storedRoom roomId w' = storedRoom roomId w
  ∧ roomIndex w' !! roomId = roomIndex w !! roomId
  ∧ storedVideo roomId w' = storedVideo roomId w
  ∧ (∀ r, r ≠ roomId → roomView r w' = roomView r w).
Proof.
  intros w'.
  pose proof (roomView_removeUserFromRoom roomId userId w) as Hview. fold w' in Hview.
  pose proof (Hview roomId) as Hown. rewrite decide_True in Hown by done.
  unfold result. rewrite !getRoomUsers_run, !getRoomUserCount_run, !getRoomCursors_run.
  cbn [fst]. unfold roomView in Hown. injection Hown as Hroom Hidx Husers Hmem Hcur Hvid.
  split_and!; try done.
  - unfold userCountOf. rewrite Hmem. apply size_difference_singleton.
  - intros r Hr. by rewrite Hview, decide_False.
Qed.

Lemma parts_redisCommand roomId f w :
  connected w = true →
  storedRoom roomId (redisCommand f w)
    = Redis.get (KEYS.roomMeta roomId) (f (redisDb w)) ≫= parse
  ∧ roomIndex (redisCommand f w) !! roomId
    = omap parse (Redis.hGetAll KEYS.allRooms (f (redisDb w))) !! roomId
  ∧ usersOf roomId (redisCommand f w)
    = omap parse (Redis.hGetAll (KEYS.roomUsers roomId) (f (redisDb w)))
  ∧ memberIds roomId (redisCommand f w)
    = dom (Redis.hGetAll (KEYS.roomUsers roomId) (f (redisDb w)))
  ∧ cursorsOf roomId (redisCommand f w)
    = omap parse (Redis.hGetAll (KEYS.roomCursors roomId) (f (redisDb w)))
  ∧ storedVideo roomId (redisCommand f w)
    = Redis.get (KEYS.roomVideo roomId) (f (redisDb w)) ≫= parse.
Proof.
  intros Hc. pose proof (roomView_redisCommand roomId f w Hc) as H.
  unfold roomView, dbView in H. by injection H.
Qed.

Lemma parts_cluster roomId w :
  connected w = true →
  storedRoom roomId w = Redis.get (KEYS.roomMeta roomId) (redisDb w) ≫= parse
  ∧ roomIndex w !! roomId = omap parse (Redis.hGetAll KEYS.allRooms (redisDb w)) !! roomId
  ∧ usersOf roomId w = omap parse (Redis.hGetAll (KEYS.roomUsers roomId) (redisDb w))
  ∧ memberIds roomId w = dom (Redis.hGetAll (KEYS.roomUsers roomId) (redisDb w))
  ∧ cursorsOf roomId w = omap parse (Redis.hGetAll (KEYS.roomCursors roomId) (redisDb w))
  ∧ storedVideo roomId w = Redis.get (KEYS.roomVideo roomId) (redisDb w) ≫= parse.
Proof.
  intros Hc. pose proof (roomView_cluster roomId w Hc) as H.
  unfold roomView, dbView in H. by injection H.
Qed.

(** X9.  In cluster mode [updateCursor(r, id, c)] makes [getRoomCursors(r)] map
    [id] to [c], and [removeCursor(r, id)] afterwards leaves
    [getRoomCursors(r)] as it was without the entry of [id].  In standalone
    mode both calls change nothing and [getRoomCursors] is empty for every
    room.  The cursors of other rooms, the members, the metadata and the
    video state of every room are never touched. *)
Theorem cursor_store_round_trip roomId userId c w :
  let stored := after (updateCursor roomId userId c) w in
  let removed := after (removeCursor roomId userId) stored in
  result (getRoomCursors roomId) stored
  = (if connected w then <[userId := c]> (result (getRoomCursors roomId) w) else ∅)
  ∧ result (getRoomCursors roomId) removed
    = delete userId (result (getRoomCursors roomId) w)
  ∧ (connected w = false → stored = w ∧ removed = w
                            ∧ ∀ r, result (getRoomCursors r) w = ∅)
  ∧ (∀ r, r ≠ roomId →
          result (getRoomCursors r) stored = result (getRoomCursors r) w
          ∧ result (getRoomCursors r) removed = result (getRoomCursors r) w)
  ∧ (∀ r, result (getRoomUsers r) removed = result (getRoomUsers r) w
          ∧ storedRoom r removed = storedRoom r w
          ∧ storedVideo r removed = storedVideo r w).
Proof.
  intros stored removed. subst stored removed.
  unfold after, result. rewrite updateCursor_run. cbn [snd].
  rewrite removeCursor_run. cbn [snd].
  rewrite !getRoomCursors_run. cbn [fst].
  destruct (connected w) eqn:Hc.
  - rewrite connected_redisCommand, Hc, redisCommand_compose.
    split_and!.
    + destruct (parts_redisCommand roomId
                  (Redis.hSet (KEYS.roomCursors roomId) userId (JCursor c)) w Hc)
        as (_ & _ & _ & _ & -> & _).
      destruct (parts_cluster roomId w Hc) as (_ & _ & _ & _ & -> & _).
      redis_simpl. by rewrite (omap_insert_Some _ _ _ _ c).
    + destruct (parts_redisCommand roomId
                  (Redis.hDel (KEYS.roomCursors roomId) userId
                   ∘ Redis.hSet (KEYS.roomCursors roomId) userId (JCursor c)) w Hc)
        as (_ & _ & _ & _ & -> & _).
      destruct (parts_cluster roomId w Hc) as (_ & _ & _ & _ & -> & _).
      cbn [compose]. redis_simpl.
      rewrite omap_delete, (omap_insert_Some _ _ _ _ c) by done.
      by rewrite delete_insert_eq.
    + done.
    + intros r Hr. rewrite !getRoomCursors_run. cbn [fst].
      destruct (parts_redisCommand r
                  (Redis.hSet (KEYS.roomCursors roomId) userId (JCursor c)) w Hc)
        as (_ & _ & _ & _ & -> & _).
      destruct (parts_redisCommand r
                  (Redis.hDel (KEYS.roomCursors roomId) userId
                   ∘ Redis.hSet (KEYS.roomCursors roomId) userId (JCursor c)) w Hc)
        as (_ & _ & _ & _ & -> & _).
      destruct (parts_cluster r w Hc) as (_ & _ & _ & _ & -> & _).
      cbn [compose]. by redis_simpl.
    + intros r. rewrite !getRoomUsers_run. cbn [fst].
      destruct (parts_redisCommand r
                  (Redis.hDel (KEYS.roomCursors roomId) userId
                   ∘ Redis.hSet (KEYS.roomCursors roomId) userId (JCursor c)) w Hc)
        as (-> & _ & -> & _ & _ & ->).
      destruct (parts_cluster r w Hc) as (-> & _ & -> & _ & _ & ->).
      cbn [compose]. by redis_simpl.
  - rewrite Hc. unfold cursorsOf. rewrite Hc. rewrite delete_empty.
    split_and!; try done.
    intros _. split_and!; try done. intros r. rewrite getRoomCursors_run.
    unfold cursorsOf. by rewrite Hc.
Qed.

(* ================================================================== *)
(** ** Deleting rooms *)
(* ================================================================== *)

(** Decide the comparisons of keys left by [Redis.del]. *)
Ltac decide_keys :=
  repeat match goal with
  | |- context [decide (?k1 = ?k2)] =>
      first [ rewrite (decide_True (P := k1 = k2)) by reflexivity
            | rewrite (decide_False (P := k1 = k2)) by key_ne ]
  end.

Lemma dbView_deleteRoomCommands roomId d r :
  dbView r (deleteRoomCommands roomId d)
  = if decide (r = roomId) then noRoom
    else dbView r d.
Proof.
  unfold deleteRoomCommands, dbView, noRoom.
  rewrite !hGetAll_del, !get_del, !hGetAll_hDel, !get_hDel.
  destruct (decide (r = roomId)) as [->|Hne]; decide_keys.
  - by rewrite lookup_omap, lookup_delete_eq, omap_empty, dom_empty_L.
  - rewrite !hGetAll_hDel_ne by key_ne.
    by rewrite !lookup_omap, lookup_delete_ne.
Qed.

Lemma roomView_with_reads roomId n w : roomView roomId (with_reads n w) = roomView roomId w.
Proof. done. Qed.

Lemma roomView_deleteRoom roomId w r :
  roomView r (after (deleteRoom roomId) w)
  = if decide (r = roomId) then noRoom else roomView r w.
Proof.
  rewrite deleteRoom_run. destruct (connected w) eqn:Hc.
  - change (with_redisClient (Redis.on_db ?f <$> redisClient w) w) with (redisCommand f w).
    rewrite roomView_redisCommand, dbView_deleteRoomCommands by done.
    by rewrite roomView_cluster.
  - rewrite roomView_standalone by done. rewrite (roomView_standalone r w) by done.
    unfold localView, noRoom. cbn.
    case_decide as Hr.
    + subst r. rewrite !lookup_delete_eq. cbn. by rewrite dom_empty_L.
    + by rewrite !lookup_delete_ne.
Qed.

(** X10.  [deleteRoom(r)] changes nothing that is kept for any other room
    ([getRoom], the listing, members, member count, cursors, video state),
    and leaves alone the clock, the rate-limit buckets, the connection
    attempts, the cursor batches and the emitted messages. *)
Theorem deleteRoom_leaves_other_rooms roomId w :
  let w' := after (deleteRoom roomId) w in
  (∀ r, r ≠ roomId →
        result (getRoom r) w' = result (getRoom r) w
        ∧ roomIndex w' !! r = roomIndex w !! r
        ∧ result (getRoomUsers r) w' = result (getRoomUsers r) w
        ∧ result (getRoomUserCount r) w' = result (getRoomUserCount r) w
        ∧ result (getRoomCursors r) w' = result (getRoomCursors r) w
        ∧ storedVideo r w' = storedVideo r w)
  ∧ clock w' = clock w ∧ reads w' = reads w
  ∧ localBuckets w' = localBuckets w
  ∧ connectionAttempts w' = connectionAttempts w
  ∧ cursorBatches w' = cursorBatches w
  ∧ emitted w' = emitted w.
Proof.
  intros w'. split.
  - intros r Hr.
    pose proof (roomView_deleteRoom roomId w r) as Hview. fold w' in Hview.
    rewrite decide_False in Hview by done.
    unfold roomView in Hview. injection Hview as Hroom Hidx Husers Hmem Hcur Hvid.
    unfold result.
    rewrite !getRoom_run, !getRoomUsers_run, !getRoomUserCount_run, !getRoomCursors_run.
    cbn [fst]. unfold userCountOf. rewrite Hmem. done.
  - subst w'. rewrite deleteRoom_run. by destruct (connected w).
Qed.

(* ================================================================== *)
(** ** cleanupEmptyRooms *)
(* ================================================================== *)

Lemma cleanupEmptyRooms_loop w :
  after cleanupEmptyRooms w = after (forEach reapIfEmpty (result getAllRooms w)) w.
Proof.
  unfold after, result, cleanupEmptyRooms. rewrite bind_run.
  assert ((getAllRooms w).2 = w) as ->; [|done].
  by destruct (getAllRooms_run w) as [->|[_ ->]].
Qed.

Lemma reapIfEmpty_run room w :
  after (reapIfEmpty room) w =
    if decide (userCountOf (Room.id room) w = 0) then
      match storedRoom (Room.id room) w with
      | Some roomData =>
          if decide (60000 < reading w 0 - Room.createdAt roomData)
          then after (deleteRoom (Room.id room)) (with_reads (S (reads w)) w)
          else with_reads (S (reads w)) w
      | None => w
      end
    else w.
Proof.
  unfold after, reapIfEmpty. rewrite bind_run, getRoomUserCount_run. cbn [fst snd].
  case_decide; [|done].
  rewrite bind_run, getRoom_run. cbn [fst snd].
  destruct (storedRoom (Room.id room) w) as [roomData|]; [|done].
  rewrite bind_run. unfold reading. rewrite Nat.add_0_r. cbn [Date_now fst snd].
  by case_decide.
Qed.

(** One turn of the loop reads the clock at most once. *)
Lemma reapIfEmpty_reads room w :
  let w' := after (reapIfEmpty room) w in
  clock w' = clock w ∧ (reads w ≤ reads w' ≤ S (reads w))%nat.
Proof.
  cbv zeta. rewrite reapIfEmpty_run. case_decide; [|split; [done|lia]].
  destruct (storedRoom _ w) as [rd|]; [|split; [done|lia]].
  case_decide.
  - rewrite deleteRoom_run. destruct (connected _); cbn; split; (done || lia).
  - cbn. split; [done|lia].
Qed.

Lemma reapIfEmpty_spares n r room w0 w :
  clock w = clock w0 → (reads w0 ≤ reads w < reads w0 + n)%nat →
  roomView r w = roomView r w0 →
  memberIds r w0 ≠ ∅
  ∨ storedRoom r w0 = None
  ∨ (∃ roomData, storedRoom r w0 = Some roomData
                 ∧ ∀ k, (k < n)%nat → reading w0 k - Room.createdAt roomData ≤ 60000) →
  roomView r (after (reapIfEmpty room) w) = roomView r w0.
Proof.
  intros Hclk Hreads Hview Hspared. rewrite reapIfEmpty_run.
  case_decide as Hcount; [|done].
  destruct (decide (Room.id room = r)) as [Hr|Hr].
  - rewrite Hr in *.
    assert (storedRoom r w = storedRoom r w0 ∧ memberIds r w = memberIds r w0)
      as [Hroom Hmem].
    { unfold roomView in Hview. by injection Hview. }
    rewrite Hroom. destruct Hspared as [Hocc|[Hnone|(rd & Hrd & Hyoung)]].
    + exfalso. apply Hocc. unfold userCountOf in Hcount. rewrite Hmem in Hcount.
      apply leibniz_equiv, size_empty_inv. lia.
    + by rewrite Hnone.
    + rewrite Hrd.
      assert (reading w 0 = reading w0 (reads w - reads w0)) as ->.
      { unfold reading. rewrite Hclk. f_equal. lia. }
      rewrite decide_False by (specialize (Hyoung (reads w - reads w0)%nat); lia).
      by rewrite roomView_with_reads.
  - destruct (storedRoom (Room.id room) w) as [rd|]; [|done].
    case_decide.
    + rewrite roomView_deleteRoom, decide_False by done. by rewrite roomView_with_reads.
    + by rewrite roomView_with_reads.
Qed.

Lemma forEach_reapIfEmpty_spares n r rooms w0 :
  memberIds r w0 ≠ ∅
  ∨ storedRoom r w0 = None
  ∨ (∃ roomData, storedRoom r w0 = Some roomData
                 ∧ ∀ k, (k < n)%nat → reading w0 k - Room.createdAt roomData ≤ 60000) →
  ∀ w, clock w = clock w0 →
       (reads w0 ≤ reads w ∧ reads w + length rooms ≤ reads w0 + n)%nat →
       roomView r w = roomView r w0 →
       roomView r (after (forEach reapIfEmpty rooms) w) = roomView r w0.
Proof.
  intros Hspared. induction rooms as [|room rooms IH]; intros w Hclk Hreads Hview; [done|].
  cbn [forEach]. rewrite after_bind. cbn [length] in Hreads.
  destruct (reapIfEmpty_reads room w) as [Hclk' Hreads']. cbv zeta in *.
  apply IH.
  - by rewrite Hclk'.
  - lia.
  - apply (reapIfEmpty_spares n); [done|lia|done|done].
Qed.

(** X11.  [cleanupEmptyRooms] leaves a room untouched (metadata, listing,
    members, cursors, video state) when a member is stored for it, or when
    its [createdAt] is at most 60 s before each clock reading the clean-up
    can take (at most one per listed room). *)
Theorem cleanupEmptyRooms_spares_occupied_and_young_rooms r w :
  memberIds r w ≠ ∅
  ∨ (∃ roomData, storedRoom r w = Some roomData
                 ∧ ∀ k, (k < length (result getAllRooms w))%nat →
                        reading w k - Room.createdAt roomData ≤ 60000) →
  let w' := after cleanupEmptyRooms w in
  result (getRoom r) w' = result (getRoom r) w
  ∧ roomIndex w' !! r = roomIndex w !! r
  ∧ result (getRoomUsers r) w' = result (getRoomUsers r) w
  ∧ result (getRoomCursors r) w' = result (getRoomCursors r) w
  ∧ storedVideo r w' = storedVideo r w.
Proof.
  intros Hspared w'.
  assert (roomView r w' = roomView r w) as Hview.
  { subst w'. rewrite cleanupEmptyRooms_loop.
    apply (forEach_reapIfEmpty_spares (length (result getAllRooms w)));
      [|done|lia|done].
    destruct Hspared as [?|?]; auto. }
  unfold roomView in Hview. injection Hview as Hroom Hidx Husers Hmem Hcur Hvid.
  unfold result. rewrite !getRoom_run, !getRoomUsers_run, !getRoomCursors_run.
  by cbn [fst].
Qed.

Lemma cleanupEmptyRooms_spares_witness :
  (∃ roomData, storedRoom "r" demoRooms = Some roomData
               ∧ ∀ k, (k < length (result getAllRooms demoRooms))%nat →
                      reading demoRooms k - Room.createdAt roomData ≤ 60000)
  ∧ result (getRoom "r") (after cleanupEmptyRooms demoRooms)
    = result (getRoom "r") demoRooms.
Proof.
  assert (∃ roomData, storedRoom "r" demoRooms = Some roomData
                      ∧ ∀ k, (k < length (result getAllRooms demoRooms))%nat →
                             reading demoRooms k - Room.createdAt roomData ≤ 60000)
    as Hyoung.
  { eexists. split; [reflexivity|]. intros k Hk.
    change (length (result getAllRooms demoRooms)) with 1%nat in Hk.
    assert (k = 0%nat) as -> by lia. by vm_compute. }
  split; [exact Hyoung|].
  exact (proj1 (cleanupEmptyRooms_spares_occupied_and_young_rooms "r" demoRooms
                  (or_intror Hyoung))).
Defined.

(** X12.  A room without metadata ([getRoom] returns null) is never removed
    by [cleanupEmptyRooms]: the guard [roomData && ...] skips it.  So an
    entry of [rooms:all] whose [room:<id>:meta] has expired stays listed
    after every clean-up, with its members and video state. *)
Theorem cleanupEmptyRooms_never_unlists_room_without_meta r w :
  storedRoom r w = None →
  let w' := after cleanupEmptyRooms w in
  roomIndex w' !! r = roomIndex w !! r
  ∧ result (getRoom r) w' = None
  ∧ result (getRoomUsers r) w' = result (getRoomUsers r) w
  ∧ storedVideo r w' = storedVideo r w.
Proof.
  intros Hnone w'.
  assert (roomView r w' = roomView r w) as Hview.
  { subst w'. rewrite cleanupEmptyRooms_loop.
    apply (forEach_reapIfEmpty_spares (length (result getAllRooms w)));
      [auto|done|lia|done]. }
  unfold roomView in Hview. injection Hview as Hroom Hidx Husers Hmem Hcur Hvid.
  unfold result. rewrite !getRoom_run, !getRoomUsers_run.
  cbn [fst]. by rewrite Hroom, Hnone.
Qed.

Lemma cleanupEmptyRooms_stale_listing_witness :
  storedRoom "r" demoExpiredMeta = None
  ∧ is_Some (roomIndex demoExpiredMeta !! "r")
  ∧ roomIndex (after cleanupEmptyRooms demoExpiredMeta) !! "r"
    = roomIndex demoExpiredMeta !! "r".
Proof.
  assert (storedRoom "r" demoExpiredMeta = None) as Hnone by reflexivity.
  split_and!; [exact Hnone|by eexists|].
  exact (proj1 (cleanupEmptyRooms_never_unlists_room_without_meta "r" demoExpiredMeta Hnone)).
Defined.

Lemma reapIfEmpty_other r room w :
  Room.id room ≠ r → roomView r (after (reapIfEmpty room) w) = roomView r w.
Proof.
  intros Hr. rewrite reapIfEmpty_run. case_decide; [|done].
  destruct (storedRoom (Room.id room) w) as [rd|]; [|done].
  case_decide.
  - rewrite roomView_deleteRoom, decide_False by done. by rewrite roomView_with_reads.
  - by rewrite roomView_with_reads.
Qed.

Lemma reapIfEmpty_gone r room w :
  roomView r w = noRoom → roomView r (after (reapIfEmpty room) w) = noRoom.
Proof.
  intros Hgone. destruct (decide (Room.id room = r)) as [Hr|Hr].
  - rewrite reapIfEmpty_run, Hr.
    assert (storedRoom r w = None) as ->.
    { unfold roomView, noRoom in Hgone. by injection Hgone. }
    by case_decide.
  - by rewrite reapIfEmpty_other.
Qed.

Lemma forEach_reapIfEmpty_reaps n r roomData rooms w0 :
  memberIds r w0 = ∅ →
  storedRoom r w0 = Some roomData →
  (∀ k, (k < n)%nat → 60000 < reading w0 k - Room.createdAt roomData) →
  ∀ w, clock w = clock w0 →
       (reads w0 ≤ reads w ∧ reads w + length rooms ≤ reads w0 + n)%nat →
       roomView r w = noRoom
       ∨ (roomView r w = roomView r w0 ∧ ∃ room, room ∈ rooms ∧ Room.id room = r) →
       roomView r (after (forEach reapIfEmpty rooms) w) = noRoom.
Proof.
  intros Hempty Hstored Hold.
  induction rooms as [|room rooms IH]; intros w Hclk Hreads Hstate.
  - destruct Hstate as [?|[_ (room & Hin & _)]]; [done|]. by apply elem_of_nil in Hin.
  - cbn [forEach]. rewrite after_bind. cbn [length] in Hreads.
    destruct (reapIfEmpty_reads room w) as [Hclk' Hreads']. cbv zeta in *.
    apply IH; [by rewrite Hclk'|lia|].
    destruct Hstate as [Hgone|[Hview (room' & Hin & Hid)]].
    { left. by apply reapIfEmpty_gone. }
    destruct (decide (Room.id room = r)) as [Hr|Hr].
    + left. rewrite reapIfEmpty_run, Hr.
      assert (storedRoom r w = storedRoom r w0 ∧ memberIds r w = memberIds r w0)
        as [Hroom Hmem].
      { unfold roomView in Hview. by injection Hview. }
      unfold userCountOf. rewrite Hmem, Hempty, size_empty, decide_True by done.
      rewrite Hroom, Hstored.
      assert (reading w 0 = reading w0 (reads w - reads w0)) as ->.
      { unfold reading. rewrite Hclk. f_equal. lia. }
      rewrite decide_True by (apply Hold; lia).
      by rewrite roomView_deleteRoom, decide_True.
    + right. split; [by rewrite reapIfEmpty_other|].
      exists room'. split; [|done].
      apply elem_of_cons in Hin as [->|Hin]; done.
Qed.

(** X13.  [cleanupEmptyRooms] deletes every listed room that has no member and
    whose [createdAt] is more than 60 s before the clock readings of the
    clean-up: afterwards [getRoom] returns null, the room is not listed, and
    its members, cursors and video state are gone. *)
Theorem cleanupEmptyRooms_reaps_old_empty_rooms r room roomData w :
  room ∈ result getAllRooms w → Room.id room = r →
  result (getRoomUserCount r) w = 0 →
  result (getRoom r) w = Some roomData →
  (∀ k, (k < length (result getAllRooms w))%nat →
        60000 < reading w k - Room.createdAt roomData) →
  let w' := after cleanupEmptyRooms w in
  result (getRoom r) w' = None
  ∧ roomIndex w' !! r = None
  ∧ result (getRoomUsers r) w' = ∅
  ∧ result (getRoomCursors r) w' = ∅
  ∧ storedVideo r w' = None.
Proof.
  intros Hin Hid Hcount Hstored Hold w'.
  unfold result in Hcount, Hstored.
  rewrite getRoomUserCount_run in Hcount. rewrite getRoom_run in Hstored.
  cbn [fst] in *.
  assert (memberIds r w = ∅) as Hempty.
  { unfold userCountOf in Hcount. apply leibniz_equiv, size_empty_inv. lia. }
  assert (roomView r w' = noRoom) as Hview.
  { subst w'. rewrite cleanupEmptyRooms_loop.
    apply (forEach_reapIfEmpty_reaps (length (result getAllRooms w)) r roomData _ w);
      try done; try lia.
    right. split; [done|]. by exists room. }
  unfold roomView, noRoom in Hview. injection Hview as Hroom Hidx Husers Hmem Hcur Hvid.
  unfold result. rewrite !getRoom_run, !getRoomUsers_run, !getRoomCursors_run.
  by cbn [fst].
Qed.

Lemma cleanupEmptyRooms_reaps_witness :
  result (getRoomUserCount "r") demoOldRoom = 0
  ∧ result (getRoom "r") (after cleanupEmptyRooms demoOldRoom) = None.
Proof.
  assert (result (getRoomUserCount "r") demoOldRoom = 0) as Hcount by reflexivity.
  split; [exact Hcount|].
  refine (proj1 (cleanupEmptyRooms_reaps_old_empty_rooms "r"
                   (Room.mk "r" "Room r" "alice" 1000 10000 true)
                   (Room.mk "r" "Room r" "alice" 1000 10000 true) demoOldRoom
                   _ eq_refl Hcount eq_refl _)).
  - apply list_elem_of_singleton. reflexivity.
  - intros k Hk. change (length (result getAllRooms demoOldRoom)) with 1%nat in Hk.
    assert (k = 0%nat) as -> by lia. by vm_compute.
Defined.

(* ================================================================== *)
(** ** Creating rooms *)
(* ================================================================== *)

Lemma createRoom_after roomId creatorId options w :
  let room := result (createRoom roomId creatorId options) w in
  after (createRoom roomId creatorId options) w =
    if connected w then
      redisCommand (λ d, Redis.set_ex (KEYS.roomMeta roomId) (JRoom room) ROOM_TTL
                           (Redis.hSet KEYS.allRooms roomId (JRoom room) d))
        (with_reads (S (reads w)) w)
    else with_localRooms (<[roomId := room]> (localRooms w)) (with_reads (S (reads w)) w).
Proof.
  unfold result, after, createRoom, redisCommand. unfold_redis. unfold_M.
  destruct w as [clk n rc flag lr lu lv lb ca cb em]; cbn -[Redis.hSet Redis.set_ex].
  by destruct flag, rc as [[[] d]|].
Qed.

Lemma hGetAll_set_ex key doc seconds d k :
  Redis.hGetAll k (Redis.set_ex key doc seconds d) = Redis.hGetAll k d.
Proof. done. Qed.

Lemma roomView_createRoom roomId creatorId options w r :
  let room := result (createRoom roomId creatorId options) w in
  roomView r (after (createRoom roomId creatorId options) w)
  = if decide (r = roomId)
    then mkRoomView (Some room) (Some room) (usersOf r w) (memberIds r w)
           (cursorsOf r w) (storedVideo r w)
    else roomView r w.
Proof.
  intros room. rewrite createRoom_after. fold room.
  destruct (connected w) eqn:Hc.
  - rewrite roomView_redisCommand by done.
    change (redisDb (with_reads (S (reads w)) w)) with (redisDb w).
    unfold dbView. rewrite !get_set_ex, !hGetAll_set_ex, !get_hSet.
    destruct (parts_cluster r w Hc) as (Hroom & Hidx & Husers & Hmem & Hcur & Hvid).
    destruct (decide (r = roomId)) as [->|Hne]; decide_keys.
    + rewrite hGetAll_hSet, !hGetAll_hSet_ne by key_ne.
      rewrite (omap_insert_Some _ _ _ _ room) by done. rewrite lookup_insert_eq. cbn.
      by rewrite Husers, Hmem, Hcur, Hvid.
    + rewrite hGetAll_hSet, !hGetAll_hSet_ne by key_ne.
      rewrite (omap_insert_Some _ _ _ _ room) by done. rewrite lookup_insert_ne by done.
      unfold roomView. by rewrite Hroom, Hidx, Husers, Hmem, Hcur, Hvid.
  - rewrite roomView_standalone by done. unfold localView. cbn.
    case_decide as Hr.
    + subst r. rewrite !lookup_insert_eq.
      unfold usersOf, memberIds, cursorsOf, storedVideo. by rewrite Hc.
    + rewrite !lookup_insert_ne by done. by rewrite roomView_standalone.
Qed.

Lemma elem_of_getAllRooms_2 k room w :
  roomIndex w !! k = Some room → room ∈ result getAllRooms w.
Proof.
  intros Hk. unfold result. destruct (getAllRooms_run w) as [->|[Hc ->]]; cbn [fst].
  - apply list_elem_of_fmap. exists (k, room). split; [done|].
    by apply elem_of_map_to_list.
  - unfold roomIndex in Hk. rewrite Hc, lookup_omap in Hk.
    destruct (Redis.hGetAll KEYS.allRooms (redisDb w) !! k) as [doc|] eqn:Hdoc; [|done].
    apply list_elem_of_omap. exists doc. split; [|done].
    apply list_elem_of_fmap. exists (k, doc). split; [done|].
    by apply elem_of_map_to_list.
Qed.

(** X14.  [createRoom(id, creator, options)] returns a room with that id and
    creator, [createdAt] the clock reading it takes, a non-empty name and a
    non-zero [maxUsers] (the [||] fallbacks replace an empty name and a
    zero), and [isPublic = false] only when the options
    say [false].  Afterwards [getRoom(id)] returns this room and
    [getAllRooms()] lists it.  Members and video state already kept for
    [id], and everything kept for other rooms, are unchanged. *)
Theorem createRoom_stores_a_listed_room_with_defaults roomId creatorId options w :
  let room := result (createRoom roomId creatorId options) w in
  let w' := after (createRoom roomId creatorId options) w in
  (Room.id room = roomId ∧ Room.createdBy room = creatorId
   ∧ Room.createdAt room = reading w 0)
  ∧ Room.name room ≠ ""
  ∧ Room.maxUsers room ≠ 0
  ∧ (Room.isPublic room = false ↔ RoomOptions.isPublic options = Some false)
  ∧ result (getRoom roomId) w' = Some room
  ∧ room ∈ result getAllRooms w'
  ∧ result (getRoomUsers roomId) w' = result (getRoomUsers roomId) w
  ∧ storedVideo roomId w' = storedVideo roomId w
  ∧ (∀ r, r ≠ roomId → roomView r w' = roomView r w).
Proof.
  intros room w'.
  destruct (createRoom_run roomId creatorId options w) as (Hres & _).
  cbv zeta in Hres. fold room in Hres.
  pose proof (roomView_createRoom roomId creatorId options w) as Hview.
  cbv zeta in Hview. fold room w' in Hview.
  pose proof (Hview roomId) as Hown. rewrite decide_True in Hown by done.
  unfold roomView in Hown. injection Hown as Hroom Hidx Husers Hmem Hcur Hvid.
  split_and!; try (by rewrite Hres).
  - rewrite Hres. cbn. destruct (RoomOptions.name options) as [s|]; cbn;
      [case_decide|]; done.
  - rewrite Hres. cbn. destruct (RoomOptions.maxUsers options) as [n|]; cbn;
      [case_decide|]; done.
  - rewrite Hres. cbn. by destruct (RoomOptions.isPublic options) as [[]|].
  - unfold result. by rewrite getRoom_run.
  - by apply (elem_of_getAllRooms_2 roomId).
  - unfold result. by rewrite !getRoomUsers_run.
  - done.
  - intros r Hr. by rewrite Hview, decide_False.
Qed.

(** X15.  [ensureDefaultRoom] changes nothing when the room "main-lobby"
    exists; otherwise it creates it with name "Main Lobby", creator
    "system", [maxUsers = 100000], public, created at the clock reading
    taken.  In both cases the room exists afterwards, and a second call
    changes nothing. *)
Theorem ensureDefaultRoom_creates_the_lobby_once w :
  let w' := after ensureDefaultRoom w in
  (∀ room, result (getRoom DEFAULT_ROOM_ID) w = Some room → w' = w)
  ∧ (result (getRoom DEFAULT_ROOM_ID) w = None →
     result (getRoom DEFAULT_ROOM_ID) w'
     = Some (Room.mk "main-lobby" "Main Lobby" "system" (reading w 0) 100000 true))
  ∧ is_Some (result (getRoom DEFAULT_ROOM_ID) w')
  ∧ after ensureDefaultRoom w' = w'.
Proof.
  intros w'. unfold result. rewrite !getRoom_run. cbn [fst].
  assert (storedRoom DEFAULT_ROOM_ID w = None →
          storedRoom DEFAULT_ROOM_ID w'
          = Some (Room.mk "main-lobby" "Main Lobby" "system" (reading w 0) 100000 true))
    as Hnew.
  { intros Hnone. subst w'. unfold after, ensureDefaultRoom.
    rewrite bind_run, getRoom_run. cbn [fst snd]. rewrite Hnone, bind_run. cbn [snd mret M_ret].
    destruct (createRoom_run DEFAULT_ROOM_ID "system"
                (RoomOptions.mk (Some "Main Lobby") (Some 100000) (Some true)) w)
      as (_ & Hs & _).
    unfold after in Hs. by rewrite Hs. }
  assert (is_Some (storedRoom DEFAULT_ROOM_ID w')) as [room' Hsome].
  { destruct (storedRoom DEFAULT_ROOM_ID w) as [room|] eqn:Hroom.
    - subst w'. rewrite (ensureDefaultRoom_keeps_existing room) by done. by eexists.
    - rewrite Hnew by done. by eexists. }
  split_and!; [|done|by eexists|].
  - intros room Hroom. by apply (ensureDefaultRoom_keeps_existing room).
  - by apply (ensureDefaultRoom_keeps_existing room').
Qed.

(* ================================================================== *)
(** ** Writing the video state *)
(* ================================================================== *)

Lemma setVideoState_run roomId p w :
  let current := result (getVideoState roomId) w in
  let w1 := after (getVideoState roomId) w in
  let videoState := VideoState.set_serverTimestamp (reading w1 0) (VideoState.spread current p) in
  setVideoState roomId p w
  = (videoState, putVideo roomId videoState (with_reads (S (reads w1)) w1)).
Proof.
  cbv zeta. unfold setVideoState, result, after.
  rewrite bind_run. destruct (getVideoState roomId w) as [current w1]. cbn [fst snd].
  unfold putVideo, reading. unfold_redis. unfold_M. rewrite Nat.add_0_r.
  destruct w1 as [clk n rc flag lr lu lv lb ca cb em]; cbn.
  by destruct flag, rc as [[[] d]|].
Qed.

Lemma getVideoState_world roomId w :
  let w1 := after (getVideoState roomId) w in
  (∀ r, storedVideo r w1 = storedVideo r w)
  ∧ clock w1 = clock w
  ∧ reads w1 = (if storedVideo roomId w is Some _ then reads w else 2 + reads w)%nat
  ∧ emitted w1 = emitted w.
Proof.
  cbv zeta. unfold after.
  destruct (storedVideo roomId w) as [st|] eqn:Hst.
  - by rewrite (getVideoState_stored _ _ _ Hst).
  - by rewrite (getVideoState_absent _ _ Hst).
Qed.

(** X16.  [setVideoState(r, p)] returns the current state of [r] (the default
    state when none is stored) with the fields present in [p] replaced,
    except that [serverTimestamp] is always the clock reading taken by the
    call, whatever [p] says.  The returned state is the one stored for [r]
    and read back by [getVideoState(r)]; the states of other rooms and the
    emitted messages are unchanged. *)
Theorem setVideoState_merges_stamps_and_persists roomId p w :
  let current := result (getVideoState roomId) w in
  let w1 := after (getVideoState roomId) w in
  let ret := result (setVideoState roomId p) w in
  let w' := after (setVideoState roomId p) w in
  VideoState.isPlaying ret = default (VideoState.isPlaying current) (VideoState.p_isPlaying p)
  ∧ VideoState.currentTime ret
    = default (VideoState.currentTime current) (VideoState.p_currentTime p)
  ∧ VideoState.duration ret = default (VideoState.duration current) (VideoState.p_duration p)
  ∧ VideoState.lastUpdateTime ret
    = default (VideoState.lastUpdateTime current) (VideoState.p_lastUpdateTime p)
  ∧ VideoState.serverTimestamp ret = reading w1 0
  ∧ storedVideo roomId w' = Some ret
  ∧ getVideoState roomId w' = (ret, w')
  ∧ (∀ r, r ≠ roomId → storedVideo r w' = storedVideo r w)
  ∧ emitted w' = emitted w.
Proof.
  intros current w1 ret w'.
  assert (ret = VideoState.set_serverTimestamp (reading w1 0) (VideoState.spread current p)
          ∧ w' = putVideo roomId ret (with_reads (S (reads w1)) w1)) as [Hret Hw'].
  { subst ret w'. unfold result at 1 2, after at 1. by rewrite setVideoState_run. }
  destruct (getVideoState_world roomId w) as (Hframe & _ & _ & Hem). fold w1 in Hframe, Hem.
  rewrite Hw'. split_and!; try (by rewrite Hret).
  - apply storedVideo_putVideo.
  - apply getVideoState_stored, storedVideo_putVideo.
  - intros r Hr. rewrite storedVideo_putVideo_ne by done.
    by rewrite storedVideo_with_reads.
  - by rewrite emitted_putVideo.
Qed.

(** X17.  Two calls of [updateVideoTime] in a row on a playing room: the first
    sets [lastUpdateTime] to its clock reading [t], the second to its own
    reading [t'], and the position returned by the second is the position
    returned by the first plus [(t' - t) / 1000], put back to 0 when that
    reaches the duration.  Each call advances from where the previous one
    stopped. *)
Theorem updateVideoTime_twice_advances_from_last_update roomId st w :
  storedVideo roomId w = Some st →
  VideoState.isPlaying st = true →
  let first := result (updateVideoTime roomId) w in
  let w1 := after (updateVideoTime roomId) w in
  let second := result (updateVideoTime roomId) w1 in
  let position :=
    (VideoState.currentTime first
     + Qc_of_Z (reading w 3 - reading w 0) / Qc_of_Z 1000)%Qc in
  VideoState.lastUpdateTime first = reading w 0
  ∧ VideoState.lastUpdateTime second = reading w 3
  ∧ VideoState.currentTime second
    = (if decide (VideoState.duration st ≤ position)%Qc then 0%Qc else position)
  ∧ VideoState.isPlaying second = true
  ∧ VideoState.duration second = VideoState.duration st.
Proof.
  intros Hst Hplay first w1 second position.
  assert (first = VideoState.set_serverTimestamp (reading w 1) (advance (reading w 0) st)
          ∧ w1 = putVideo roomId
                   (VideoState.set_serverTimestamp (reading w 2)
                      (VideoState.set_serverTimestamp (reading w 1)
                         (advance (reading w 0) st)))
                   (with_reads (3 + reads w) w)) as [Hfirst Hw1].
  { subst first w1. unfold result, after.
    rewrite (updateVideoTime_run _ _ _ Hst), Hplay. done. }
  set (st1 := VideoState.set_serverTimestamp (reading w 2)
                (VideoState.set_serverTimestamp (reading w 1) (advance (reading w 0) st))).
  assert (storedVideo roomId w1 = Some st1) as Hst1.
  { rewrite Hw1. apply storedVideo_putVideo. }
  assert (reading w1 0 = reading w 3) as Hnow.
  { rewrite Hw1. unfold reading, putVideo.
    destruct (connected _); cbn; f_equal; lia. }
  assert (VideoState.isPlaying st1 = true) as Hplay1.
  { subst st1. rewrite advance_eq. done. }
  assert (second = VideoState.set_serverTimestamp (reading w1 1) (advance (reading w1 0) st1))
    as Hsecond.
  { subst second. unfold result.
    rewrite (updateVideoTime_run _ _ _ Hst1), Hplay1. done. }
  rewrite Hsecond, Hfirst, Hnow. subst position st1. rewrite Hfirst.
  rewrite !advance_eq. unfold moved, seconds_of_ms. cbn. done.
Qed.

Lemma updateVideoTime_twice_witness :
  storedVideo "lobby1" demoWorld = Some demoPlaying
  ∧ VideoState.currentTime (result (updateVideoTime "lobby1") demoWorld) = Qc_of_Z 12
  ∧ reading demoWorld 3 - reading demoWorld 0 = 3
  ∧ VideoState.currentTime
      (result (updateVideoTime "lobby1") (after (updateVideoTime "lobby1") demoWorld))
    = (Qc_of_Z 12003 / Qc_of_Z 1000)%Qc
  ∧ VideoState.lastUpdateTime
      (result (updateVideoTime "lobby1") (after (updateVideoTime "lobby1") demoWorld))
    = 3003.
Proof.
  assert (storedVideo "lobby1" demoWorld = Some demoPlaying) as H by reflexivity.
  destruct (updateVideoTime_twice_advances_from_last_update "lobby1" demoPlaying demoWorld
              H eq_refl) as (_ & Hlast & Hpos & _).
  assert (VideoState.currentTime (result (updateVideoTime "lobby1") demoWorld)
          = Qc_of_Z 12) as Hfirst by (apply Qc_is_canon; reflexivity).
  split_and!; [exact H|exact Hfirst|reflexivity| |exact Hlast].
  rewrite Hpos, Hfirst. apply Qc_is_canon. reflexivity.
Defined.

(* ================================================================== *)
(** ** video:play and video:pause *)
(* ================================================================== *)

Lemma result_bind {A B : Type} (m : M A) (f : A → M B) w :
  result (m ≫= f) w = result (f (result m w)) (after m w).
Proof. unfold after, result. by rewrite bind_run. Qed.

Lemma store_and_broadcast_run roomId st s w :
  storedVideo roomId w = Some st →
  after (_ ← setVideoState roomId (VideoState.full s);
         emit (ToRoom roomId (VideoStateMsg s))) w
  = with_emitted (emitted w ++ [ToRoom roomId (VideoStateMsg s)])
      (putVideo roomId (VideoState.set_serverTimestamp (reading w 0) s)
         (with_reads (S (reads w)) w)).
Proof.
  intros Hst. rewrite after_bind. unfold after at 2.
  rewrite (setVideoState_stored _ _ _ _ Hst). cbn [snd].
  unfold after, emit, modify. cbn [snd]. by rewrite emitted_putVideo.
Qed.

Lemma updateVideoTime_stored roomId st w :
  storedVideo roomId w = Some st →
  let k := if VideoState.isPlaying st then 3%nat else 2%nat in
  let ret := result (updateVideoTime roomId) w in
  let w' := after (updateVideoTime roomId) w in
  ret = (if VideoState.isPlaying st
         then VideoState.set_serverTimestamp (reading w 1) (advance (reading w 0) st)
         else VideoState.set_serverTimestamp (reading w 0) st)
  ∧ (∃ st', storedVideo roomId w' = Some st')
  ∧ (∀ j, reading w' j = reading w (k + j))
  ∧ emitted w' = emitted w.
Proof.
  intros Hst k ret w'. subst ret w'. unfold result, after.
  rewrite (updateVideoTime_run _ _ _ Hst). subst k.
  destruct (VideoState.isPlaying st); cbn [fst snd].
  - split_and!; [done| | |by rewrite emitted_putVideo].
    + eexists. apply storedVideo_putVideo.
    + intros j. unfold reading, putVideo. destruct (connected _); cbn; f_equal; lia.
  - split_and!; [done| | |by rewrite emitted_putVideo].
    + eexists. apply storedVideo_putVideo.
    + intros j. unfold reading, putVideo. destruct (connected _); cbn; f_equal; lia.
Qed.

Lemma reading_with_reads w j :
  reading (with_reads (S (reads w)) w) j = reading w (S j).
Proof. unfold reading. cbn. f_equal. lia. Qed.

(** X18.  An admitted [video:play] in a room with a stored state: the state
    broadcast to the room is playing, at the stored position when the video
    was paused (at the advanced position when it was already playing), with
    [lastUpdateTime] the clock reading taken by the handler; the stored
    state is that state with [serverTimestamp] the next clock reading.  The
    time spent paused is not added to the position. *)
Theorem onVideoPlay_restarts_from_the_stored_position sock roomId st w :
  truthy (SocketData.currentRoom sock) = Some roomId →
  storedVideo roomId w = Some st →
  RateLimitResult.allowed (result (checkRateLimit (SocketData.userId sock) videoControl) w)
    = true →
  let w1 := after (checkRateLimit (SocketData.userId sock) videoControl) w in
  let w' := after (onVideoPlay sock) w in
  let k := if VideoState.isPlaying st then 3%nat else 2%nat in
  let position :=
    if VideoState.isPlaying st
    then VideoState.currentTime (advance (reading w1 0) st)
    else VideoState.currentTime st in
  let sent :=
    VideoState.mk true position (VideoState.duration st)
      (reading w1 (k - 2)) (reading w1 k) in
  storedVideo roomId w' = Some (VideoState.set_serverTimestamp (reading w1 (k + 1)) sent)
  ∧ emitted w' = emitted w ++ [ToRoom roomId (VideoStateMsg sent)].
Proof.
  intros Hroom Hst Hallowed w1 w' k position sent.
  assert (storedVideo roomId w1 = Some st) as Hst1.
  { subst w1. by rewrite storedVideo_checkRateLimit. }
  assert (emitted w1 = emitted w) as Hem1.
  { subst w1. by destruct (checkRateLimit_world (SocketData.userId sock) videoControl w)
      as (_ & _ & _ & _ & _ & ? & _). }
  destruct (updateVideoTime_stored roomId st w1 Hst1) as (Hret & [st2 Hst2] & Hread & Hem2).
  cbv zeta in Hret, Hst2, Hread, Hem2. fold k in Hread.
  subst w'. unfold onVideoPlay. rewrite Hroom, after_bind, Hallowed. cbn [negb]. fold w1.
  rewrite after_bind, after_bind.
  set (w2 := after (updateVideoTime roomId) w1) in *.
  set (ret := result (updateVideoTime roomId) w1) in *.
  assert (result Date_now w2 = reading w1 k) as Hnow.
  { unfold result, Date_now. cbn. specialize (Hread 0%nat).
    unfold reading in Hread at 1. rewrite Nat.add_0_r in Hread. by rewrite Hread, Nat.add_0_r. }
  rewrite Hnow.
  rewrite (store_and_broadcast_run roomId st2)
    by (unfold after, Date_now; cbn; by rewrite storedVideo_with_reads).
  assert (VideoState.set_lastUpdateTime (reading w1 k) (VideoState.set_isPlaying true ret)
          = sent) as ->.
  { subst sent position k. rewrite Hret.
    destruct (VideoState.isPlaying st); unfold advance; cbn; [by case_decide|done]. }
  assert (reading (after Date_now w2) 0 = reading w1 (k + 1)) as ->.
  { unfold after, Date_now. cbn [snd]. rewrite reading_with_reads, Hread.
    first [done|f_equal; lia]. }
  split.
  - by rewrite storedVideo_with_emitted, storedVideo_putVideo.
  - unfold with_emitted. cbn [emitted].
    change (emitted (after Date_now w2)) with (emitted w2). by rewrite Hem2, Hem1.
Qed.

Lemma onVideoPlay_witness :
  RateLimitResult.allowed (result (checkRateLimit (SocketData.userId demoSock) videoControl)
                             demoWorld) = true
  ∧ emitted (after (onVideoPlay demoSock) demoWorld)
    = [ToRoom "lobby1"
         (VideoStateMsg (VideoState.mk true
            (VideoState.currentTime (advance 3001 demoPlaying)) (Qc_of_Z 596) 3002 3004))].
Proof.
  assert (RateLimitResult.allowed
            (result (checkRateLimit (SocketData.userId demoSock) videoControl) demoWorld)
          = true) as Hallowed by reflexivity.
  split; [exact Hallowed|].
  exact (proj2 (onVideoPlay_restarts_from_the_stored_position demoSock "lobby1" demoPlaying
                  demoWorld eq_refl eq_refl Hallowed)).
Defined.

(** X19.  An admitted [video:pause] in a room with a stored state: the state
    broadcast to the room is paused, at the position advanced to the clock
    reading of the handler when the video was playing (at the stored
    position when it was already paused); the stored state is that state
    with [serverTimestamp] the next clock reading; the next
    [updateVideoTime] returns the same position. *)
Theorem onVideoPause_freezes_the_advanced_position sock roomId st w :
  truthy (SocketData.currentRoom sock) = Some roomId →
  storedVideo roomId w = Some st →
  RateLimitResult.allowed (result (checkRateLimit (SocketData.userId sock) videoControl) w)
    = true →
  let w1 := after (checkRateLimit (SocketData.userId sock) videoControl) w in
  let w' := after (onVideoPause sock) w in
  let k := if VideoState.isPlaying st then 3%nat else 2%nat in
  let moved_to :=
    if VideoState.isPlaying st then advance (reading w1 0) st else st in
  let sent :=
    VideoState.mk false (VideoState.currentTime moved_to) (VideoState.duration st)
      (reading w1 (k - 2)) (VideoState.lastUpdateTime moved_to) in
  storedVideo roomId w' = Some (VideoState.set_serverTimestamp (reading w1 k) sent)
  ∧ emitted w' = emitted w ++ [ToRoom roomId (VideoStateMsg sent)]
  ∧ VideoState.currentTime
      (result (updateVideoTime roomId) w') = VideoState.currentTime moved_to.
Proof.
  intros Hroom Hst Hallowed w1 w' k moved_to sent.
  assert (storedVideo roomId w1 = Some st) as Hst1.
  { subst w1. by rewrite storedVideo_checkRateLimit. }
  assert (emitted w1 = emitted w) as Hem1.
  { subst w1. by destruct (checkRateLimit_world (SocketData.userId sock) videoControl w)
      as (_ & _ & _ & _ & _ & ? & _). }
  destruct (updateVideoTime_stored roomId st w1 Hst1) as (Hret & [st2 Hst2] & Hread & Hem2).
  cbv zeta in Hret, Hst2, Hread, Hem2. fold k in Hread.
  assert (storedVideo roomId w' = Some (VideoState.set_serverTimestamp (reading w1 k) sent)
          ∧ emitted w' = emitted w ++ [ToRoom roomId (VideoStateMsg sent)]) as [Hstored Hem].
  { subst w'. unfold onVideoPause. rewrite Hroom, after_bind, Hallowed. cbn [negb]. fold w1.
    rewrite after_bind.
    set (w2 := after (updateVideoTime roomId) w1) in *.
    set (ret := result (updateVideoTime roomId) w1) in *.
    rewrite (store_and_broadcast_run roomId st2) by done.
    assert (VideoState.set_isPlaying false ret = sent) as ->.
    { subst sent moved_to k. rewrite Hret.
      destruct (VideoState.isPlaying st); unfold advance; cbn; [by case_decide|done]. }
    assert (reading w2 0 = reading w1 k) as ->.
    { rewrite Hread. first [done|f_equal; lia]. }
    split.
    - by rewrite storedVideo_with_emitted, storedVideo_putVideo.
    - unfold with_emitted. cbn [emitted]. by rewrite Hem2, Hem1. }
  split_and!; [done|done|].
  unfold result. by rewrite (updateVideoTime_run _ _ _ Hstored).
Qed.

Lemma onVideoPause_witness :
  RateLimitResult.allowed (result (checkRateLimit (SocketData.userId demoSock) videoControl)
                             demoWorld) = true
  ∧ emitted (after (onVideoPause demoSock) demoWorld)
    = [ToRoom "lobby1"
         (VideoStateMsg (VideoState.mk false
            (VideoState.currentTime (advance 3001 demoPlaying)) (Qc_of_Z 596) 3002
            (VideoState.lastUpdateTime (advance 3001 demoPlaying))))].
Proof.
  assert (RateLimitResult.allowed
            (result (checkRateLimit (SocketData.userId demoSock) videoControl) demoWorld)
          = true) as Hallowed by reflexivity.
  split; [exact Hallowed|].
  exact (proj1 (proj2 (onVideoPause_freezes_the_advanced_position demoSock "lobby1"
                         demoPlaying demoWorld eq_refl eq_refl Hallowed))).
Defined.

(* ================================================================== *)
(** ** Handlers that decline to act *)
(* ================================================================== *)

(** X20.  [video:play], [video:pause], [video:seek] and [cursor:move] of a
    connection that is in no room change nothing at all.  When the
    connection is in a room but its rate limit is exhausted, the handler
    does what the rate check did and nothing more: nothing is emitted, no
    cursor is batched or stored, no video state is changed. *)
Theorem limited_handler_declines_without_room_or_quota e sock w :
  let w' := after (limitedHandler e sock) w in
  (truthy (SocketData.currentRoom sock) = None → w' = w)
  ∧ (RateLimitResult.allowed
       (result (checkRateLimit (SocketData.userId sock) (limitOf e)) w) = false →
     truthy (SocketData.currentRoom sock) ≠ None →
     w' = after (checkRateLimit (SocketData.userId sock) (limitOf e)) w
     ∧ emitted w' = emitted w
     ∧ cursorBatches w' = cursorBatches w
     ∧ (∀ r, storedVideo r w' = storedVideo r w
             ∧ result (getRoomCursors r) w' = result (getRoomCursors r) w)).
Proof.
  intros w'. split.
  - intros Hroom. subst w'.
    destruct e; cbn [limitedHandler];
      unfold onVideoPlay, onVideoPause, onVideoSeek, onCursorMove; by rewrite Hroom.
  - intros Hdenied Hroom.
    destruct (truthy (SocketData.currentRoom sock)) as [roomId|] eqn:Hr; [|done].
    assert (w' = after (checkRateLimit (SocketData.userId sock) (limitOf e)) w) as Hw'.
    { subst w'.
      destruct e; cbn [limitedHandler limitOf] in *;
        unfold onVideoPlay, onVideoPause, onVideoSeek, onCursorMove;
        by rewrite Hr, after_bind, Hdenied. }
    split; [done|]. rewrite Hw'.
    destruct (checkRateLimit_world (SocketData.userId sock) (limitOf e) w)
      as (_ & Hconn & _ & _ & _ & Hem & Hcb & _).
    split_and!; [done|done|]. intros r. split.
    + apply storedVideo_checkRateLimit.
    + unfold result. rewrite !getRoomCursors_run. cbn [fst].
      unfold cursorsOf. rewrite Hconn. destruct (connected w) eqn:Hc; [|done].
      f_equal. clear -Hc. unfold after, checkRateLimit, redisDb. unfold_redis. unfold_M.
      destruct w as [clk n rc flag lr lu lv lb ca cb em]; cbn -[Redis.incr Redis.expire] in *.
      destruct flag, rc as [[[] d]|]; cbn -[Redis.incr Redis.expire] in *; try done.
      case_decide; cbn -[Redis.incr Redis.expire];
        by rewrite ?hashes_touch_value, hGetAll_incr.
Qed.

(* ================================================================== *)
(** ** Reaction batching *)
(* ================================================================== *)

Lemma get_batchReaction roomId x rb r :
  JSMap.get r (batchReaction roomId x rb)
  = if decide (roomId = r) then Some (default [] (JSMap.get roomId rb) ++ [x])
    else JSMap.get r rb.
Proof.
  unfold batchReaction, JSMap.has. rewrite JSMap_get_set.
  case_decide as Hr.
  - do 2 f_equal. case_bool_decide as Hhas; [done|].
    rewrite JSMap_get_set, decide_True by done.
    destruct (JSMap.get roomId rb); [|done]. destruct Hhas. by eexists.
  - case_bool_decide; [done|]. by rewrite JSMap_get_set, decide_False.
Qed.

Lemma NoDup_batchReaction roomId x (rb : list (string * list Reaction.t)) :
  NoDup (JSMap.keys rb) → NoDup (JSMap.keys (batchReaction roomId x rb)).
Proof.
  intros Hnd. unfold batchReaction. apply JSMap_NoDup_set.
  case_match; [done|]. by apply JSMap_NoDup_set.
Qed.

Lemma NoDup_batchReactions qs (rb : list (string * list Reaction.t)) :
  NoDup (JSMap.keys rb) → NoDup (JSMap.keys (batchReactions qs rb)).
Proof.
  unfold batchReactions. revert rb.
  induction qs as [|[r x] qs IH]; intros rb Hnd; cbn [foldl]; [done|].
  by apply IH, NoDup_batchReaction.
Qed.

Lemma reactionsIn_cons r0 x qs r :
  reactionsIn r ((r0, x) :: qs)
  = if decide (r0 = r) then x :: reactionsIn r qs else reactionsIn r qs.
Proof. unfold reactionsIn. rewrite filter_cons. cbn. by case_decide. Qed.

Lemma reactionsIn_not_mentioned r qs : r ∉ qs.*1 → reactionsIn r qs = [].
Proof.
  induction qs as [|[r0 x] qs IH]; intros Hin; [done|].
  rewrite reactionsIn_cons, decide_False by (intros ->; apply Hin; by left).
  apply IH. intros ?. apply Hin. by right.
Qed.

Lemma reactionsIn_mentioned r qs : r ∈ qs.*1 → reactionsIn r qs ≠ [].
Proof.
  induction qs as [|[r0 x] qs IH]; intros Hin; [by apply elem_of_nil in Hin|].
  rewrite reactionsIn_cons. case_decide as Hr; [done|].
  apply IH. apply elem_of_cons in Hin as [?|?]; [by subst|done].
Qed.

(** The batch of a room after a run: what was there, followed by the
    reactions of the run for the room, in order. *)
Lemma get_batchReactions qs rb r :
  JSMap.get r (batchReactions qs rb)
  = if decide (r ∈ qs.*1)
    then Some (default [] (JSMap.get r rb) ++ reactionsIn r qs)
    else JSMap.get r rb.
Proof.
  unfold batchReactions. revert rb.
  induction qs as [|[r0 x] qs IH]; intros rb; cbn [foldl fmap list_fmap fst snd].
  - rewrite decide_False; [done|]. by intros ?%elem_of_nil.
  - rewrite IH, reactionsIn_cons, !get_batchReaction.
    destruct (decide (r0 = r)) as [->|Hne]; cbn [from_option]; unfold id.
    + rewrite (decide_True (P := r ∈ r :: qs.*1)) by (by left).
      case_decide as Hin.
      * by rewrite <- app_assoc.
      * by rewrite reactionsIn_not_mentioned.
    + destruct (decide (r ∈ qs.*1)) as [Hin|Hin].
      * rewrite decide_True; [done|]. by right.
      * rewrite decide_False; [done|]. intros [?|?]%elem_of_cons; congruence.
Qed.

Lemma flushReactionBatches_run (es : list (string * list Reaction.t)) sent0
    (b0 : JSMap.t (list Reaction.t)) :
  foldl (λ '(sent, batches) '(roomId, reactions),
           if decide (0 < length reactions)%nat
           then (sent ++ [(roomId, reactions)], JSMap.set roomId [] batches)
           else (sent, batches))
        (sent0, b0) es
  = (sent0 ++ filter (λ e, e.2 ≠ []) es,
     foldl (λ batches e, if decide (e.2 ≠ []) then JSMap.set e.1 [] batches else batches)
           b0 es).
Proof.
  revert sent0 b0. induction es as [|[r rs] es IH]; intros sent0 b0; cbn [foldl].
  - by rewrite app_nil_r.
  - rewrite filter_cons. cbn [fst snd].
    destruct rs as [|x rs]; cbn [length].
    + rewrite decide_False by lia. rewrite IH.
      by rewrite !decide_False by (by intros ?).
    + rewrite decide_True by lia. rewrite IH.
      rewrite !decide_True by done. by rewrite <- app_assoc.
Qed.

Lemma get_cleared (es : list (string * list Reaction.t)) (b : JSMap.t (list Reaction.t)) r :
  JSMap.get r
    (foldl (λ batches e, if decide (e.2 ≠ []) then JSMap.set e.1 [] batches else batches)
       b es)
  = if decide (r ∈ (filter (λ e, e.2 ≠ []) es).*1) then Some [] else JSMap.get r b.
Proof.
  revert b. induction es as [|[r0 rs0] es IH]; intros b; cbn [foldl fst snd].
  - rewrite decide_False; [done|]. by intros ?%elem_of_nil.
  - rewrite IH, filter_cons. cbn [snd].
    destruct (decide (rs0 ≠ [])) as [Hne|He]; cbn [fmap list_fmap fst].
    + rewrite JSMap_get_set.
      destruct (decide (r ∈ (filter (λ e, e.2 ≠ []) es).*1)) as [Hin|Hin].
      * rewrite decide_True; [done|]. by right.
      * destruct (decide (r0 = r)) as [->|Hr].
        -- rewrite decide_True; [done|]. by left.
        -- rewrite decide_False; [done|]. intros [?|?]%elem_of_cons; congruence.
    + done.
Qed.

Lemma NoDup_cleared (es : list (string * list Reaction.t)) (b : list (string * list Reaction.t)) :
  NoDup (JSMap.keys b) →
  NoDup (JSMap.keys
    (foldl (λ batches e, if decide (e.2 ≠ []) then JSMap.set e.1 [] batches else batches)
       b es)).
Proof.
  revert b. induction es as [|[r0 rs0] es IH]; intros b Hnd; cbn [foldl fst snd]; [done|].
  apply IH. case_decide; [|done]. by apply JSMap_NoDup_set.
Qed.

(** X21.  Start with reaction batches that are all empty (as at start-up and
    after a flush), run any sequence of [batchReaction] calls and then the
    flush.  The flush sends one
    [reactions:batch] to every room that received a reaction, holding all
    reactions of that room in the order of arrival, and none to other rooms;
    afterwards every batch is empty again. *)
Theorem reaction_flush_sends_every_reaction_once qs (reactionBatches : list (string * list Reaction.t)) :
  NoDup (JSMap.keys reactionBatches) →
  (∀ r rs, JSMap.get r reactionBatches = Some rs → rs = []) →
  let flushed := flushReactionBatches (batchReactions qs reactionBatches) in
  (∀ r rs, (r, rs) ∈ flushed.1 ↔ rs = reactionsIn r qs ∧ rs ≠ [])
  ∧ NoDup flushed.1.*1
  ∧ (∀ r rs, JSMap.get r flushed.2 = Some rs → rs = [])
  ∧ NoDup (JSMap.keys flushed.2).
Proof.
  intros Hnd Hempty flushed. subst flushed. unfold flushReactionBatches.
  rewrite flushReactionBatches_run. cbn [fst snd app].
  set (m := batchReactions qs reactionBatches).
  assert (NoDup (JSMap.keys m)) as Hndm by (by apply NoDup_batchReactions).
  assert (∀ r rs, (r, rs) ∈ m ↔ JSMap.get r m = Some rs) as Hget.
  { intros r rs. symmetry. by apply JSMap_get_Some. }
  assert (∀ r, default [] (JSMap.get r reactionBatches) = []) as Hdef.
  { intros r. destruct (JSMap.get r reactionBatches) as [rs|] eqn:Hr; [|done].
    cbn. by apply (Hempty r). }
  split_and!.
  - intros r rs. rewrite list_elem_of_filter. cbn [snd]. rewrite Hget.
    subst m. rewrite get_batchReactions, Hdef. cbn [app].
    destruct (decide (r ∈ qs.*1)) as [Hin|Hin].
    + split; [by intros [? [= <-]]|by intros [-> ?]].
    + split.
      * intros [Hne Hr]. by apply Hempty in Hr.
      * intros [-> Hne]. by rewrite reactionsIn_not_mentioned in Hne.
  - eapply NoDup_fmap_fst.
    + intros r rs1 rs2 [_ H1]%list_elem_of_filter [_ H2]%list_elem_of_filter.
      apply Hget in H1, H2. congruence.
    + apply NoDup_filter. eapply NoDup_fmap_1. exact Hndm.
  - intros r rs. rewrite get_cleared. case_decide as Hex; [by intros [= <-]|].
    intros Hr. destruct rs as [|x rs]; [done|]. destruct Hex.
    apply list_elem_of_fmap. exists (r, x :: rs). split; [done|].
    apply list_elem_of_filter. split; [done|]. by apply Hget.
  - by apply NoDup_cleared.
Qed.

Lemma reaction_flush_witness :
  NoDup (JSMap.keys ([] : list (string * list Reaction.t)))
  ∧ ("lobby1", [demoReaction "a" 1; demoReaction "c" 3])
    ∈ (flushReactionBatches
         (batchReactions [("lobby1", demoReaction "a" 1); ("lobby2", demoReaction "b" 2);
                          ("lobby1", demoReaction "c" 3)] [])).1.
Proof.
  assert (NoDup (JSMap.keys ([] : list (string * list Reaction.t)))) as Hnd
    by apply NoDup_nil_2.
  assert (∀ r rs, JSMap.get r ([] : list (string * list Reaction.t)) = Some rs → rs = [])
    as Hempty by (intros r rs H; discriminate H).
  split; [exact Hnd|].
  apply (proj1 (reaction_flush_sends_every_reaction_once
                  [("lobby1", demoReaction "a" 1); ("lobby2", demoReaction "b" 2);
                   ("lobby1", demoReaction "c" 3)] [] Hnd Hempty)).
  split; [reflexivity|discriminate].
Defined.

(* ================================================================== *)
(** ** Joining and leaving rooms *)
(* ================================================================== *)

Lemma roomView_removeCursor roomId userId w r :
  roomView r (after (removeCursor roomId userId) w)
  = if decide (r = roomId)
    then mkRoomView (storedRoom r w) (roomIndex w !! r) (usersOf r w) (memberIds r w)
           (delete userId (cursorsOf r w)) (storedVideo r w)
    else roomView r w.
Proof.
  unfold after. rewrite removeCursor_run. cbn [snd].
  destruct (connected w) eqn:Hc.
  - rewrite roomView_redisCommand by done.
    destruct (decide (r = roomId)) as [->|Hr].
    + unfold dbView. redis_simpl. rewrite !omap_delete.
      rewrite storedRoom_get, storedVideo_get by done.
      unfold roomIndex, usersOf, memberIds, cursorsOf. by rewrite Hc.
    + rewrite roomView_cluster by done. unfold dbView. by redis_simpl.
  - case_decide as Hr; [|done]. subst r.
    unfold roomView, cursorsOf. rewrite Hc. by rewrite delete_empty.
Qed.

Lemma checkRateLimit_after_cluster userId action w :
  connected w = true →
  after (checkRateLimit userId action) w
  = redisCommand
      (λ d, let key := rateLimitKey userId action in
            if decide ((Redis.incr key d).1 = 1)
            then Redis.expire key
                   (Math.ceil_div (RateLimitConfig.windowMs (LIMITS action)) 1000)
                   (Redis.incr key d).2
            else (Redis.incr key d).2) w.
Proof.
  unfold after, checkRateLimit, redisCommand. unfold_redis. unfold_M.
  destruct w as [clk n rc flag lr lu lv lb ca cb em]; cbn -[Redis.incr Redis.expire].
  destruct flag, rc as [[[] d]|]; cbn -[Redis.incr Redis.expire]; try done. intros _.
  case_decide as Hone; unfold modify, with_redisClient, Redis.on_db;
    cbn -[Redis.incr Redis.expire];
    [rewrite (decide_True _ _ Hone)|rewrite (decide_False _ _ Hone)]; done.
Qed.

Lemma roomView_checkRateLimit userId action w r :
  roomView r (after (checkRateLimit userId action) w) = roomView r w.
Proof.
  destruct (connected w) eqn:Hc.
  - rewrite checkRateLimit_after_cluster, roomView_redisCommand by done.
    rewrite (roomView_cluster r w) by done. cbv zeta.
    unfold dbView. case_decide; by redis_simpl.
  - destruct (checkRateLimit_world userId action w) as (_ & Hconn & _ & Hlr & Hlu & _).
    rewrite !roomView_standalone by (by rewrite ?Hconn). unfold localView.
    rewrite Hlr, Hlu. f_equal.
    pose proof (storedVideo_checkRateLimit r userId action w) as Hv.
    unfold storedVideo in Hv. by rewrite Hconn, Hc in Hv.
Qed.

Lemma roomView_getVideoState roomId w r :
  roomView r (after (getVideoState roomId) w) = roomView r w.
Proof.
  unfold after. destruct (storedVideo roomId w) as [st|] eqn:Hst.
  - by rewrite (getVideoState_stored _ _ _ Hst).
  - by rewrite (getVideoState_absent _ _ Hst).
Qed.

Lemma leaveRoom_run roomId r s w :
  truthy roomId = Some r →
  let userId := SocketData.userId (Session.data s) in
  let w' := after (removeCursor r userId) (after (removeUserFromRoom r userId) w) in
  leaveRoom roomId s w
  = (Session.mk (SocketData.mk userId (SocketData.userData (Session.data s)) None)
       (Session.calls s
        ++ [SocketLeave r; SocketToRoom r (UserLeft userId);
            SocketToRoom r (CursorRemove userId);
            IoToRoom r (UsersList (Object_values (usersOf r w')))]),
     w').
Proof.
  intros Hr userId w'. unfold leaveRoom. rewrite Hr.
  rewrite !bind_run. fold userId.
  change ((removeUserFromRoom r userId w).2) with (after (removeUserFromRoom r userId) w).
  change ((removeCursor r userId (after (removeUserFromRoom r userId) w)).2) with w'.
  rewrite getRoomUsers_run. cbn [fst snd mret M_ret].
  unfold setCurrentRoom, socketCall. cbn [Session.data Session.calls].
  by rewrite <- !app_assoc.
Qed.

Lemma leaveRoom_view roomId r s w r' :
  truthy roomId = Some r →
  let userId := SocketData.userId (Session.data s) in
  roomView r' (after (leaveRoom roomId s) w)
  = if decide (r' = r)
    then mkRoomView (storedRoom r w) (roomIndex w !! r)
           (delete userId (usersOf r w)) (memberIds r w ∖ {[userId]})
           (delete userId (cursorsOf r w)) (storedVideo r w)
    else roomView r' w.
Proof.
  intros Hr userId. unfold after at 1. rewrite (leaveRoom_run roomId r s w Hr). cbn [snd].
  fold userId. rewrite roomView_removeCursor.
  pose proof (roomView_removeUserFromRoom r userId w r') as Hrem.
  destruct (decide (r' = r)) as [->|Hne]; [|done].
  unfold roomView in Hrem. injection Hrem as -> -> -> -> -> ->.
  by rewrite delete_delete_eq.
Qed.

(** X22.  [leaveRoom(r)] for a room id that is not null or empty: the
    connection has no current room afterwards; the user is gone from
    [getRoomUsers(r)] and [getRoomCursors(r)]; the socket leaves [r], the
    others in [r] get [user:left] and [cursor:remove], and the room gets the
    user list as it is after the removal, in this order; the room itself and
    its video state stay, and other rooms are unchanged. *)
Theorem leaveRoom_takes_the_user_out roomId r s w :
  truthy roomId = Some r →
  let userId := SocketData.userId (Session.data s) in
  let s' := result (leaveRoom roomId s) w in
  let w' := after (leaveRoom roomId s) w in
  SocketData.currentRoom (Session.data s') = None
  ∧ SocketData.userId (Session.data s') = userId
  ∧ result (getRoomUsers r) w' = delete userId (result (getRoomUsers r) w)
  ∧ result (getRoomCursors r) w' = delete userId (result (getRoomCursors r) w)
  ∧ Session.calls s'
    = Session.calls s
      ++ [SocketLeave r; SocketToRoom r (UserLeft userId);
          SocketToRoom r (CursorRemove userId);
          IoToRoom r (UsersList (Object_values (result (getRoomUsers r) w')))]
  ∧ result (getRoom r) w' = result (getRoom r) w
  ∧ storedVideo r w' = storedVideo r w
  ∧ (∀ r', r' ≠ r → roomView r' w' = roomView r' w).
Proof.
  intros Hr userId s' w'.
  pose proof (leaveRoom_view roomId r s w) as Hview. cbv zeta in Hview.
  fold userId w' in Hview.
  pose proof (Hview r Hr) as Hown. rewrite decide_True in Hown by done.
  unfold roomView in Hown. injection Hown as Hroom Hidx Husers Hmem Hcur Hvid.
  assert (s' = Session.mk
                 (SocketData.mk userId (SocketData.userData (Session.data s)) None)
                 (Session.calls s
                  ++ [SocketLeave r; SocketToRoom r (UserLeft userId);
                      SocketToRoom r (CursorRemove userId);
                      IoToRoom r (UsersList (Object_values (usersOf r w')))])) as ->.
  { subst s' w'. unfold result, after. by rewrite (leaveRoom_run roomId r s w Hr). }
  unfold result. rewrite !getRoomUsers_run, !getRoomCursors_run, !getRoom_run. cbn [fst].
  split_and!; try done.
  intros r' Hne. by rewrite Hview, decide_False.
Qed.

Lemma leaveRoom_witness :
  truthy (Some "lobby1") = Some "lobby1"
  ∧ SocketData.currentRoom
      (Session.data (result (leaveRoom (Some "lobby1") (Session.mk demoSock []))
                       demoWorld)) = None.
Proof.
  assert (truthy (Some "lobby1") = Some "lobby1") as H by reflexivity.
  split; [exact H|].
  exact (proj1 (leaveRoom_takes_the_user_out (Some "lobby1") "lobby1"
                  (Session.mk demoSock []) demoWorld H)).
Defined.

Lemma leaveCurrent_session s w :
  let s1 := result (leaveCurrent s) w in
  truthy (SocketData.currentRoom (Session.data s1)) = None
  ∧ SocketData.userId (Session.data s1) = SocketData.userId (Session.data s)
  ∧ SocketData.userData (Session.data s1) = SocketData.userData (Session.data s).
Proof.
  cbv zeta. unfold result, leaveCurrent.
  destruct (truthy (SocketData.currentRoom (Session.data s))) as [old|] eqn:Hold.
  - by rewrite (leaveRoom_run _ old s w Hold).
  - done.
Qed.

Lemma leaveCurrent_view s w r :
  roomView r (after (leaveCurrent s) w)
  = if decide (truthy (SocketData.currentRoom (Session.data s)) = Some r)
    then mkRoomView (storedRoom r w) (roomIndex w !! r)
           (delete (SocketData.userId (Session.data s)) (usersOf r w))
           (memberIds r w ∖ {[SocketData.userId (Session.data s)]})
           (delete (SocketData.userId (Session.data s)) (cursorsOf r w))
           (storedVideo r w)
    else roomView r w.
Proof.
  unfold leaveCurrent.
  destruct (truthy (SocketData.currentRoom (Session.data s))) as [old|] eqn:Hold.
  - rewrite (leaveRoom_view _ old s w r Hold).
    destruct (decide (r = old)) as [->|Hne].
    + by rewrite decide_True.
    + rewrite decide_False; [done|]. by intros [= ->].
  - by rewrite decide_False.
Qed.

(** X23.  When the rate check of [joinRoom] denies, [joinRoom] returns
    [false] after it has left the current room: the connection is in no room
    afterwards, the user is no longer a member of the room it was in, the
    only message added after those of the leave is [error:ratelimit] with
    action "roomJoin" and [retryIn = 10000], and no room is created or
    changed by the join itself. *)
Theorem joinRoom_denied_leaves_the_user_in_no_room roomId s w :
  let userId := SocketData.userId (Session.data s) in
  let s1 := result (leaveCurrent s) w in
  let w1 := after (leaveCurrent s) w in
  RateLimitResult.allowed (result (checkRateLimit userId roomJoin) w1) = false →
  let w' := after (joinRoom roomId s) w in
  result (joinRoom roomId s) w
  = (false, socketCall (SocketEmit (RateLimitError "roomJoin" 10000)) s1)
  ∧ truthy (SocketData.currentRoom (Session.data (result (joinRoom roomId s) w).2)) = None
  ∧ (∀ r, roomView r w' = roomView r w1)
  ∧ (∀ old, truthy (SocketData.currentRoom (Session.data s)) = Some old →
            result (getRoomUsers old) w' !! userId = None)
  ∧ result (getRoom roomId) w' = result (getRoom roomId) w.
Proof.
  intros userId s1 w1 Hdenied w'.
  assert (joinRoom roomId s w
          = ((false, socketCall (SocketEmit (RateLimitError "roomJoin" 10000)) s1),
             after (checkRateLimit userId roomJoin) w1)) as Hrun.
  { unfold joinRoom. fold userId.
    change (match truthy (SocketData.currentRoom (Session.data s)) with
            | Some _ => leaveRoom (SocketData.currentRoom (Session.data s)) s
            | None => mret s
            end) with (leaveCurrent s).
    rewrite bind_run. fold (result (leaveCurrent s) w) (after (leaveCurrent s) w).
    fold s1 w1. rewrite bind_run.
    fold (result (checkRateLimit userId roomJoin) w1)
         (after (checkRateLimit userId roomJoin) w1).
    rewrite Hdenied. cbn [negb mret M_ret].
    by rewrite (checkRateLimit_result userId roomJoin w1). }
  assert (∀ r, roomView r w' = roomView r w1) as Hview.
  { intros r. subst w'. unfold after at 1. rewrite Hrun. cbn [snd].
    apply roomView_checkRateLimit. }
  unfold result at 1 2. rewrite Hrun. cbn [fst snd].
  split_and!; [done| |done| |].
  - unfold socketCall. cbn [Session.data].
    by destruct (leaveCurrent_session s w) as [? _].
  - intros old Hold. unfold result. rewrite getRoomUsers_run. cbn [fst].
    pose proof (Hview old) as Hv. subst w1. rewrite leaveCurrent_view, decide_True in Hv by done.
    unfold roomView in Hv. injection Hv as _ _ -> _ _ _.
    by rewrite lookup_delete_eq.
  - unfold result. rewrite !getRoom_run. cbn [fst].
    pose proof (Hview roomId) as Hv. subst w1. rewrite leaveCurrent_view in Hv.
    case_decide; unfold roomView in Hv; by injection Hv.
Qed.

Lemma joinRoom_denied_witness :
  RateLimitResult.allowed
    (result (checkRateLimit (SocketData.userId (Session.data demoFiveJoins.1)) roomJoin)
       (after (leaveCurrent demoFiveJoins.1) demoFiveJoins.2)) = false
  ∧ truthy (SocketData.currentRoom
              (Session.data (result (joinRoom "lobby2" demoFiveJoins.1) demoFiveJoins.2).2))
    = None.
Proof.
  assert (RateLimitResult.allowed
            (result (checkRateLimit (SocketData.userId (Session.data demoFiveJoins.1))
                       roomJoin)
               (after (leaveCurrent demoFiveJoins.1) demoFiveJoins.2)) = false) as Hdenied
    by (vm_compute; reflexivity).
  split; [exact Hdenied|].
  exact (proj1 (proj2 (joinRoom_denied_leaves_the_user_in_no_room "lobby2"
                         demoFiveJoins.1 demoFiveJoins.2 Hdenied))).
Defined.

Lemma elem_of_Object_values {V : Type} (o : gmap string V) k v :
  o !! k = Some v → v ∈ Object_values o.
Proof.
  intros Hk. unfold Object_values. apply list_elem_of_fmap. exists (k, v).
  split; [done|]. by apply elem_of_map_to_list.
Qed.

(** X24.  When the rate check of [joinRoom(r)] admits (and the session's
    [userData.id] is its [userId]), [joinRoom] returns [true]; the
    connection's current room is [r]; [getRoom(r)] returns the room that
    existed before, or else a fresh room created by the user;
    [getRoomUsers(r)] maps the user id to the user's data; the socket joins
    [r], receives [room:joined] with the room, the stored video state and
    the member list, the others get [user:joined], and the room gets the
    member list, in this order; and the user is no longer a member of a
    different room it was in before. *)
Theorem joinRoom_admitted_enters_the_room roomId s w :
  let userId := SocketData.userId (Session.data s) in
  let userData := SocketData.userData (Session.data s) in
  let s1 := result (leaveCurrent s) w in
  let w1 := after (leaveCurrent s) w in
  User.id userData = userId →
  RateLimitResult.allowed (result (checkRateLimit userId roomJoin) w1) = true →
  let s' := (result (joinRoom roomId s) w).2 in
  let w' := after (joinRoom roomId s) w in
  let room :=
    default (Room.mk roomId ("Room " +:+ roomId) userId
               (reading (after (checkRateLimit userId roomJoin) w1) 0) 10000 true)
            (result (getRoom roomId) w) in
  let users := result (getRoomUsers roomId) w' in
  (result (joinRoom roomId s) w).1 = true
  ∧ SocketData.currentRoom (Session.data s') = Some roomId
  ∧ result (getRoom roomId) w' = Some room
  ∧ users = <[userId := userData]> (result (getRoomUsers roomId) w1)
  ∧ userData ∈ Object_values users
  ∧ (∃ videoState,
       Session.calls s'
       = Session.calls s1
         ++ [SocketJoin roomId;
             SocketEmit (RoomJoined roomId room videoState (Object_values users));
             SocketToRoom roomId (UserJoined userData);
             IoToRoom roomId (UsersList (Object_values users))]
       ∧ ∀ st, storedVideo roomId w = Some st → videoState = st)
  ∧ (∀ old, truthy (SocketData.currentRoom (Session.data s)) = Some old → old ≠ roomId →
            result (getRoomUsers old) w' !! userId = None).
Proof.
  intros userId userData s1 w1 Hid Hallowed s' w' room users.
  set (w2 := after (checkRateLimit userId roomJoin) w1).
  set (created := createRoom roomId userId RoomOptions.empty).
  set (w3 := match storedRoom roomId w2 with Some _ => w2 | None => after created w2 end).
  set (room' := match storedRoom roomId w2 with
                | Some r => r | None => result created w2 end).
  set (w4 := after (addUserToRoom roomId userData) w3).
  set (vs := result (getVideoState roomId) w4).
  set (w5 := after (getVideoState roomId) w4).
  assert (joinRoom roomId s w
          = ((true,
              Session.mk (SocketData.mk userId userData (Some roomId))
                (Session.calls s1
                 ++ [SocketJoin roomId;
                     SocketEmit (RoomJoined roomId room' vs (Object_values (usersOf roomId w5)));
                     SocketToRoom roomId (UserJoined userData);
                     IoToRoom roomId (UsersList (Object_values (usersOf roomId w5)))])),
             w5)) as Hrun.
  { unfold joinRoom. fold userId userData.
    change (match truthy (SocketData.currentRoom (Session.data s)) with
            | Some _ => leaveRoom (SocketData.currentRoom (Session.data s)) s
            | None => mret s
            end) with (leaveCurrent s).
    rewrite bind_run. fold (result (leaveCurrent s) w) (after (leaveCurrent s) w).
    fold s1 w1. rewrite bind_run.
    fold (result (checkRateLimit userId roomJoin) w1)
         (after (checkRateLimit userId roomJoin) w1).
    rewrite Hallowed. cbn [negb]. fold w2.
    rewrite bind_run, getRoom_run. cbn [fst snd].
    destruct (leaveCurrent_session s w) as (_ & Huid & Hud). fold s1 in Huid, Hud.
    assert ((match storedRoom roomId w2 with
             | Some room0 => mret room0
             | None => created
             end) w2 = (room', w3)) as Hcreate.
    { subst room' w3. destruct (storedRoom roomId w2); [done|].
      unfold result, after. by destruct (created w2). }
    rewrite bind_run. fold created. rewrite Hcreate. cbn [fst snd].
    rewrite bind_run.
    change ((addUserToRoom roomId userData w3).2) with w4.
    rewrite bind_run. fold (result (getVideoState roomId) w4) (after (getVideoState roomId) w4).
    fold vs w5. rewrite bind_run, getRoomUsers_run. cbn [fst snd mret M_ret].
    unfold setCurrentRoom, socketCall. cbn [Session.data Session.calls].
    fold userId userData in Huid, Hud. rewrite Huid, Hud.
    by rewrite <- !app_assoc. }
  assert (∀ r, roomView r w2 = roomView r w1) as Hv2
    by (intros r; apply roomView_checkRateLimit).
  assert (storedRoom roomId w1 = storedRoom roomId w) as Hmeta.
  { pose proof (leaveCurrent_view s w roomId) as Hv. fold w1 in Hv.
    case_decide; unfold roomView in Hv; by injection Hv. }
  assert (storedVideo roomId w1 = storedVideo roomId w) as Hvid1.
  { pose proof (leaveCurrent_view s w roomId) as Hv. fold w1 in Hv.
    case_decide; unfold roomView in Hv; by injection Hv. }
  assert (∀ r, roomView r w3
               = if decide (r = roomId)
                 then mkRoomView (Some room') (if storedRoom roomId w2 is Some _
                                               then roomIndex w1 !! r else Some room')
                        (usersOf r w1) (memberIds r w1) (cursorsOf r w1) (storedVideo r w1)
                 else roomView r w1) as Hv3.
  { intros r. subst w3 room'. destruct (storedRoom roomId w2) as [room0|] eqn:Hroom0.
    - rewrite Hv2. case_decide as Hr; [|done]. subst r.
      unfold roomView. f_equal.
      pose proof (Hv2 roomId) as Hv. unfold roomView in Hv. injection Hv as <- _ _ _ _ _.
      done.
    - subst created. rewrite roomView_createRoom. case_decide as Hr; [|by rewrite Hv2].
      subst r. pose proof (Hv2 roomId) as Hv. unfold roomView in Hv.
      by injection Hv as _ _ -> -> -> ->. }
  assert (∀ r, roomView r w5
               = if decide (r = roomId)
                 then mkRoomView (Some room') (if storedRoom roomId w2 is Some _
                                               then roomIndex w1 !! r else Some room')
                        (<[userId := userData]> (usersOf r w1))
                        ({[userId]} ∪ memberIds r w1) (cursorsOf r w1) (storedVideo r w1)
                 else roomView r w1) as Hv5.
  { intros r. subst w5 w4. rewrite roomView_getVideoState, roomView_addUserToRoom.
    pose proof (Hv3 r) as Hv. rewrite Hid.
    case_decide as Hr; [|done].
    unfold roomView in Hv. by injection Hv as -> -> -> -> -> ->. }
  pose proof (Hv5 roomId) as Hown. rewrite decide_True in Hown by done.
  unfold roomView in Hown. injection Hown as Hroom Hidx Husers Hmem Hcur Hvid.
  assert (room' = room) as Hsame.
  { subst room' room. unfold result. rewrite getRoom_run. cbn [fst].
    pose proof (Hv2 roomId) as Hv. unfold roomView in Hv. injection Hv as Hr2 _ _ _ _ _.
    rewrite Hr2, Hmeta. destruct (storedRoom roomId w) as [room0|]; [done|].
    cbn [default from_option]. subst created.
    destruct (createRoom_run roomId userId RoomOptions.empty w2) as (Hres & _).
    unfold result in Hres. by rewrite Hres. }
  assert (after (joinRoom roomId s) w = w5) as Haft by (unfold after; by rewrite Hrun).
  assert (result (joinRoom roomId s) w = (joinRoom roomId s w).1) as Hres by done.
  rewrite Hrun in Hres. cbn [fst] in Hres.
  subst s' w' users. rewrite Hres, Haft.
  cbn [fst snd Session.data Session.calls SocketData.currentRoom].
  unfold result. rewrite !getRoom_run, !getRoomUsers_run. cbn [fst].
  rewrite Hroom, Husers, Hsame.
  split_and!; try done.
  - apply (elem_of_Object_values _ userId). by rewrite lookup_insert_eq.
  - exists vs. split; [done|]. intros st Hst. subst vs. unfold result.
    erewrite getVideoState_stored; [done|].
    subst w4. pose proof (roomView_addUserToRoom roomId userData w3 roomId) as Hv.
    rewrite decide_True in Hv by done. unfold roomView in Hv.
    injection Hv as _ _ _ _ _ ->.
    pose proof (Hv3 roomId) as Hv. rewrite decide_True in Hv by done.
    unfold roomView in Hv. injection Hv as _ _ _ _ _ ->. by rewrite Hvid1.
  - intros old Hold Hne. rewrite getRoomUsers_run. cbn [fst].
    pose proof (Hv5 old) as Hv.
    rewrite decide_False in Hv by done. subst w1.
    rewrite leaveCurrent_view, decide_True in Hv by done.
    unfold roomView in Hv. injection Hv as _ _ -> _ _ _.
    by rewrite lookup_delete_eq.
Qed.

Lemma joinRoom_admitted_witness :
  User.id (SocketData.userData (Session.data demoSession))
  = SocketData.userId (Session.data demoSession)
  ∧ SocketData.currentRoom
      (Session.data (result (joinRoom "lobby1" demoSession) (boot (λ _, 7000))).2)
    = Some "lobby1".
Proof.
  assert (User.id (SocketData.userData (Session.data demoSession))
          = SocketData.userId (Session.data demoSession)) as Hid by reflexivity.
  split; [exact Hid|].
  exact (proj1 (proj2 (joinRoom_admitted_enters_the_room "lobby1" demoSession
                         (boot (λ _, 7000)) Hid eq_refl))).
Defined.

(* ================================================================== *)
(** ** heartbeat and cursor:move *)
(* ================================================================== *)

(** X25.  [heartbeat] of a connection in no room changes nothing.  In a room
    [r] it sets [lastSeen] of the connection's user data to the clock
    reading, stores the user data for [r] under the user's id, sends
    nothing, keeps the current room, keeps the member count when the user
    was stored for [r], and leaves other rooms unchanged. *)
Theorem onHeartbeat_refreshes_the_member s w :
  let u := SocketData.userData (Session.data s) in
  let s' := result (onHeartbeat s) w in
  let w' := after (onHeartbeat s) w in
  (truthy (SocketData.currentRoom (Session.data s)) = None → s' = s ∧ w' = w)
  ∧ (∀ r, truthy (SocketData.currentRoom (Session.data s)) = Some r →
       let u' := User.mk (User.id u) (User.city u) (User.timezone u) (User.flag u)
                   (User.connectedAt u) (reading w 0) (User.instance u) in
       SocketData.userData (Session.data s') = u'
       ∧ SocketData.currentRoom (Session.data s') = SocketData.currentRoom (Session.data s)
       ∧ Session.calls s' = Session.calls s
       ∧ result (getRoomUsers r) w' = <[User.id u := u']> (result (getRoomUsers r) w)
       ∧ (User.id u ∈ memberIds r w →
          result (getRoomUserCount r) w' = result (getRoomUserCount r) w)
       ∧ (∀ r', r' ≠ r → roomView r' w' = roomView r' w)).
Proof.
  intros u s' w'. split.
  - intros Hnone. subst s' w'. unfold result, after, onHeartbeat. by rewrite Hnone.
  - intros r Hr u'.
    assert (onHeartbeat s w
            = (Session.mk (SocketData.mk (SocketData.userId (Session.data s)) u'
                             (SocketData.currentRoom (Session.data s)))
                 (Session.calls s),
               after (addUserToRoom r u') (with_reads (S (reads w)) w))) as Hrun.
    { unfold onHeartbeat. rewrite Hr, !bind_run.
      subst u'. unfold reading. rewrite Nat.add_0_r. by cbn [Date_now fst snd mret M_ret]. }
    subst s' w'. unfold result at 1 2 3, after at 1 2 3. rewrite Hrun. cbn [fst snd].
    pose proof (roomView_addUserToRoom r u' (with_reads (S (reads w)) w)) as Hview.
    pose proof (Hview r) as Hown. rewrite decide_True in Hown by done.
    unfold roomView in Hown. injection Hown as Hroom Hidx Husers Hmem Hcur Hvid.
    unfold result. rewrite !getRoomUsers_run, !getRoomUserCount_run. cbn [fst].
    split_and!; try done.
    + intros Hin. unfold userCountOf. rewrite Hmem. cbn [User.id].
      change (memberIds r (with_reads (S (reads w)) w)) with (memberIds r w).
      by rewrite (subseteq_union_1_L {[User.id u]}) by (by apply singleton_subseteq_l).
    + intros r' Hne. by rewrite Hview, decide_False.
Qed.

(** X26.  An admitted [cursor:move] in room [r] puts a cursor with the user's
    id, city and flag, the given position and the clock reading taken after
    the rate check into the batch of [r] under the user's id (replacing an
    earlier one of that user), leaves the batches of other rooms alone, and
    emits nothing; in cluster mode the cursor is also stored for [r] under
    the connection's user id, in standalone mode nothing is stored.  Video
    states and members are unchanged. *)
Theorem onCursorMove_batches_and_persists sock r x y w :
  truthy (SocketData.currentRoom sock) = Some r →
  RateLimitResult.allowed (result (checkRateLimit (SocketData.userId sock) cursor) w)
    = true →
  let u := SocketData.userData sock in
  let w1 := after (checkRateLimit (SocketData.userId sock) cursor) w in
  let c := CursorData.mk (User.id u) (User.city u) (User.flag u) x y (reading w1 0) in
  let w' := after (onCursorMove sock x y) w in
  JSMap.get r (cursorBatches w')
  = Some (JSMap.set (User.id u) c (default [] (JSMap.get r (cursorBatches w))))
  ∧ (∀ r', r' ≠ r → JSMap.get r' (cursorBatches w') = JSMap.get r' (cursorBatches w))
  ∧ result (getRoomCursors r) w'
    = (if connected w then <[SocketData.userId sock := c]> (result (getRoomCursors r) w)
       else ∅)
  ∧ emitted w' = emitted w
  ∧ (∀ r', storedVideo r' w' = storedVideo r' w
           ∧ result (getRoomUsers r') w' = result (getRoomUsers r') w).
Proof.
  intros Hr Hallowed u w1 c w'.
  destruct (checkRateLimit_world (SocketData.userId sock) cursor w)
    as (Hclk & Hconn & _ & _ & _ & Hem & Hcb & _). fold w1 in Hclk, Hconn, Hem, Hcb.
  set (w2 := with_cursorBatches (enqueue r c (cursorBatches w1))
               (with_reads (S (reads w1)) w1)).
  assert (w' = after (updateCursor r (SocketData.userId sock) c) w2) as Hw'.
  { subst w'. unfold onCursorMove. rewrite Hr, after_bind, Hallowed. cbn [negb]. fold w1.
    rewrite after_bind. fold u.
    assert (result Date_now w1 = reading w1 0) as ->
      by (unfold result, reading; cbn; by rewrite Nat.add_0_r).
    fold c. rewrite after_bind. unfold after at 2. rewrite batchCursorUpdate_run.
    by cbn [snd]. }
  assert (connected w2 = connected w) as Hconn2 by (by rewrite <- Hconn).
  assert (∀ r', roomView r' w2 = roomView r' w) as Hview2.
  { intros r'. rewrite <- (roomView_checkRateLimit (SocketData.userId sock) cursor w r').
    done. }
  assert (cursorBatches w' = enqueue r c (cursorBatches w) ∧ emitted w' = emitted w)
    as [Hbatch Hem'].
  { rewrite Hw'. unfold after. rewrite updateCursor_run. cbn [snd].
    rewrite <- Hcb, <- Hem. by destruct (connected w2). }
  rewrite Hbatch.
  split_and!.
  - by rewrite get_enqueue, decide_True.
  - intros r' Hne. by rewrite get_enqueue, decide_False.
  - unfold result. rewrite !getRoomCursors_run. cbn [fst].
    rewrite Hw'. unfold after. rewrite updateCursor_run. cbn [snd]. rewrite Hconn2.
    destruct (connected w) eqn:Hc.
    + destruct (parts_redisCommand r
                  (Redis.hSet (KEYS.roomCursors r) (SocketData.userId sock) (JCursor c))
                  w2 ltac:(by rewrite Hconn2)) as (_ & _ & _ & _ & -> & _).
      redis_simpl. rewrite (omap_insert_Some _ _ _ _ c) by done.
      f_equal. pose proof (Hview2 r) as Hv.
      rewrite roomView_cluster in Hv by (by rewrite Hconn2).
      unfold roomView, dbView in Hv. by injection Hv.
    + unfold cursorsOf. by rewrite Hconn2.
  - done.
  - intros r'. unfold result. rewrite !getRoomUsers_run. cbn [fst].
    pose proof (Hview2 r') as Hv2. unfold roomView in Hv2.
    injection Hv2 as _ _ Hu2 _ _ Hvid2. rewrite <- Hu2, <- Hvid2.
    rewrite Hw'. unfold after. rewrite updateCursor_run. cbn [snd].
    rewrite Hconn2. destruct (connected w) eqn:Hc; [|done].
    destruct (parts_redisCommand r'
                (Redis.hSet (KEYS.roomCursors r) (SocketData.userId sock) (JCursor c))
                w2 ltac:(by rewrite Hconn2)) as (_ & _ & -> & _ & _ & ->).
    destruct (parts_cluster r' w2 ltac:(by rewrite Hconn2)) as (_ & _ & -> & _ & _ & ->).
    by redis_simpl.
Qed.

Lemma onCursorMove_witness :
  RateLimitResult.allowed (result (checkRateLimit (SocketData.userId demoSock) cursor)
                             demoWorld) = true
  ∧ emitted (after (onCursorMove demoSock (Qc_of_Z 10) (Qc_of_Z 20)) demoWorld)
    = emitted demoWorld.
Proof.
  assert (RateLimitResult.allowed
            (result (checkRateLimit (SocketData.userId demoSock) cursor) demoWorld)
          = true) as Hallowed by reflexivity.
  split; [exact Hallowed|].
  exact (proj1 (proj2 (proj2 (proj2
    (onCursorMove_batches_and_persists demoSock "lobby1" (Qc_of_Z 10) (Qc_of_Z 20)
       demoWorld eq_refl Hallowed))))).
Defined.

(* ================================================================== *)
(** ** Reconnecting to Redis *)
(* ================================================================== *)

(** X27.  The reconnect strategy of the Redis client gives up (returns an
    [Error]) exactly when [retries > 10].  Otherwise the delay is
    [100 * retries] milliseconds, which is at most 1000: the cap of 3000 in
    [Math.min(retries * 100, 3000)] is never reached, and each further retry
    waits 100 ms longer. *)
Theorem reconnectStrategy_gives_up_after_ten_retries retries :
  (reconnectStrategy retries = None ↔ 10 < retries)
  ∧ (∀ delay, reconnectStrategy retries = Some delay →
              delay = 100 * retries ∧ delay ≤ 1000 ∧ delay < 3000)
  ∧ (∀ delay delay', reconnectStrategy retries = Some delay →
                     reconnectStrategy (retries + 1) = Some delay' →
                     delay' = delay + 100).
Proof.
  unfold reconnectStrategy. split_and!.
  - case_decide; split; (done || lia).
  - intros delay. case_decide; [done|]. intros [= <-]. lia.
  - intros delay delay'. repeat case_decide; try done. intros [= <-] [= <-]. lia.
Qed.

(* ================================================================== *)
(** ** The NTP exchange of the browser *)
(* ================================================================== *)

Lemma this_half (x : Qc) : (this (x / Qc_of_Z 2)%Qc == this x * (1 # 2))%Q.
Proof.
  unfold Qcdiv, Qcmult, Qcinv, Q2Qc; cbn [this]. rewrite !Qred_correct. reflexivity.
Qed.

Lemma this_of_Z (n : Z) : this (Qc_of_Z n) = inject_Z n.
Proof. reflexivity. Qed.

Lemma POST_syncRequest t1 w :
  result (POST (Some (syncRequest t1))) w
  = Ok200 (TimeResponse.mk (Some (JNumber (Qc_of_Z t1))) (reading w 0) (reading w 1)
             (reading w 1 - reading w 0)).
Proof.
  unfold result, POST, syncRequest, reading. rewrite bind_run.
  cbn. by rewrite Nat.add_0_r, Nat.add_1_r.
Qed.

(** X28.  One exchange of [performSync] with the [POST] handler.  Let the server
    clock be ahead of the browser clock by [θ], let the request take [d1]
    and the response [d2] milliseconds (both non-negative).  Then the
    measurement has [t2] and [t3] the two clock readings of the handler,
    [roundTripTime = d1 + d2], and an [offset] within [roundTripTime / 2] of
    [θ]; with equal delays the offset is exactly [θ]. *)
Theorem performSync_offset_within_half_round_trip t1 t4 stamp w θ d1 d2 :
  reading w 0 = t1 + θ + d1 →
  t4 = reading w 1 - θ + d2 →
  0 ≤ d1 → 0 ≤ d2 →
  ∃ m,
    performSync t1 t4 stamp (Some (result (POST (Some (syncRequest t1))) w)) = Some m
    ∧ SyncMeasurement.t2 m = reading w 0
    ∧ SyncMeasurement.t3 m = reading w 1
    ∧ SyncMeasurement.roundTripTime m = d1 + d2
    ∧ (Qc_of_Z θ - Qc_of_Z (d1 + d2) / Qc_of_Z 2 ≤ SyncMeasurement.offset m)%Qc
    ∧ (SyncMeasurement.offset m ≤ Qc_of_Z θ + Qc_of_Z (d1 + d2) / Qc_of_Z 2)%Qc
    ∧ (d1 = d2 → SyncMeasurement.offset m = Qc_of_Z θ).
Proof.
  intros Ht2 Ht4 Hd1 Hd2. rewrite POST_syncRequest. cbn [performSync].
  eexists. split; [reflexivity|].
  cbn [SyncMeasurement.t2 SyncMeasurement.t3 SyncMeasurement.roundTripTime
       SyncMeasurement.offset TimeResponse.serverReceiveTime TimeResponse.serverSendTime].
  assert (reading w 0 - t1 + (reading w 1 - t4) = 2 * θ + d1 - d2) as -> by lia.
  split_and!; [done|done|lia|..].
  - unfold Qcle. rewrite this_minus, !this_half, !this_of_Z.
    unfold Z.sub. rewrite ?inject_Z_plus, ?inject_Z_opp, ?inject_Z_mult.
    rewrite Zle_Qle in Hd1, Hd2. change (inject_Z 2) with 2%Q.
    change (inject_Z 0) with 0%Q in *. lra.
  - unfold Qcle. rewrite this_plus, !this_half, !this_of_Z.
    unfold Z.sub. rewrite ?inject_Z_plus, ?inject_Z_opp, ?inject_Z_mult.
    rewrite Zle_Qle in Hd1, Hd2. change (inject_Z 2) with 2%Q.
    change (inject_Z 0) with 0%Q in *. lra.
  - intros ->. apply Qc_is_canon. rewrite this_half, !this_of_Z.
    unfold Z.sub. rewrite ?inject_Z_plus, ?inject_Z_opp, ?inject_Z_mult.
    change (inject_Z 2) with 2%Q. ring.
Qed.

Lemma performSync_witness :
  reading (boot (λ n, 5000 + Z.of_nat n)) 0 = 1000 + 3990 + 10
  ∧ ∃ m,
      performSync 1000 1021 1022
        (Some (result (POST (Some (syncRequest 1000))) (boot (λ n, 5000 + Z.of_nat n))))
      = Some m
      ∧ SyncMeasurement.offset m = Qc_of_Z 3990.
Proof.
  assert (reading (boot (λ n, 5000 + Z.of_nat n)) 0 = 1000 + 3990 + 10) as H0
    by reflexivity.
  split; [exact H0|].
  destruct (performSync_offset_within_half_round_trip 1000 1021 1022
              (boot (λ n, 5000 + Z.of_nat n)) 3990 10 10 H0 eq_refl
              ltac:(lia) ltac:(lia)) as (m & Hm & _ & _ & _ & _ & _ & Hsym).
  exists m. split; [exact Hm|exact (Hsym eq_refl)].
Defined.

(* ================================================================== *)
(** ** The periodic tick over all rooms *)
(* ================================================================== *)

Lemma tickRoom_run room w :
  ∃ s st, after (tickRoom room) w
          = with_emitted (emitted w ++ [ToRoom (Room.id room) (VideoStateMsg s)])
              (after (updateVideoTime (Room.id room)) w)
          ∧ storedVideo (Room.id room) (after (tickRoom room) w) = Some st
          ∧ (∀ r, r ≠ Room.id room →
                  storedVideo r (after (tickRoom room) w) = storedVideo r w).
Proof.
  destruct (updateVideoTime_after (Room.id room) w) as (st & k & Hk & Haft).
  exists (result (updateVideoTime (Room.id room)) w), st.
  assert (after (tickRoom room) w
          = with_emitted (emitted w
                          ++ [ToRoom (Room.id room)
                                (VideoStateMsg (result (updateVideoTime (Room.id room)) w))])
              (after (updateVideoTime (Room.id room)) w)) as Hrun.
  { unfold tickRoom. rewrite after_bind. unfold after at 1, emit, modify. cbn [snd].
    by rewrite Haft, emitted_putVideo. }
  rewrite Hrun. split_and!; [done| |].
  - by rewrite storedVideo_with_emitted, Haft, storedVideo_putVideo.
  - intros r Hr.
    by rewrite storedVideo_with_emitted, Haft, storedVideo_putVideo_ne,
      storedVideo_with_reads.
Qed.

Lemma forEach_tickRoom rooms :
  ∀ w, ∃ sent,
    emitted (after (forEach tickRoom rooms) w) = emitted w ++ sent
    ∧ emissionRoom <$> sent = Room.id <$> rooms
    ∧ Forall isVideoState sent
    ∧ (∀ room, room ∈ rooms →
               is_Some (storedVideo (Room.id room) (after (forEach tickRoom rooms) w)))
    ∧ (∀ r, r ∉ Room.id <$> rooms →
            storedVideo r (after (forEach tickRoom rooms) w) = storedVideo r w).
Proof.
  induction rooms as [|room rooms IH]; intros w.
  - exists []. split_and!; try done.
    + by rewrite app_nil_r.
    + by intros room ?%elem_of_nil.
  - cbn [forEach]. rewrite after_bind.
    change (result (tickRoom room) w) with tt.
    destruct (tickRoom_run room w) as (s & st & Hrun & Hown & Hframe).
    set (w1 := after (tickRoom room) w) in *.
    destruct (IH w1) as (sent & Hem & Hrooms & Hkind & Hstored & Hother).
    exists (ToRoom (Room.id room) (VideoStateMsg s) :: sent).
    split_and!.
    + rewrite Hem. subst w1. rewrite Hrun. cbn. by rewrite <- app_assoc.
    + cbn. by rewrite Hrooms.
    + apply Forall_cons. split; [by eexists _, _|done].
    + intros room' [->|Hin]%elem_of_cons; [|by apply Hstored].
      destruct (decide (Room.id room ∈ Room.id <$> rooms)) as [Hdup|Hnew].
      * apply list_elem_of_fmap in Hdup as (room'' & Hid & Hin). rewrite Hid.
        by apply Hstored.
      * rewrite Hother by done. by rewrite Hown.
    + intros r Hr. rewrite fmap_cons in Hr. apply not_elem_of_cons in Hr as [Hne Hr].
      rewrite Hother by done. by apply Hframe.
Qed.

(** X29.  One periodic tick emits exactly one message per room returned by
    [getAllRooms()], in that order, each a [video:state] to that room, and
    nothing else; afterwards every listed room has a stored video state, and the
    video state of every
    room that is not listed is unchanged. *)
Theorem videoTick_broadcasts_once_per_listed_room w :
  let rooms := result getAllRooms w in
  let w' := after videoTick w in
  ∃ sent,
    emitted w' = emitted w ++ sent
    ∧ emissionRoom <$> sent = Room.id <$> rooms
    ∧ Forall isVideoState sent
    ∧ (∀ room, room ∈ rooms → is_Some (storedVideo (Room.id room) w'))
    ∧ (∀ r, r ∉ Room.id <$> rooms → storedVideo r w' = storedVideo r w).
Proof.
  intros rooms w'.
  assert (w' = after (forEach tickRoom rooms) w) as ->.
  { subst w' rooms. unfold after, result, videoTick. rewrite bind_run.
    by rewrite getAllRooms_world. }
  apply forEach_tickRoom.
Qed.
